(* ===== verification/_CoqProject ===== *)
-Q . S2P
Prelude.v
Machine.v
Loader.v
Timers.v
Alu.v
Display.v
Misc.v
Cycle.v
Isa.v
Driver.v
Run.v
