(* ===== verification/Prelude.v ===== *)
(** * A verified model of the chip8-emu CHIP-8 interpreter

    The repository ([src/chip8.h], [src/chip8.c], [src/main.c]) is a small
    C interpreter for the CHIP-8 virtual machine.  All of its state is one
    record, [chip8_t] in [src/chip8.h]: 4096 bytes of memory, sixteen 8-bit
    registers [V], the 16-bit index register [I] and program counter [pc],
    a 16-slot return stack with an 8-bit stack pointer [sp], two 8-bit timers,
    sixteen key bytes, a 32-row framebuffer of [uint32_t] rows and the
    [draw_flag] that tells the renderer the screen changed.  The driver
    ([main] in [src/main.c]) calls [chip8_init], [chip8_load_rom], then
    [chip8_cycle] and [chip8_update_timers] in a loop and clears [draw_flag]
    after observing it.  [chip8_cycle] fetches a big-endian opcode at [pc],
    advances [pc] by two and dispatches on the top nibble, delegating the
    [8xy_] family to [execute_arithmetic], [Dxyn] to [execute_draw] and the
    [Fx__] family to [execute_misc].

    ** Files of the development (in dependency order)

    - [Prelude] (this file): machine integers as [Z] with their wrap-around
      ([u8], [u16], [u32]), the [result] type of the model (a value, or a
      [fault] for a C behaviour the standard leaves undefined) with its monad
      instances, checked array access, the C [for]-loop-with-[break]
      combinator [c_for] with its invariant and progress rules, bit lemmas,
      and the hint database [chip8].
    - [Machine]: [chip8_t] with the source's field names and C widths,
      setters that perform C's assignment conversion, [fontset],
      [chip8_init] (memset, memcpy, pc = 0x200), checked accessors of
      [memory], [stack] and [keypad], and the type invariant [wf].
    - [Loader]: [chip8_load_rom] (chip8.c:33-51) over a file abstracted to
      [option (list byte)]; [fread_into] is the [fread] at [0x200].
    - [Timers]: [chip8_update_timers] and [chip8_set_key] (chip8.c:257-270).
    - [Alu]: [execute_arithmetic] (chip8.c:53-90) and its abstract table
      [alu_spec].
    - [Display]: [execute_draw] (chip8.c:92-117) as its two loops
      [draw_row]/[draw_col], [chip8_get_pixel] (chip8.c:272-277), their
      closed forms and the pixel-level specification [pixel],
      [sprite_pixel], [draw_ok].
    - [Misc]: [execute_misc] (chip8.c:119-166) with the key scan, BCD and
      register block loops.
    - [Cycle]: [chip8_cycle] (chip8.c:168-255) as [fetch], the field
      extractors [op_x] .. [op_nnn] and [execute].
    - [Isa]: the tagged instruction variant of spec sections 4.2 and 9
      ([instr], [decode], [encode], [exec_instr]); modelled from the spec,
      since the code has no such type, and related to [execute].
    - [Driver]: [main] (main.c) with its ten-iteration loop [main_body],
      and [drv_step], the host's interleaving of cycles, ticks, key events
      and draw-flag acknowledgements (spec section 2).
    - [Run]: [run], [n] calls of [chip8_cycle] in a row as the host makes
      them, and [isa_run], the same loop over [Isa]'s variants; a CHIP-8
      counting loop ([count_loop]) used to show termination of a program.

    ** What the theorems show

    - Refinement: [execute_arithmetic] implements [alu_spec] when no operand
      is [VF]; what it does when one is (findings 8xF5/8xF7 and 8Fy4).
    - Display: a draw XORs the sprite into the framebuffer, sets [VF] exactly
      on a collision, is undone by the same draw, and is defined exactly when
      no lit pixel falls in columns 32-63 ([1U << px] on a 32-bit row).
    - The decoder: the fetch, the fields, every instruction family (skips,
      loads, jumps, clear, call/return, unknown opcodes as no-ops), frame
      properties (timers and keys untouched by instructions) and the faults
      of the call stack.
    - The instruction set: [decode] and [encode] are inverse, and [execute]
      is [exec_instr] after [decode] on every 16-bit opcode except [5xyn] and
      [9xyn] with [n <> 0], which the code runs as [5xy0]/[9xy0] and the
      table reads as no-ops.
    - [Fx__]: BCD, store/load round trip, definedness of the block
      transfers, the wait-for-key rewind, the index register.
    - Loader, timers, keys: status and no partial write, the copy round
      trip, saturation of the timers, the key latch with its guard.
    - Driver: every machine reachable from a loaded program satisfies [wf]
      and keeps [sp <= 16] (rule induction on [rtc drv_step]); the outcomes
      of [main], its output being one line per iteration of [host_iters]
      that observed the draw flag; the [Fx0A] busy-poll stays put under
      every key-less schedule of cycles, ticks and acknowledgements
      ([quiet_step]) and moves on as soon as a key is pressed.
    - Runs: a run of the code refines the spec's fetch-decode-execute
      machine until a [5xyn]/[9xyn] with [n <> 0] is fetched; a counting
      loop terminates after exactly [3 m + 2] cycles, by induction on the
      measure [m = (kk - V0 - 1) mod 256], from every initial [V0].

    ** Loops and bounds

    Every C loop is [c_for] with the loop's own bound ([NUM_KEYS] = 16 for
    the key scan, [x + 1] for [Fx55]/[Fx65], the sprite height and 8
    columns for [Dxyn], 10 iterations in [main]), so every definition is
    structurally recursive and total: no fuel is needed.  Array lookups out
    of range only occur under a guard of the source; stdpp's total lookup
    returns [1] for [Z] there, which no theorem relies on.

    ** Policy for undefined behaviour

    The source does not check array bounds or shift amounts (spec, section 7,
    leaves the policy to the implementer).  The model follows the C standard:
    an access to [memory], [stack] or [keypad] outside the array, a shift [1U << s]
    with [s >= 32], or reading [argv[0]] when [argc] is 0, is undefined
    behaviour, and the model returns [Fault] with the offending index instead
    of a state.  Every such fault is a reachable defect of the C program, and
    the theorems say exactly when none occurs.  Unsigned arithmetic wraps as
    in C ([u8], [u16]).

    ** Not modelled

    File I/O ([fopen], [fseek], [ftell], [fread], [fclose] in
    [chip8_load_rom]) is abstracted to the bytes the file holds, so an
    [ftell] failure or a short [fread] is outside the model; [srand]/[time]
    in [chip8_init] and [rand] in [Cxkk] are replaced by the value [rand()]
    returned, an argument of the cycle; [printf]/[fprintf] output of [main]
    is a list of lines without their newline characters. *)

From stdpp Require Export base list decidable.
From Stdlib Require Export ZArith Lia.

Open Scope Z_scope.

Declare Scope chip8_scope.
Delimit Scope chip8_scope with c8.

(** ** Machine integers *)

(** [uintN_t] values are [Z]s in [[0, 2^N)]; C's unsigned conversion is
    reduction modulo [2^N]. *)
Definition u8 (z : Z) : Z := z mod 256.
Definition u16 (z : Z) : Z := z mod 65536.
Definition u32 (z : Z) : Z := z mod 4294967296.

Definition is_u8 (z : Z) : Prop := 0 <= z < 256.
Definition is_u16 (z : Z) : Prop := 0 <= z < 65536.
Definition is_u32 (z : Z) : Prop := 0 <= z < 4294967296.

#[export] Instance is_u8_dec z : Decision (is_u8 z) := _.
#[export] Instance is_u16_dec z : Decision (is_u16 z) := _.
#[export] Instance is_u32_dec z : Decision (is_u32 z) := _.

(** ** Undefined behaviour as a fault *)

Inductive fault :=
| MemoryOutOfBounds (addr : Z)
| StackOutOfBounds (index : Z)
| KeypadOutOfBounds (index : Z)
| ShiftOutOfRange (amount : Z)
| NullArgument.

Inductive result (A : Type) :=
| Ok (a : A)
| Fault (f : fault).
Arguments Ok {A} a.
Arguments Fault {A} f.

#[export] Instance result_ret : MRet result := λ A a, Ok a.
#[export] Instance result_bind : MBind result :=
  λ A B k m, match m with Ok a => k a | Fault f => Fault f end.

Definition is_ok {A} (r : result A) : bool :=
  match r with Ok _ => true | Fault _ => false end.

(** Checked access to a C array [a[i]]: [oob i] is the fault raised
    outside the array. *)
Definition arr_read (oob : Z -> fault) (a : list Z) (i : Z) : result Z :=
  if decide (0 <= i < Z.of_nat (length a)) then Ok (a !!! Z.to_nat i)
  else Fault (oob i).

Definition arr_write (oob : Z -> fault) (a : list Z) (i v : Z) : result (list Z) :=
  if decide (0 <= i < Z.of_nat (length a)) then Ok (<[Z.to_nat i := v]> a)
  else Fault (oob i).

(** Unchecked access where the index is in range by construction (a 4-bit
    opcode field or a masked key number). *)
Notation "a .[ i ]" := (a !!! Z.to_nat i) (at level 1, format "a .[ i ]") : chip8_scope.
Notation "a .[ i := v ]" := (<[Z.to_nat i := v]> a)
  (at level 1, format "a .[ i  :=  v ]") : chip8_scope.
Open Scope chip8_scope.

(** [1U << s] on a 32-bit [unsigned int]: defined for [s < 32] only. *)
Definition shl_u32 (v s : Z) : result Z :=
  if decide (0 <= s < 32) then Ok (u32 (Z.shiftl v s)) else Fault (ShiftOutOfRange s).

(** ** The C [for] loop with [break]

    [for (i = i0; <n iterations>; i++) { body }]: the body either continues
    or breaks, and may fault.  The iteration count [n] is the loop bound of
    the source, so the recursion is structural. *)
Inductive flow (St : Type) := Continue (s : St) | Break (s : St).
Arguments Continue {St} s.
Arguments Break {St} s.

Definition flow_state {St} (f : flow St) : St :=
  match f with Continue s | Break s => s end.

Fixpoint c_for {St} (n : nat) (i : Z) (body : Z -> St -> result (flow St)) (s : St) : result St :=
  match n with
  | O => Ok s
  | S n' =>
      r ← body i s;
      match r with
      | Continue s' => c_for n' (i + 1) body s'
      | Break s' => Ok s'
      end
  end.

(** ** Lemmas on machine integers *)

Create HintDb chip8 discriminated.
Create Rewrite HintDb chip8_len.

(** [lia] with the division and modulo of machine arithmetic turned into
    linear equations first (stdpp's tactic setup leaves [mod] opaque to
    [lia]). *)
Ltac zlia := unfold u8, u16, u32, is_u8, is_u16, is_u32 in *;
  Z.to_euclidean_division_equations; lia.

Lemma u8_range z : is_u8 (u8 z).
Proof. zlia. Qed.
Lemma u16_range z : is_u16 (u16 z).
Proof. zlia. Qed.
Lemma u32_range z : is_u32 (u32 z).
Proof. zlia. Qed.

Lemma u8_id z : is_u8 z -> u8 z = z.
Proof. unfold is_u8, u8. intros. apply Z.mod_small. lia. Qed.
Lemma u16_id z : is_u16 z -> u16 z = z.
Proof. unfold is_u16, u16. intros. apply Z.mod_small. lia. Qed.
Lemma u32_id z : is_u32 z -> u32 z = z.
Proof. unfold is_u32, u32. intros. apply Z.mod_small. lia. Qed.

Lemma is_u8_u16 z : is_u8 z -> is_u16 z.
Proof. unfold is_u8, is_u16. lia. Qed.

(** A [uint8_t] value fits every wider unsigned type. *)
Lemma is_u8_u32 z : is_u8 z -> is_u32 z.
Proof. unfold is_u8, is_u32. lia. Qed.

#[export] Hint Resolve u8_range u16_range u32_range is_u8_u16 is_u8_u32 : chip8.

(** [x & m] for a mask [m = 2^k - 1] is [x mod 2^k]. *)
Lemma land_low_bits x k : 0 <= k -> Z.land x (Z.ones k) = x mod 2 ^ k.
Proof. intros. apply Z.land_ones. lia. Qed.

Lemma land_u8 x : Z.land x 255 = u8 x.
Proof. apply (land_low_bits x 8). lia. Qed.

(** ** The result monad *)

Lemma bind_Ok_inv {A B} (k : A -> result B) m b :
  (m ≫= k) = Ok b -> ∃ a, m = Ok a ∧ k a = Ok b.
Proof. destruct m; simpl; [eauto|discriminate]. Qed.

Lemma bind_Ok {A B} (k : A -> result B) a : (Ok a ≫= k) = k a.
Proof. reflexivity. Qed.

Lemma bind_Fault {A B} (k : A -> result B) f : (Fault f ≫= k) = Fault f.
Proof. reflexivity. Qed.

(** Decompose every successful bind and injection in the hypotheses. *)
Ltac inv_result :=
  repeat match goal with
  | H : mbind _ _ = Ok _ |- _ =>
      let a := fresh "a" in let Ha := fresh "Ha" in
      apply bind_Ok_inv in H as (a & Ha & H)
  | H : mret _ = Ok _ |- _ => cbv [mret result_ret] in H; injection H as H
  | H : Ok _ = Ok _ |- _ => injection H as H
  | H : Fault _ = Ok _ |- _ => discriminate H
  end.

(** ** Checked array access *)

Section Arrays.
Context (oob : Z -> fault) (a : list Z).

Lemma arr_read_in i : 0 <= i < Z.of_nat (length a) -> arr_read oob a i = Ok (a.[i]).
Proof. intros. unfold arr_read. by rewrite decide_True. Qed.

Lemma arr_read_out i : ¬ (0 <= i < Z.of_nat (length a)) -> arr_read oob a i = Fault (oob i).
Proof. intros. unfold arr_read. by rewrite decide_False. Qed.

Lemma arr_write_in i v :
  0 <= i < Z.of_nat (length a) -> arr_write oob a i v = Ok (a.[i := v]).
Proof. intros. unfold arr_write. by rewrite decide_True. Qed.

Lemma arr_write_out i v :
  ¬ (0 <= i < Z.of_nat (length a)) -> arr_write oob a i v = Fault (oob i).
Proof. intros. unfold arr_write. by rewrite decide_False. Qed.

Lemma arr_read_Ok_inv i v : arr_read oob a i = Ok v -> 0 <= i < Z.of_nat (length a) ∧ v = a.[i].
Proof. unfold arr_read. case_decide; intros; simplify_eq; auto. Qed.

Lemma arr_write_Ok_inv i v a' :
  arr_write oob a i v = Ok a' -> 0 <= i < Z.of_nat (length a) ∧ a' = a.[i := v].
Proof. unfold arr_write. case_decide; intros; simplify_eq; auto. Qed.
End Arrays.

(** Indexing with a [Z] index: the lemmas of stdpp's [!!!] and [<[_:=_]>]
    restated for [Z.to_nat]. *)
Lemma zlookup_insert_eq (a : list Z) i v :
  0 <= i < Z.of_nat (length a) -> (a.[i := v]).[i] = v.
Proof. intros. rewrite list_lookup_total_insert. case_decide; [done|lia]. Qed.

Lemma zlookup_insert_ne (a : list Z) i j v :
  0 <= i -> 0 <= j -> i ≠ j -> (a.[i := v]).[j] = a.[j].
Proof. intros. rewrite list_lookup_total_insert. case_decide; [lia|done]. Qed.

(** Read through a chain of writes at [Z] indices. *)
Ltac zlookup_simp :=
  repeat first
    [ rewrite zlookup_insert_eq by (rewrite ?length_insert; lia)
    | rewrite zlookup_insert_ne by lia ].

Lemma Forall_zlookup (P : Z -> Prop) (a : list Z) i :
  Forall P a -> 0 <= i < Z.of_nat (length a) -> P (a.[i]).
Proof.
  intros HP Hi. rewrite Forall_lookup in HP. apply (HP (Z.to_nat i)).
  apply list_lookup_lookup_total_lt. lia.
Qed.

Lemma length_insert_eq {A} (l : list A) i x n : length l = n -> length (<[i := x]> l) = n.
Proof. by rewrite length_insert. Qed.

#[export] Hint Resolve Forall_insert length_insert_eq : chip8.
#[export] Hint Rewrite @length_insert : chip8_len.

(** ** Reasoning about [c_for] *)

Section Loops.
Context {St : Type} (body : Z -> St -> result (flow St)).

Lemma c_for_S n i s :
  c_for (S n) i body s =
  (r ← body i s; match r with Continue s' => c_for n (i + 1) body s' | Break s' => Ok s' end).
Proof. reflexivity. Qed.

(** Invariant rule: an invariant of every iteration of the body holds at
    the end of the loop. *)
Lemma c_for_inv (P : St -> Prop) n i s s' :
  (∀ j t r, P t -> body j t = Ok r -> P (flow_state r)) ->
  P s -> c_for n i body s = Ok s' -> P s'.
Proof.
  intros Hb. revert i s. induction n as [|n IH]; intros i s Hs H; cbn [c_for] in H.
  - by simplify_eq.
  - inv_result. destruct a as [t|t]; specialize (Hb _ _ _ Hs Ha); simpl in Hb.
    + exact (IH _ _ Hb H).
    + by simplify_eq.
Qed.

(** Progress rule: a body that never faults on the invariant makes the
    loop return. *)
Lemma c_for_progress (P : St -> Prop) n i s :
  (∀ j t, P t -> ∃ r, body j t = Ok r ∧ P (flow_state r)) ->
  P s -> ∃ s', c_for n i body s = Ok s' ∧ P s'.
Proof.
  intros Hb. revert i s. induction n as [|n IH]; intros i s Hs; simpl; [eauto|].
  destruct (Hb i s Hs) as ([t|t] & -> & Ht); simpl; eauto.
Qed.
End Loops.

(** ** Bitwise operations on bytes *)

Lemma is_u8_shiftr z : is_u8 z <-> 0 <= z ∧ Z.shiftr z 8 = 0.
Proof.
  rewrite Z.shiftr_div_pow2 by lia. unfold is_u8. change (2 ^ 8) with 256.
  split; intros; [split; [lia|apply Z.div_small; lia]|].
  destruct H as [H0 H]. split; [lia|]. Z.to_euclidean_division_equations. lia.
Qed.

Lemma lor_u8 a b : is_u8 a -> is_u8 b -> is_u8 (Z.lor a b).
Proof.
  rewrite !is_u8_shiftr, Z.shiftr_lor. intros [? ->] [? ->].
  split; [apply Z.lor_nonneg; lia|done].
Qed.

Lemma land_u8_u8 a b : is_u8 a -> is_u8 b -> is_u8 (Z.land a b).
Proof.
  rewrite !is_u8_shiftr, Z.shiftr_land. intros [? ->] [? ->].
  split; [apply Z.land_nonneg; lia|done].
Qed.

Lemma lxor_u8 a b : is_u8 a -> is_u8 b -> is_u8 (Z.lxor a b).
Proof.
  rewrite !is_u8_shiftr, Z.shiftr_lxor. intros [? ->] [? ->].
  split; [apply Z.lxor_nonneg; lia|done].
Qed.

#[export] Hint Resolve lor_u8 land_u8_u8 lxor_u8 : chip8.

(** ** Case analysis on the tests of C code *)

(** Turn the boolean comparisons of a goal into [Prop] cases for [lia]. *)
Ltac zbool_cases :=
  repeat match goal with
  | |- context [?a >? ?b] => rewrite (Z.gtb_ltb a b)
  | |- context [?a >=? ?b] => rewrite (Z.geb_leb a b)
  | |- context [?a <? ?b] => destruct (Z.ltb_spec a b)
  | |- context [?a <=? ?b] => destruct (Z.leb_spec a b)
  | |- context [?a =? ?b] => destruct (Z.eqb_spec a b)
  end.

(** Cases of a [match] on a [Z] literal that falls through to a default:
    split [Zpos] until every literal branch is resolved. *)
Ltac pos_literal_cases p :=
  repeat (destruct p as [p|p|]; try reflexivity).
Ltac z_literal_cases z :=
  let p := fresh "p" in
  destruct z as [|p|p]; try reflexivity; try (pos_literal_cases p).

(** [x & 1] and [(x & 0x80) >> 7] as arithmetic. *)
Lemma land_1 a : Z.land a 1 = a mod 2.
Proof. apply (land_low_bits a 1). lia. Qed.

Lemma bit7_u8 a : is_u8 a -> Z.shiftr (Z.land a 128) 7 = a / 128.
Proof.
  intros Ha. rewrite Z.shiftr_land. change (Z.shiftr 128 7) with 1.
  rewrite land_1, Z.shiftr_div_pow2 by lia. change (2 ^ 7) with 128. zlia.
Qed.

(** Close a decidable goal about closed terms by evaluation. *)
Ltac decide_closed := apply (bool_decide_unpack _); vm_compute; exact Logic.I.

(** ** Bits of masks *)

Lemma lt_pow2_shiftr w z : 0 <= w -> (0 <= z < 2 ^ w <-> 0 <= z ∧ Z.shiftr z w = 0).
Proof.
  intros Hw. rewrite Z.shiftr_div_pow2 by lia. pose proof (Z.pow_pos_nonneg 2 w) as Hp.
  split; intros [H0 H1]; split; try lia.
  - apply Z.div_small. lia.
  - assert (z < 2 ^ w ∨ 2 ^ w <= z) as [|Hge] by lia; [done|].
    pose proof (Z.div_le_mono _ _ (2 ^ w) ltac:(lia) Hge). rewrite Z.div_same in *; lia.
Qed.

Lemma lxor_lt_pow2 w a b : 0 <= w -> 0 <= a < 2 ^ w -> 0 <= b < 2 ^ w -> 0 <= Z.lxor a b < 2 ^ w.
Proof.
  intros Hw. rewrite !lt_pow2_shiftr, Z.shiftr_lxor by done. intros [? ->] [? ->].
  split; [apply Z.lxor_nonneg; lia|done].
Qed.

Lemma lor_lt_pow2 w a b : 0 <= w -> 0 <= a < 2 ^ w -> 0 <= b < 2 ^ w -> 0 <= Z.lor a b < 2 ^ w.
Proof.
  intros Hw. rewrite !lt_pow2_shiftr, Z.shiftr_lor by done. intros [? ->] [? ->].
  split; [apply Z.lor_nonneg; lia|done].
Qed.

(** A value below [2^w] has no bit at or above [w], and conversely. *)
Lemma lt_pow2_testbit w z :
  0 <= w -> 0 <= z -> (z < 2 ^ w <-> ∀ p, w <= p -> Z.testbit z p = false).
Proof.
  intros Hw Hz. split.
  - intros Hlt p Hp. destruct (Z.eq_dec z 0) as [->|]; [apply Z.testbit_0_l|].
    apply Z.bits_above_log2; [lia|].
    assert (Z.log2 z < w) by (apply Z.log2_lt_pow2; lia). lia.
  - intros Hb. destruct (Z.lt_ge_cases z (2 ^ w)) as [|Hge]; [done|].
    exfalso. assert (0 < z) by (pose proof (Z.pow_pos_nonneg 2 w); lia).
    pose proof (Z.log2_le_mono _ _ Hge) as Hl. rewrite Z.log2_pow2 in Hl by lia.
    pose proof (Z.bit_log2 z ltac:(lia)) as Hbit. rewrite (Hb (Z.log2 z) Hl) in Hbit.
    discriminate Hbit.
Qed.

Lemma testbit_pow2 k p : 0 <= k -> 0 <= p -> Z.testbit (2 ^ k) p = bool_decide (p = k).
Proof.
  intros. rewrite Z.pow2_bits_eqb by lia. case_bool_decide; subst; [apply Z.eqb_refl|].
  apply Z.eqb_neq. lia.
Qed.

(** [x & 2^k] tests bit [k]. *)
Lemma land_pow2_nonzero x k : 0 <= k -> Z.land x (2 ^ k) ≠ 0 <-> Z.testbit x k = true.
Proof.
  intros Hk. split.
  - intros Hne. destruct (Z.testbit x k) eqn:E; [done|]. exfalso. apply Hne.
    apply Z.bits_inj'. intros p Hp. rewrite Z.land_spec, testbit_pow2, Z.bits_0 by lia.
    case_bool_decide; subst; [by rewrite E | apply andb_false_r].
  - intros Hb Heq. assert (Z.testbit (Z.land x (2 ^ k)) k = false) as Hf
      by (rewrite Heq; apply Z.testbit_0_l).
    rewrite Z.land_spec, testbit_pow2, Hb in Hf by lia. by rewrite bool_decide_true in Hf.
Qed.

(** [0x80 >> col] is the mask of bit [7 - col]. *)
Lemma shiftr_128 col : 0 <= col <= 7 -> Z.shiftr 128 col = 2 ^ (7 - col).
Proof.
  intros. rewrite Z.shiftr_div_pow2 by lia. change 128 with (2 ^ 7).
  rewrite <- Z.pow_sub_r by lia. reflexivity.
Qed.

Lemma shl_u32_1 s : 0 <= s < 32 -> shl_u32 1 s = Ok (2 ^ s).
Proof.
  intros. unfold shl_u32. rewrite decide_True by done. f_equal.
  rewrite Z.shiftl_1_l. apply u32_id. unfold is_u32.
  split; [apply Z.pow_nonneg; lia|]. change 4294967296 with (2 ^ 32).
  apply Z.pow_lt_mono_r; lia.
Qed.

Lemma shl_u32_out v s : ¬ (0 <= s < 32) -> shl_u32 v s = Fault (ShiftOutOfRange s).
Proof. intros. unfold shl_u32. by rewrite decide_False. Qed.

(** XOR with the union of two disjoint masks is XOR with one then the other. *)
Lemma lxor_lor_disjoint r a b :
  Z.land a b = 0 -> Z.lxor (Z.lxor r a) b = Z.lxor r (Z.lor a b).
Proof.
  intros Hd. rewrite Z.lxor_assoc. f_equal. apply Z.bits_inj'. intros p Hp.
  assert (Z.testbit (Z.land a b) p = false) as Hb by (rewrite Hd; apply Z.bits_0).
  rewrite Z.land_spec in Hb. rewrite Z.lxor_spec, Z.lor_spec.
  destruct (Z.testbit a p), (Z.testbit b p); done.
Qed.

Lemma land_lxor_disjoint r a b :
  Z.land a b = 0 -> Z.land (Z.lxor r a) b = Z.land r b.
Proof.
  intros Hd. apply Z.bits_inj'. intros p Hp.
  assert (Z.testbit (Z.land a b) p = false) as Hb by (rewrite Hd; apply Z.bits_0).
  rewrite Z.land_spec in Hb. rewrite !Z.land_spec, Z.lxor_spec.
  destruct (Z.testbit a p), (Z.testbit b p), (Z.testbit r p); done.
Qed.

Lemma land_lor_zero r a b :
  (Z.land r (Z.lor a b) =? 0) = (Z.land r a =? 0) && (Z.land r b =? 0).
Proof.
  rewrite Z.land_lor_distr_r. destruct (Z.eqb_spec (Z.lor (Z.land r a) (Z.land r b)) 0) as [H|H].
  - apply Z.lor_eq_0_iff in H as [-> ->]. done.
  - symmetry. apply andb_false_iff. destruct (Z.eqb_spec (Z.land r a) 0) as [Ha|]; [|by left].
    right. apply Z.eqb_neq. intros Hb. apply H. by rewrite Ha, Hb.
Qed.

(** A non-zero integer has a set bit. *)
Lemma nonzero_testbit z : z ≠ 0 -> ∃ p, 0 <= p ∧ Z.testbit z p = true.
Proof.
  intros Hne. destruct (Z.lt_ge_cases z 0) as [Hz|Hz].
  - exists (Z.log2 (Z.pred (- z)) + 1). pose proof (Z.log2_nonneg (Z.pred (- z))).
    split; [lia|]. apply Z.bits_above_log2_neg; lia.
  - exists (Z.log2 z). split; [apply Z.log2_nonneg|]. apply Z.bit_log2. lia.
Qed.

(** [a & b] is non-zero exactly when [a] and [b] share a bit. *)
Lemma land_nonzero_testbit a b :
  Z.land a b ≠ 0 <-> ∃ p, 0 <= p ∧ Z.testbit a p = true ∧ Z.testbit b p = true.
Proof.
  split.
  - intros Hne. destruct (nonzero_testbit _ Hne) as (p & Hp & Hb).
    rewrite Z.land_spec in Hb. apply andb_true_iff in Hb as [? ?]. eauto.
  - intros (p & Hp & Ha & Hb) Heq.
    assert (Z.testbit (Z.land a b) p = false) as Hf by (rewrite Heq; apply Z.testbit_0_l).
    rewrite Z.land_spec, Ha, Hb in Hf. discriminate.
Qed.
