(* ===== verification/Machine.v ===== *)
(** * The machine state: [chip8_t], [fontset] and [chip8_init]

    [chip8_t] of [src/chip8.h] as a record with the source's field names;
    every C array is a [list Z] whose length is the array's size, and every
    integer field a [Z] of its C width.  The setters below perform the
    implicit conversion of a C assignment to the field's type ([u8], [u16],
    [u32]); the checked accessors [mem_read], [mem_write], [stack_read],
    [stack_write] fault outside the array.  [wf] is the type invariant:
    the lengths and widths that the C types guarantee. *)

From S2P Require Import Prelude.

(** ** Constants of [src/chip8.h] *)
Definition MEMORY_SIZE : Z := 4096.
Definition DISPLAY_WIDTH : Z := 64.
Definition DISPLAY_HEIGHT : Z := 32.
Definition STACK_SIZE : Z := 16.
Definition NUM_REGISTERS : Z := 16.
Definition NUM_KEYS : Z := 16.
Definition FONTSET_SIZE : Z := 80.
Definition PROGRAM_START : Z := 0x200.

(** ** The state record *)
Record chip8_t := mk_chip8 {
  memory : list Z;        (** [uint8_t memory[MEMORY_SIZE]] *)
  V : list Z;             (** [uint8_t V[NUM_REGISTERS]] *)
  I : Z;                  (** [uint16_t I] *)
  pc : Z;                 (** [uint16_t pc] *)
  sp : Z;                 (** [uint8_t sp] *)
  stack : list Z;         (** [uint16_t stack[STACK_SIZE]] *)
  delay_timer : Z;        (** [uint8_t delay_timer] *)
  sound_timer : Z;        (** [uint8_t sound_timer] *)
  keypad : list Z;        (** [uint8_t keypad[NUM_KEYS]] *)
  display : list Z;       (** [uint32_t display[DISPLAY_HEIGHT]] *)
  draw_flag : bool        (** [bool draw_flag] *)
}.

(** ** Field assignment, with C's conversion to the field's type *)
Definition set_memory (c : chip8_t) (m : list Z) : chip8_t :=
  mk_chip8 m (V c) (I c) (pc c) (sp c) (stack c) (delay_timer c) (sound_timer c)
    (keypad c) (display c) (draw_flag c).
Definition set_V (c : chip8_t) (v : list Z) : chip8_t :=
  mk_chip8 (memory c) v (I c) (pc c) (sp c) (stack c) (delay_timer c) (sound_timer c)
    (keypad c) (display c) (draw_flag c).
Definition set_I (c : chip8_t) (i : Z) : chip8_t :=
  mk_chip8 (memory c) (V c) (u16 i) (pc c) (sp c) (stack c) (delay_timer c) (sound_timer c)
    (keypad c) (display c) (draw_flag c).
Definition set_pc (c : chip8_t) (p : Z) : chip8_t :=
  mk_chip8 (memory c) (V c) (I c) (u16 p) (sp c) (stack c) (delay_timer c) (sound_timer c)
    (keypad c) (display c) (draw_flag c).
Definition set_sp (c : chip8_t) (s : Z) : chip8_t :=
  mk_chip8 (memory c) (V c) (I c) (pc c) (u8 s) (stack c) (delay_timer c) (sound_timer c)
    (keypad c) (display c) (draw_flag c).
Definition set_stack (c : chip8_t) (st : list Z) : chip8_t :=
  mk_chip8 (memory c) (V c) (I c) (pc c) (sp c) st (delay_timer c) (sound_timer c)
    (keypad c) (display c) (draw_flag c).
Definition set_delay_timer (c : chip8_t) (t : Z) : chip8_t :=
  mk_chip8 (memory c) (V c) (I c) (pc c) (sp c) (stack c) (u8 t) (sound_timer c)
    (keypad c) (display c) (draw_flag c).
Definition set_sound_timer (c : chip8_t) (t : Z) : chip8_t :=
  mk_chip8 (memory c) (V c) (I c) (pc c) (sp c) (stack c) (delay_timer c) (u8 t)
    (keypad c) (display c) (draw_flag c).
Definition set_keypad (c : chip8_t) (k : list Z) : chip8_t :=
  mk_chip8 (memory c) (V c) (I c) (pc c) (sp c) (stack c) (delay_timer c) (sound_timer c)
    k (display c) (draw_flag c).
Definition set_display (c : chip8_t) (d : list Z) : chip8_t :=
  mk_chip8 (memory c) (V c) (I c) (pc c) (sp c) (stack c) (delay_timer c) (sound_timer c)
    (keypad c) d (draw_flag c).
Definition set_draw_flag (c : chip8_t) (b : bool) : chip8_t :=
  mk_chip8 (memory c) (V c) (I c) (pc c) (sp c) (stack c) (delay_timer c) (sound_timer c)
    (keypad c) (display c) b.

(** The flag register [V[0xF]]. *)
Definition VF : Z := 0xF.

(** [chip8->V[x]] and [chip8->V[x] = v] for a register index [x] taken
    from a 4-bit opcode field (always in range). *)
Definition reg (c : chip8_t) (x : Z) : Z := (V c).[x].
Definition set_reg (c : chip8_t) (x v : Z) : chip8_t := set_V c ((V c).[x := u8 v]).

(** [chip8->display[py]] and [chip8->display[py] = v] for a row index
    [py < DISPLAY_HEIGHT] guaranteed by the caller's guard. *)
Definition row_of (c : chip8_t) (py : Z) : Z := (display c).[py].
Definition set_row (c : chip8_t) (py v : Z) : chip8_t := set_display c ((display c).[py := u32 v]).

(** [chip8->memory[a]] and [chip8->memory[a] = v]: undefined outside
    [[0, MEMORY_SIZE)]. *)
Definition mem_read (c : chip8_t) (a : Z) : result Z :=
  arr_read MemoryOutOfBounds (memory c) a.
Definition mem_write (c : chip8_t) (a v : Z) : result chip8_t :=
  m ← arr_write MemoryOutOfBounds (memory c) a (u8 v); mret (set_memory c m).

(** [chip8->stack[i]] and [chip8->stack[i] = v]: undefined outside
    [[0, STACK_SIZE)]. *)
Definition stack_read (c : chip8_t) (i : Z) : result Z :=
  arr_read StackOutOfBounds (stack c) i.
Definition stack_write (c : chip8_t) (i v : Z) : result chip8_t :=
  st ← arr_write StackOutOfBounds (stack c) i (u16 v); mret (set_stack c st).

(** [chip8->keypad[i] = v]: undefined outside [[0, NUM_KEYS)]. *)
Definition keypad_write (c : chip8_t) (i v : Z) : result chip8_t :=
  k ← arr_write KeypadOutOfBounds (keypad c) i (u8 v); mret (set_keypad c k).

(** ** Initialisation, [chip8_init] (chip8.c:26-31) *)

Definition fontset : list Z :=
  [0xF0; 0x90; 0x90; 0x90; 0xF0;
   0x20; 0x60; 0x20; 0x20; 0x70;
   0xF0; 0x10; 0xF0; 0x80; 0xF0;
   0xF0; 0x10; 0xF0; 0x10; 0xF0;
   0x90; 0x90; 0xF0; 0x10; 0x10;
   0xF0; 0x80; 0xF0; 0x10; 0xF0;
   0xF0; 0x80; 0xF0; 0x90; 0xF0;
   0xF0; 0x10; 0x20; 0x40; 0x40;
   0xF0; 0x90; 0xF0; 0x90; 0xF0;
   0xF0; 0x90; 0xF0; 0x10; 0xF0;
   0xF0; 0x90; 0xF0; 0x90; 0x90;
   0xE0; 0x90; 0xE0; 0x90; 0xE0;
   0xF0; 0x80; 0x80; 0x80; 0xF0;
   0xE0; 0x90; 0x90; 0x90; 0xE0;
   0xF0; 0x80; 0xF0; 0x80; 0xF0;
   0xF0; 0x80; 0xF0; 0x80; 0x80].

(** [memset(chip8, 0, sizeof(chip8_t))]: every field zero. *)
Definition chip8_zeroed : chip8_t :=
  mk_chip8 (replicate (Z.to_nat MEMORY_SIZE) 0) (replicate (Z.to_nat NUM_REGISTERS) 0)
    0 0 0 (replicate (Z.to_nat STACK_SIZE) 0) 0 0 (replicate (Z.to_nat NUM_KEYS) 0)
    (replicate (Z.to_nat DISPLAY_HEIGHT) 0) false.

(** [memcpy(dst, src, n)] into the start of [dst]. *)
Definition memcpy_prefix (dst src : list Z) : list Z := src ++ drop (length src) dst.

(** The whole struct is overwritten, so the result does not depend on the
    previous state; [srand] seeds the generator that the model takes as an
    input of [chip8_cycle]. *)
Definition chip8_init : chip8_t :=
  let c := chip8_zeroed in
  let c := set_memory c (memcpy_prefix (memory c) fontset) in
  set_pc c PROGRAM_START.

(** [if (hit) chip8->V[0xF] = 1;]: the collision flag update of a draw. *)
Definition vf_update (c : chip8_t) (hit : bool) : chip8_t := if hit then set_reg c VF 1 else c.

(** ** The type invariant *)
Record wf (c : chip8_t) : Prop := {
  wf_memory_len : length (memory c) = Z.to_nat MEMORY_SIZE;
  wf_memory : Forall is_u8 (memory c);
  wf_V_len : length (V c) = Z.to_nat NUM_REGISTERS;
  wf_V : Forall is_u8 (V c);
  wf_I : is_u16 (I c);
  wf_pc : is_u16 (pc c);
  wf_sp : is_u8 (sp c);
  wf_stack_len : length (stack c) = Z.to_nat STACK_SIZE;
  wf_stack : Forall is_u16 (stack c);
  wf_delay : is_u8 (delay_timer c);
  wf_sound : is_u8 (sound_timer c);
  wf_keypad_len : length (keypad c) = Z.to_nat NUM_KEYS;
  wf_keypad : Forall is_u8 (keypad c);
  wf_display_len : length (display c) = Z.to_nat DISPLAY_HEIGHT;
  wf_display : Forall is_u32 (display c)
}.

#[export] Instance wf_dec c : Decision (wf c).
Proof.
  refine (match decide (
    (length (memory c) = Z.to_nat MEMORY_SIZE ∧ Forall is_u8 (memory c)) ∧
    (length (V c) = Z.to_nat NUM_REGISTERS ∧ Forall is_u8 (V c)) ∧
    (is_u16 (I c) ∧ is_u16 (pc c) ∧ is_u8 (sp c)) ∧
    (length (stack c) = Z.to_nat STACK_SIZE ∧ Forall is_u16 (stack c)) ∧
    (is_u8 (delay_timer c) ∧ is_u8 (sound_timer c)) ∧
    (length (keypad c) = Z.to_nat NUM_KEYS ∧ Forall is_u8 (keypad c)) ∧
    (length (display c) = Z.to_nat DISPLAY_HEIGHT ∧ Forall is_u32 (display c))) with
    | left H => left _ | right H => right _ end);
  [constructor; tauto | intros Hw; apply H; destruct Hw; tauto].
Defined.

(** ** Accessors and the invariant *)

(** Split [wf] into its fields, rebuild it for the updated record and close
    each field with the width lemmas. *)
Ltac wf_rebuild H :=
  destruct H; constructor; cbn [memory V I pc sp stack delay_timer sound_timer
    keypad display draw_flag set_memory set_V set_I set_pc set_sp set_stack
    set_delay_timer set_sound_timer set_keypad set_display set_draw_flag];
  eauto with chip8.

Section Invariant.
Context (c : chip8_t) (Hwf : wf c).

Lemma wf_set_reg x v : wf (set_reg c x v).
Proof. unfold set_reg. wf_rebuild Hwf. Qed.
Lemma wf_set_I v : wf (set_I c v).
Proof. wf_rebuild Hwf. Qed.
Lemma wf_set_pc v : wf (set_pc c v).
Proof. wf_rebuild Hwf. Qed.
Lemma wf_set_sp v : wf (set_sp c v).
Proof. wf_rebuild Hwf. Qed.
Lemma wf_set_delay_timer v : wf (set_delay_timer c v).
Proof. wf_rebuild Hwf. Qed.
Lemma wf_set_sound_timer v : wf (set_sound_timer c v).
Proof. wf_rebuild Hwf. Qed.
Lemma wf_set_draw_flag b : wf (set_draw_flag c b).
Proof. wf_rebuild Hwf. Qed.

Lemma wf_mem_write a v c' : mem_write c a v = Ok c' -> wf c'.
Proof.
  unfold mem_write. intros H. inv_result.
  apply arr_write_Ok_inv in Ha as [_ ->]. subst. wf_rebuild Hwf.
Qed.

Lemma wf_stack_write i v c' : stack_write c i v = Ok c' -> wf c'.
Proof.
  unfold stack_write. intros H. inv_result.
  apply arr_write_Ok_inv in Ha as [_ ->]. subst. wf_rebuild Hwf.
Qed.

Lemma reg_u8 x : 0 <= x < NUM_REGISTERS -> is_u8 (reg c x).
Proof.
  intros. unfold reg. apply Forall_zlookup; [apply Hwf|]. rewrite (wf_V_len _ Hwf). unfold NUM_REGISTERS in *. lia.
Qed.

Lemma mem_read_u8 a v : mem_read c a = Ok v -> is_u8 v.
Proof.
  unfold mem_read. intros H. apply arr_read_Ok_inv in H as [Ha ->].
  apply Forall_zlookup; [apply Hwf|done].
Qed.

Lemma mem_read_in a :
  0 <= a < MEMORY_SIZE -> mem_read c a = Ok ((memory c).[a]).
Proof. intros. apply arr_read_in. rewrite (wf_memory_len _ Hwf). unfold MEMORY_SIZE in *. lia. Qed.

Lemma mem_read_out a :
  ¬ (0 <= a < MEMORY_SIZE) -> mem_read c a = Fault (MemoryOutOfBounds a).
Proof. intros. apply arr_read_out. rewrite (wf_memory_len _ Hwf). unfold MEMORY_SIZE in *. lia. Qed.

Lemma mem_write_in a v :
  0 <= a < MEMORY_SIZE -> mem_write c a v = Ok (set_memory c ((memory c).[a := u8 v])).
Proof.
  intros. unfold mem_write. rewrite arr_write_in; [done|].
  rewrite (wf_memory_len _ Hwf). unfold MEMORY_SIZE in *. lia.
Qed.

Lemma mem_write_out a v :
  ¬ (0 <= a < MEMORY_SIZE) -> mem_write c a v = Fault (MemoryOutOfBounds a).
Proof.
  intros. unfold mem_write. rewrite arr_write_out; [done|].
  rewrite (wf_memory_len _ Hwf). unfold MEMORY_SIZE in *. lia.
Qed.
Lemma stack_read_in i :
  0 <= i < STACK_SIZE -> stack_read c i = Ok ((stack c).[i]).
Proof. intros. apply arr_read_in. rewrite (wf_stack_len _ Hwf). unfold STACK_SIZE in *. lia. Qed.

Lemma stack_read_out i :
  ¬ (0 <= i < STACK_SIZE) -> stack_read c i = Fault (StackOutOfBounds i).
Proof. intros. apply arr_read_out. rewrite (wf_stack_len _ Hwf). unfold STACK_SIZE in *. lia. Qed.

Lemma stack_write_in i v :
  0 <= i < STACK_SIZE -> stack_write c i v = Ok (set_stack c ((stack c).[i := u16 v])).
Proof.
  intros. unfold stack_write. rewrite arr_write_in; [done|].
  rewrite (wf_stack_len _ Hwf). unfold STACK_SIZE in *. lia.
Qed.

Lemma keypad_write_in i v :
  0 <= i < NUM_KEYS -> keypad_write c i v = Ok (set_keypad c ((keypad c).[i := u8 v])).
Proof.
  intros. unfold keypad_write. rewrite arr_write_in; [done|].
  rewrite (wf_keypad_len _ Hwf). unfold NUM_KEYS in *. lia.
Qed.

Lemma keypad_write_out i v :
  ¬ (0 <= i < NUM_KEYS) -> keypad_write c i v = Fault (KeypadOutOfBounds i).
Proof.
  intros. unfold keypad_write. rewrite arr_write_out; [done|].
  rewrite (wf_keypad_len _ Hwf). unfold NUM_KEYS in *. lia.
Qed.

Lemma stack_write_out i v :
  ¬ (0 <= i < STACK_SIZE) -> stack_write c i v = Fault (StackOutOfBounds i).
Proof.
  intros. unfold stack_write. rewrite arr_write_out; [done|].
  rewrite (wf_stack_len _ Hwf). unfold STACK_SIZE in *. lia.
Qed.
End Invariant.

#[export] Hint Resolve wf_set_reg wf_set_I wf_set_pc wf_set_sp wf_set_delay_timer
  wf_set_sound_timer wf_set_draw_flag reg_u8 : chip8.

(** [chip8_init] establishes the type invariant. *)
Lemma chip8_init_wf : wf chip8_init.
Proof. apply (bool_decide_unpack _). vm_compute. exact Logic.I. Qed.

(** The initial memory is the glyph table followed by zeros. *)
Lemma chip8_init_memory :
  memory chip8_init = fontset ++ replicate (Z.to_nat (MEMORY_SIZE - FONTSET_SIZE)) 0.
Proof. vm_compute. reflexivity. Qed.

(** ** The register file *)

Lemma reg_set_reg_eq c x v :
  wf c -> 0 <= x < NUM_REGISTERS -> reg (set_reg c x v) x = u8 v.
Proof.
  intros Hwf Hx. unfold reg, set_reg; cbn. apply zlookup_insert_eq.
  rewrite (wf_V_len _ Hwf). unfold NUM_REGISTERS in *. lia.
Qed.

Lemma reg_set_reg_ne c x r v :
  0 <= x -> 0 <= r -> x ≠ r -> reg (set_reg c x v) r = reg c r.
Proof. intros. unfold reg, set_reg; cbn. by apply zlookup_insert_ne. Qed.

(** Rewrite register reads through register writes, only where the side
    conditions (index in range, indices distinct) are discharged. *)
Ltac simp_reg :=
  repeat first
    [ rewrite reg_set_reg_eq by solve [eauto with chip8 | unfold NUM_REGISTERS in *; lia]
    | rewrite reg_set_reg_ne by solve [unfold NUM_REGISTERS in *; lia] ].

(** Two register files that agree on every register are equal, for
    well-formed states. *)
Lemma V_ext c c' :
  length (V c) = length (V c') -> (∀ r, 0 <= r < Z.of_nat (length (V c)) -> reg c r = reg c' r) ->
  V c = V c'.
Proof.
  intros Hlen Hr. apply list_eq_same_length with (length (V c)); [done|done|].
  intros i a b Hi Ha Hb. specialize (Hr (Z.of_nat i) ltac:(lia)).
  unfold reg in Hr. rewrite Nat2Z.id in Hr.
  apply list_lookup_total_correct in Ha, Hb. congruence.
Qed.

(** Record that every register read in range holds a byte. *)
Ltac reg_facts :=
  repeat match goal with
  | Hw : wf ?c, H : 0 <= ?r < NUM_REGISTERS |- _ =>
      lazymatch goal with
      | _ : is_u8 (reg c r) |- _ => fail
      | _ => pose proof (reg_u8 c Hw r H)
      end
  end;
  repeat match goal with
  | Hw : wf ?c |- _ =>
      lazymatch goal with
      | _ : is_u8 (reg c 15) |- _ => fail
      | _ => pose proof (reg_u8 c Hw 15 ltac:(unfold NUM_REGISTERS; lia))
      end
  end.

(** ** Framebuffer rows *)

Lemma row_of_set_reg c x v py : row_of (set_reg c x v) py = row_of c py.
Proof. reflexivity. Qed.

Lemma set_row_set_reg c x v py w : set_row (set_reg c x v) py w = set_reg (set_row c py w) x v.
Proof. reflexivity. Qed.

Lemma set_row_set_row c py v w : set_row (set_row c py v) py w = set_row c py w.
Proof. unfold set_row, set_display; cbn. by rewrite list_insert_insert_eq. Qed.

Lemma set_reg_set_reg c x v w : set_reg (set_reg c x v) x w = set_reg c x w.
Proof. unfold set_reg, set_V; cbn. by rewrite list_insert_insert_eq. Qed.

Section Rows.
Context (c : chip8_t) (Hwf : wf c) (py : Z) (Hpy : 0 <= py < DISPLAY_HEIGHT).

Lemma py_in_display : (Z.to_nat py < length (display c))%nat.
Proof. rewrite (wf_display_len _ Hwf). unfold DISPLAY_HEIGHT in *. lia. Qed.

Lemma row_u32 : is_u32 (row_of c py).
Proof.
  unfold row_of. apply Forall_zlookup; [apply Hwf|]. rewrite (wf_display_len _ Hwf). unfold DISPLAY_HEIGHT in *. lia.
Qed.

Lemma set_row_id : set_row c py (row_of c py) = c.
Proof.
  unfold set_row, set_display, row_of. rewrite u32_id by apply row_u32.
  rewrite list_insert_id by (apply list_lookup_lookup_total_lt, py_in_display). by destruct c.
Qed.

Lemma row_of_set_row_eq v : row_of (set_row c py v) py = u32 v.
Proof. unfold row_of, set_row; cbn. apply zlookup_insert_eq. pose proof py_in_display. lia. Qed.

(** Rows are [uint32_t]: no pixel lies at column 32 or beyond. *)
Lemma row_testbit_lt p : Z.testbit (row_of c py) p = true -> p < 32.
Proof.
  intros Hb. pose proof row_u32 as Hu. unfold is_u32 in Hu. change 4294967296 with (2 ^ 32) in Hu.
  destruct (Z.lt_ge_cases p 32) as [|Hp]; [done|].
  rewrite (proj1 (lt_pow2_testbit 32 (row_of c py) ltac:(lia) ltac:(lia)) ltac:(lia) p Hp) in Hb.
  discriminate.
Qed.

Lemma wf_set_row v : wf (set_row c py v).
Proof. unfold set_row. wf_rebuild Hwf. Qed.
End Rows.

Lemma row_of_set_row_ne c py q v :
  0 <= py -> 0 <= q -> py ≠ q -> row_of (set_row c py v) q = row_of c q.
Proof. intros. unfold row_of, set_row; cbn. by apply zlookup_insert_ne. Qed.

#[export] Hint Resolve wf_set_row : chip8.

(** Two well-formed framebuffers with the same rows are equal. *)
Lemma display_ext c d :
  wf c -> wf d -> (∀ py, 0 <= py < DISPLAY_HEIGHT -> row_of c py = row_of d py) ->
  display c = display d.
Proof.
  intros Hc Hd Hr. apply list_eq_same_length with (Z.to_nat DISPLAY_HEIGHT);
    [by apply wf_display_len|by apply wf_display_len|].
  intros i a b Hi Ha Hb. specialize (Hr (Z.of_nat i) ltac:(unfold DISPLAY_HEIGHT in *; lia)).
  unfold row_of in Hr. rewrite Nat2Z.id in Hr.
  apply list_lookup_total_correct in Ha, Hb. congruence.
Qed.

Lemma vf_update_vf_update c h1 h2 : vf_update (vf_update c h1) h2 = vf_update c (h1 || h2).
Proof. destruct h1, h2; cbn; rewrite ?set_reg_set_reg; reflexivity. Qed.

Lemma set_row_vf_update c h py v : set_row (vf_update c h) py v = vf_update (set_row c py v) h.
Proof. by destruct h. Qed.

Lemma row_of_vf_update c h py : row_of (vf_update c h) py = row_of c py.
Proof. by destruct h. Qed.

Lemma wf_vf_update c h : wf c -> wf (vf_update c h).
Proof. destruct h; cbn; eauto with chip8. Qed.

#[export] Hint Resolve wf_vf_update : chip8.

Lemma set_memory_set_memory c m1 m2 : set_memory (set_memory c m1) m2 = set_memory c m2.
Proof. reflexivity. Qed.
Lemma set_memory_id c : set_memory c (memory c) = c.
Proof. by destruct c. Qed.
Lemma set_V_id c : set_V c (V c) = c.
Proof. by destruct c. Qed.
Lemma set_V_set_V c v1 v2 : set_V (set_V c v1) v2 = set_V c v2.
Proof. reflexivity. Qed.

(** A memory byte read in range. *)
Lemma mem_u8 c a : wf c -> 0 <= a < MEMORY_SIZE -> is_u8 ((memory c).[a]).
Proof.
  intros Hwf Ha. apply Forall_zlookup; [apply Hwf|]. rewrite (wf_memory_len _ Hwf).
  unfold MEMORY_SIZE in *. lia.
Qed.

Lemma reg_set_memory c m r : reg (set_memory c m) r = reg c r.
Proof. reflexivity. Qed.
Lemma I_set_memory c m : I (set_memory c m) = I c.
Proof. reflexivity. Qed.

(** A write into memory in range, read back. *)
Lemma mem_lookup_write c a v b :
  wf c -> 0 <= a < MEMORY_SIZE -> 0 <= b ->
  ((memory c).[a := u8 v]).[b] = if decide (b = a) then u8 v else (memory c).[b].
Proof.
  intros Hwf Ha Hb. case_decide; subst.
  - apply zlookup_insert_eq. rewrite (wf_memory_len _ Hwf). unfold MEMORY_SIZE in *. lia.
  - apply zlookup_insert_ne; lia.
Qed.
