(* ===== verification/Loader.v ===== *)
(** * The ROM loader: [chip8_load_rom]

    [chip8_load_rom] (chip8.c:33-51) opens the file, takes its size with
    [fseek]/[ftell], refuses a file larger than [MEMORY_SIZE - PROGRAM_START]
    and otherwise [fread]s it to [memory[PROGRAM_START]].  The file system
    is abstracted to what [fopen] and [fread] observe: [None] when [fopen]
    fails, [Some bytes] with the file's bytes otherwise ([ftell] is then the
    length of [bytes]).  The function returns the C status ([-1] or [0])
    with the new state. *)

From S2P Require Import Prelude Machine.
From Stdlib Require Import Strings.Byte.

(** An [unsigned char] read from the file, as a [Z]. *)
Definition byte_val (b : byte) : Z := Z.of_N (Byte.to_N b).

(** [fread(&m[off], 1, length bs, file)]: the bytes of the file overwrite
    [m] from [off] on. *)
Definition fread_into (m : list Z) (off : Z) (bs : list byte) : list Z :=
  take (Z.to_nat off) m ++ map byte_val bs ++ drop (Z.to_nat off + length bs) m.

Definition chip8_load_rom (c : chip8_t) (file : option (list byte)) : Z * chip8_t :=
  match file with
  | None => (-1, c)
  | Some bytes =>
      let size := Z.of_nat (length bytes) in
      if decide (size > MEMORY_SIZE - PROGRAM_START) then (-1, c)
      else (0, set_memory c (fread_into (memory c) PROGRAM_START bytes))
  end.

(** [chip8_init(&chip8); chip8_load_rom(&chip8, argv[1]);] on a file that
    opens: the machine [main] starts from (used by the examples). *)
Definition boot (bs : list byte) : chip8_t := snd (chip8_load_rom chip8_init (Some bs)).

(** ** Reading back what [fread] wrote *)

Lemma byte_val_u8 b : is_u8 (byte_val b).
Proof. unfold byte_val, is_u8. pose proof (Byte.to_N_bounded b). lia. Qed.

Section Fread.
Context (m : list Z) (off : Z) (bs : list byte).
Context (Hoff : 0 <= off) (Hfit : off + Z.of_nat (length bs) <= Z.of_nat (length m)).

Lemma fread_into_length : length (fread_into m off bs) = length m.
Proof.
  unfold fread_into. rewrite !length_app, length_take, length_map, length_drop. lia.
Qed.

Lemma fread_into_in i b :
  0 <= i -> bs !! Z.to_nat i = Some b -> (fread_into m off bs).[off + i] = byte_val b.
Proof.
  intros Hi Hb. pose proof (lookup_lt_Some _ _ _ Hb). unfold fread_into.
  rewrite lookup_total_app_r by (rewrite length_take; lia). rewrite length_take.
  rewrite lookup_total_app_l by (rewrite length_map; lia).
  replace (Z.to_nat (off + i) - Nat.min (Z.to_nat off) (length m))%nat with (Z.to_nat i) by lia.
  rewrite list_lookup_total_alt, list_lookup_fmap, Hb. done.
Qed.

Lemma fread_into_out a :
  0 <= a -> ¬ (off <= a < off + Z.of_nat (length bs)) -> (fread_into m off bs).[a] = m.[a].
Proof.
  intros Ha Hout. unfold fread_into. destruct (decide (a < off)).
  - rewrite lookup_total_app_l by (rewrite length_take; lia). apply lookup_total_take_lt. lia.
  - rewrite lookup_total_app_r by (rewrite length_take; lia). rewrite length_take.
    rewrite lookup_total_app_r by (rewrite length_map; lia). rewrite length_map, lookup_total_drop.
    f_equal. lia.
Qed.

Lemma fread_into_u8 : Forall is_u8 m -> Forall is_u8 (fread_into m off bs).
Proof.
  intros Hm. unfold fread_into. apply Forall_app; split; [by apply Forall_take|].
  apply Forall_app; split; [|by apply Forall_drop]. apply Forall_map, Forall_forall.
  intros b _. apply byte_val_u8.
Qed.
End Fread.

Lemma chip8_load_rom_Some c bs :
  chip8_load_rom c (Some bs) =
  if decide (Z.of_nat (length bs) > MEMORY_SIZE - PROGRAM_START) then (-1, c)
  else (0, set_memory c (fread_into (memory c) PROGRAM_START bs)).
Proof. reflexivity. Qed.

Lemma fread_into_window m off bs :
  0 <= off -> off + Z.of_nat (length bs) <= Z.of_nat (length m) ->
  take (length bs) (drop (Z.to_nat off) (fread_into m off bs)) = map byte_val bs.
Proof.
  intros Hoff Hfit. unfold fread_into.
  rewrite drop_app_length' by (rewrite length_take; lia).
  rewrite take_app_length' by (rewrite length_map; lia). done.
Qed.

(** [chip8_load_rom] preserves the type invariant, whatever it returns. *)
Lemma wf_chip8_load_rom c file r c' : wf c -> chip8_load_rom c file = (r, c') -> wf c'.
Proof.
  intros Hwf H. destruct file as [bs|]; [rewrite chip8_load_rom_Some in H|cbn in H; by simplify_eq].
  case_decide as Hgt; simplify_eq; [done|].
  pose proof (wf_memory_len _ Hwf) as Hl. unfold MEMORY_SIZE, PROGRAM_START in *.
  destruct Hwf. constructor; cbn; try done.
  - rewrite fread_into_length; [done|lia|rewrite Hl; lia].
  - by apply fread_into_u8.
Qed.

(** C9. Status of [chip8_load_rom] (spec sections 4.1 and 8): the load
    succeeds (returns 0) exactly when the file opens and holds at most
    [4096 - 0x200 = 3584] bytes; otherwise it returns [-1] and the machine
    is left exactly as it was (no partial write). *)
Theorem chip8_load_rom_status c file :
  (fst (chip8_load_rom c file) = 0 <->
     ∃ bs, file = Some bs ∧ Z.of_nat (length bs) <= MEMORY_SIZE - PROGRAM_START) ∧
  (fst (chip8_load_rom c file) ≠ 0 -> chip8_load_rom c file = (-1, c)).
Proof.
  destruct file as [bs|]; cbn; [case_decide as Hgt; cbn|].
  - split; [split; [done|] | done]. intros (b & Hb & Hle). simplify_eq. lia.
  - split; [split; [eauto|done] | done].
  - split; [split; [done|] | done]. by intros (? & ? & _).
Qed.

(** C10. A successful load copies the file verbatim to [0x200] (reading
    back [length bs] bytes from [0x200] gives the file), leaves every
    other byte of memory, in particular the glyph table below [0x200],
    and every other field unchanged, and keeps the invariant [wf]. *)
Theorem chip8_load_rom_copy c bs :
  wf c -> Z.of_nat (length bs) <= MEMORY_SIZE - PROGRAM_START ->
  ∃ c', chip8_load_rom c (Some bs) = (0, c') ∧ wf c' ∧ set_memory c' (memory c) = c ∧
    take (length bs) (drop (Z.to_nat PROGRAM_START) (memory c')) = map byte_val bs ∧
    (∀ i b, bs !! i = Some b -> (memory c').[PROGRAM_START + Z.of_nat i] = byte_val b) ∧
    (∀ a, 0 <= a -> ¬ (PROGRAM_START <= a < PROGRAM_START + Z.of_nat (length bs)) ->
       (memory c').[a] = (memory c).[a]).
Proof.
  intros Hwf Hn. rewrite chip8_load_rom_Some, decide_False by lia.
  pose proof (wf_memory_len _ Hwf) as Hl. unfold MEMORY_SIZE, PROGRAM_START in *. eexists. split; [reflexivity|].
  assert (Hfit : 512 + Z.of_nat (length bs) <= Z.of_nat (length (memory c))) by (rewrite Hl; lia).
  split; [|split; [by destruct c|split; [|split]]].
  - eapply (wf_chip8_load_rom c (Some bs)); [exact Hwf|]. rewrite chip8_load_rom_Some, decide_False by (unfold MEMORY_SIZE, PROGRAM_START; lia).
    reflexivity.
  - cbn. apply fread_into_window; first [exact Hfit | lia].
  - intros i b Hb. cbn. apply fread_into_in; [lia|done|lia|by rewrite Nat2Z.id].
  - intros a Ha Hout. cbn. apply fread_into_out; lia.
Qed.

(** C34. Initialisation then loading (spec sections 3 and 4.1): loading a
    program that fits into a freshly initialised machine succeeds, keeps
    the glyph table at [0x000]-[0x04F], and starts with [pc = 0x200], an
    empty stack, zero registers and timers, a blank screen and no key
    held. *)
Theorem chip8_init_load_rom bs :
  Z.of_nat (length bs) <= MEMORY_SIZE - PROGRAM_START ->
  ∃ c, chip8_load_rom chip8_init (Some bs) = (0, c) ∧ wf c ∧
    take (Z.to_nat FONTSET_SIZE) (memory c) = fontset ∧ pc c = PROGRAM_START ∧ sp c = 0 ∧
    V c = replicate (Z.to_nat NUM_REGISTERS) 0 ∧ I c = 0 ∧ delay_timer c = 0 ∧ sound_timer c = 0 ∧
    display c = replicate (Z.to_nat DISPLAY_HEIGHT) 0 ∧ keypad c = replicate (Z.to_nat NUM_KEYS) 0.
Proof.
  intros Hn. rewrite chip8_load_rom_Some, decide_False by lia. eexists. split; [reflexivity|].
  split; [eapply (wf_chip8_load_rom _ (Some bs)); [apply chip8_init_wf|];
          rewrite chip8_load_rom_Some, decide_False by lia; reflexivity|].
  split; [|by repeat split].
  cbn [memory set_memory]. unfold fread_into. rewrite chip8_init_memory.
  rewrite take_app_le by decide_closed.
  rewrite take_take. change (Nat.min (Z.to_nat FONTSET_SIZE) (Z.to_nat PROGRAM_START)) with 80%nat.
  rewrite take_app_length'; [done|]. reflexivity.
Qed.

(** ** Witnesses *)

(** Spec section 8: a 3584-byte image loads, a 3585-byte image and a file
    that does not open do not, and leave the machine as it was. *)
Lemma chip8_load_rom_status_witness :
  fst (chip8_load_rom chip8_init (Some (repeat x00 3584))) = 0 ∧
  chip8_load_rom chip8_init (Some (repeat x00 3585)) = (-1, chip8_init) ∧
  chip8_load_rom chip8_init None = (-1, chip8_init).
Proof.
  split; [|split].
  - apply (proj2 (proj1 (chip8_load_rom_status chip8_init (Some (repeat x00 3584))))).
    eexists. split; [reflexivity|]. rewrite repeat_length. decide_closed.
  - apply (proj2 (chip8_load_rom_status chip8_init (Some (repeat x00 3585)))). decide_closed.
  - apply (proj2 (chip8_load_rom_status chip8_init None)). decide_closed.
Defined.

Lemma chip8_load_rom_copy_witness :
  ∃ c', chip8_load_rom chip8_init (Some [x12; x34]) = (0, c') ∧
    (memory c').[0x200] = 0x12 ∧ (memory c').[0x201] = 0x34 ∧ (memory c').[0x202] = 0.
Proof.
  destruct (chip8_load_rom_copy chip8_init [x12; x34] chip8_init_wf ltac:(decide_closed))
    as (c' & Hc' & _ & _ & _ & Hin & Hout).
  exists c'. split; [done|]. split; [|split].
  - apply (Hin 0%nat x12). reflexivity.
  - apply (Hin 1%nat x34). reflexivity.
  - rewrite Hout by (cbn; unfold PROGRAM_START; lia). reflexivity.
Defined.

Lemma chip8_init_load_rom_witness :
  ∃ c, chip8_load_rom chip8_init (Some [xa2; xf0]) = (0, c) ∧
    take 80 (memory c) = fontset ∧ pc c = 0x200.
Proof.
  destruct (chip8_init_load_rom [xa2; xf0] ltac:(decide_closed))
    as (c & Hc & _ & Hfont & Hpc & _). eauto.
Defined.
