(* ===== verification/Timers.v ===== *)
(** * Timers and input latch: [chip8_update_timers] and [chip8_set_key]

    [chip8_update_timers] (chip8.c:257-264) decrements each timer that is
    not zero; [chip8_set_key] (chip8.c:266-270) stores a key state when the
    key number is below [NUM_KEYS] and ignores it otherwise.  Both
    parameters of [chip8_set_key] are [uint8_t], so the arguments are
    converted on entry; the keypad write is checked like every array
    write of the model ([keypad_write]), so an unguarded write past
    [keypad[15]] would be a fault. *)

From S2P Require Import Prelude Machine.

Definition chip8_update_timers (c : chip8_t) : chip8_t :=
  let c := if decide (delay_timer c > 0) then set_delay_timer c (delay_timer c - 1) else c in
  if decide (sound_timer c > 0) then set_sound_timer c (sound_timer c - 1) else c.

Definition chip8_set_key (c : chip8_t) (key state : Z) : result chip8_t :=
  let key := u8 key in
  let state := u8 state in
  if decide (key < NUM_KEYS) then keypad_write c key state else Ok c.

(** [k] timer ticks. *)
Definition ticks (k : nat) (c : chip8_t) : chip8_t := Nat.iter k chip8_update_timers c.

(** ** One tick *)

Section Tick.
Context (c : chip8_t) (Hwf : wf c).

Lemma update_timers_eq :
  chip8_update_timers c =
  set_sound_timer (set_delay_timer c (Z.max 0 (delay_timer c - 1))) (Z.max 0 (sound_timer c - 1)).
Proof.
  pose proof (wf_delay _ Hwf). pose proof (wf_sound _ Hwf). unfold is_u8 in *.
  unfold chip8_update_timers. destruct c as [m v i p s st d snd k disp f]; cbn in *.
  unfold set_delay_timer, set_sound_timer; cbn.
  repeat case_decide; cbn in *; f_equal; rewrite ?Z.max_r, ?Z.max_l by lia; zlia.
Qed.

Lemma wf_update_timers : wf (chip8_update_timers c).
Proof. rewrite update_timers_eq. eauto with chip8. Qed.
End Tick.

#[export] Hint Resolve wf_update_timers : chip8.

Lemma ticks_S k c : ticks (S k) c = chip8_update_timers (ticks k c).
Proof. done. Qed.

Lemma wf_ticks k c : wf c -> wf (ticks k c).
Proof. intros Hwf. induction k as [|k IH]; [done|]. rewrite ticks_S. eauto with chip8. Qed.

(** A key event on a well-formed machine: the guard keeps the write in
    the keypad. *)
Lemma set_key_eq c key state :
  wf c ->
  chip8_set_key c key state =
  Ok (if decide (key mod 256 < NUM_KEYS) then set_keypad c ((keypad c).[key mod 256 := state mod 256])
      else c).
Proof.
  intros Hwf. unfold chip8_set_key, u8. pose proof (Z.mod_pos_bound key 256 ltac:(lia)).
  case_decide; [|done]. rewrite keypad_write_in by (done || lia). unfold u8. by rewrite Z.mod_mod by lia.
Qed.

Lemma wf_set_key c key state c' : wf c -> chip8_set_key c key state = Ok c' -> wf c'.
Proof.
  intros Hwf H. rewrite set_key_eq in H by done. injection H as <-. case_decide; [|done].
  wf_rebuild Hwf.
Qed.

#[export] Hint Resolve wf_ticks : chip8.

Lemma ticks_eq k c :
  wf c -> ticks k c = set_sound_timer (set_delay_timer c (Z.max 0 (delay_timer c - Z.of_nat k)))
                                      (Z.max 0 (sound_timer c - Z.of_nat k)).
Proof.
  intros Hwf. pose proof (wf_delay _ Hwf). pose proof (wf_sound _ Hwf). unfold is_u8 in *.
  induction k as [|k IH].
  - cbn. destruct c. unfold set_sound_timer, set_delay_timer. cbn in *. f_equal;
      rewrite Z.sub_0_r, Z.max_r by lia; symmetry; apply u8_id; unfold is_u8; lia.
  - rewrite ticks_S, (update_timers_eq (ticks k c) (wf_ticks k c Hwf)), IH.
    destruct c. unfold set_sound_timer, set_delay_timer. cbn in *. f_equal; zlia.
Qed.

(** One timer tick (spec section 4.4): each timer is decremented
    when it is above zero and stays at zero otherwise; nothing else
    changes. *)
Theorem chip8_update_timers_spec c :
  wf c ->
  delay_timer (chip8_update_timers c) = Z.max 0 (delay_timer c - 1) ∧
  sound_timer (chip8_update_timers c) = Z.max 0 (sound_timer c - 1) ∧
  set_sound_timer (set_delay_timer (chip8_update_timers c) (delay_timer c)) (sound_timer c) = c.
Proof.
  intros Hwf. pose proof (wf_delay _ Hwf). pose proof (wf_sound _ Hwf). unfold is_u8 in *.
  rewrite update_timers_eq by done. destruct c. unfold set_sound_timer, set_delay_timer. cbn in *.
  split; [zlia|split; [zlia|]]. f_equal; apply u8_id; unfold is_u8; lia.
Qed.

(** C35. No underflow (spec section 8): after [k] ticks each timer is
    [max 0 (t - k)]; in particular it never goes below zero, and the
    timers of a freshly initialised machine stay at zero. *)
Theorem ticks_saturate c k :
  wf c ->
  delay_timer (ticks k c) = Z.max 0 (delay_timer c - Z.of_nat k) ∧
  sound_timer (ticks k c) = Z.max 0 (sound_timer c - Z.of_nat k) ∧
  0 <= delay_timer (ticks k c) ∧ 0 <= sound_timer (ticks k c) ∧
  delay_timer (ticks k chip8_init) = 0.
Proof.
  intros Hwf. pose proof (wf_delay _ Hwf). pose proof (wf_sound _ Hwf). unfold is_u8 in *.
  rewrite !ticks_eq by (done || apply chip8_init_wf). cbn. repeat split; zlia.
Qed.

(** C36. The input latch (spec section 4.5): both parameters are
    [uint8_t], so the key number and the state are taken modulo 256 on
    entry.  A key number below 16 stores the state for that key and leaves
    the other keys and every other field unchanged; any other key number
    leaves the machine unchanged, and the guard is what keeps the write
    inside [keypad[16]]. *)
Theorem chip8_set_key_spec c key state :
  wf c ->
  (key mod 256 < NUM_KEYS ->
     ∃ c', chip8_set_key c key state = Ok c' ∧
     (∀ k, 0 <= k < NUM_KEYS -> (keypad c').[k] =
        if decide (k = key mod 256) then state mod 256 else (keypad c).[k]) ∧
     set_keypad c' (keypad c) = c) ∧
  (NUM_KEYS <= key mod 256 -> chip8_set_key c key state = Ok c).
Proof.
  intros Hwf. pose proof (wf_keypad_len _ Hwf). pose proof (Z.mod_pos_bound key 256 ltac:(lia)).
  rewrite set_key_eq by done. split; intros Hr.
  - rewrite decide_True by done. eexists. split; [reflexivity|]. split; [|by destruct c].
    intros k Hk'. cbn. case_decide as Heq.
    + subst. apply zlookup_insert_eq. rewrite H. unfold NUM_KEYS in *. lia.
    + apply zlookup_insert_ne; lia.
  - by rewrite decide_False by lia.
Qed.

(** ** Witnesses *)

Lemma chip8_update_timers_spec_witness :
  delay_timer (chip8_update_timers (set_delay_timer chip8_init 3)) = 2 ∧
  sound_timer (chip8_update_timers (set_delay_timer chip8_init 3)) = 0.
Proof.
  destruct (chip8_update_timers_spec (set_delay_timer chip8_init 3) ltac:(decide_closed))
    as (-> & -> & _). split; reflexivity.
Defined.

Lemma ticks_saturate_witness : delay_timer (ticks 5 (set_delay_timer chip8_init 3)) = 0.
Proof.
  rewrite (proj1 (ticks_saturate (set_delay_timer chip8_init 3) 5 ltac:(decide_closed))).
  reflexivity.
Defined.

Lemma chip8_set_key_spec_witness :
  (∃ c', chip8_set_key chip8_init 5 1 = Ok c' ∧ (keypad c').[5] = 1) ∧
  chip8_set_key chip8_init 16 1 = Ok chip8_init ∧
  (∃ c', chip8_set_key chip8_init 259 1 = Ok c' ∧ (keypad c').[3] = 1).
Proof.
  split; [|split].
  - destruct (proj1 (chip8_set_key_spec chip8_init 5 1 chip8_init_wf) ltac:(decide_closed))
      as (c' & Hc' & Hk & _).
    exists c'. split; [done|]. rewrite (Hk 5 ltac:(decide_closed)). reflexivity.
  - apply (proj2 (chip8_set_key_spec chip8_init 16 1 chip8_init_wf)). decide_closed.
  - destruct (proj1 (chip8_set_key_spec chip8_init 259 1 chip8_init_wf) ltac:(decide_closed))
      as (c' & Hc' & Hk & _).
    exists c'. split; [done|]. rewrite (Hk 3 ltac:(decide_closed)). reflexivity.
Defined.
