(* ===== verification/Alu.v ===== *)
(** * The arithmetic/logic family [8xy_]: [execute_arithmetic]

    [execute_arithmetic] (chip8.c:53-90) translated statement by statement:
    each C statement reads the registers as the previous statement left
    them, which matters when [x] or [y] is the flag register [VF].
    [alu_spec] is the table of spec section 4.2 as a function of the two
    operand values; [execute_arithmetic_refines] shows the code implements
    it whenever neither operand register is [VF], and the remaining
    theorems pin down what the code does when one is. *)

From S2P Require Import Prelude Machine.

Definition execute_arithmetic (c : chip8_t) (x y op : Z) : chip8_t :=
  match op with
  | 0x0 => set_reg c x (reg c y)
  | 0x1 => set_reg c x (Z.lor (reg c x) (reg c y))
  | 0x2 => set_reg c x (Z.land (reg c x) (reg c y))
  | 0x3 => set_reg c x (Z.lxor (reg c x) (reg c y))
  | 0x4 =>
      let sum := u16 (reg c x + reg c y) in
      let c := set_reg c VF (if sum >? 0xFF then 1 else 0) in
      set_reg c x (Z.land sum 0xFF)
  | 0x5 =>
      let c := set_reg c VF (if reg c x >=? reg c y then 1 else 0) in
      set_reg c x (reg c x - reg c y)
  | 0x6 =>
      let c := set_reg c VF (Z.land (reg c x) 0x1) in
      set_reg c x (Z.shiftr (reg c x) 1)
  | 0x7 =>
      let c := set_reg c VF (if reg c y >=? reg c x then 1 else 0) in
      set_reg c x (reg c y - reg c x)
  | 0xE =>
      let c := set_reg c VF (Z.shiftr (Z.land (reg c x) 0x80) 7) in
      set_reg c x (Z.shiftl (reg c x) 1)
  | _ => c
  end.

(** ** Abstract specification (spec section 4.2, arithmetic/logic family)

    For operands [a = Vx] and [b = Vy], the result stored in [Vx] and the
    flag stored in [VF] if the operation writes one. *)
Definition alu_spec (op a b : Z) : option (Z * option Z) :=
  match op with
  | 0x0 => Some (b, None)
  | 0x1 => Some (Z.lor a b, None)
  | 0x2 => Some (Z.land a b, None)
  | 0x3 => Some (Z.lxor a b, None)
  | 0x4 => Some ((a + b) mod 256, Some (if 255 <? a + b then 1 else 0))
  | 0x5 => Some ((a - b) mod 256, Some (if b <=? a then 1 else 0))
  | 0x6 => Some (a / 2, Some (a mod 2))
  | 0x7 => Some ((b - a) mod 256, Some (if a <=? b then 1 else 0))
  | 0xE => Some ((2 * a) mod 256, Some (a / 128))
  | _ => None
  end.

Definition alu_ops : list Z := [0x0; 0x1; 0x2; 0x3; 0x4; 0x5; 0x6; 0x7; 0xE].

(** A concrete machine for the witnesses: [V1 = 200], [V2 = 100], [VF = 3]. *)
Definition alu_demo : chip8_t := set_reg (set_reg (set_reg chip8_init 1 200) 2 100) VF 3.

(** ** Dispatch *)

Lemma execute_arithmetic_other c x y op : op ∉ alu_ops -> execute_arithmetic c x y op = c.
Proof.
  intros Hop. z_literal_cases op; exfalso; apply Hop; decide_closed.
Qed.

Lemma alu_spec_other op a b : op ∉ alu_ops -> alu_spec op a b = None.
Proof.
  intros Hop. z_literal_cases op; exfalso; apply Hop; decide_closed.
Qed.

(** Normalise the C expressions of [execute_arithmetic] on byte operands. *)
Ltac alu_arith :=
  try (rewrite u8_id by eauto with chip8; reflexivity);
  repeat first [rewrite land_u8 | rewrite land_1 | rewrite bit7_u8 by assumption
               | rewrite Z.shiftr_div_pow2 by lia | rewrite Z.shiftl_mul_pow2 by lia];
  change (2 ^ 1) with 2; zbool_cases; zlia.

(** [execute_arithmetic] only writes the register file. *)
Lemma execute_arithmetic_frame c x y op :
  set_V (execute_arithmetic c x y op) (V c) = c.
Proof.
  destruct (decide (op ∈ alu_ops)) as [Hop|Hop].
  - unfold alu_ops in Hop. repeat (rewrite elem_of_cons in Hop; destruct Hop as [->|Hop]);
      [..|by apply elem_of_nil in Hop]; by destruct c.
  - rewrite execute_arithmetic_other by done. by destruct c.
Qed.

(** Enumerate the nine operations of the family. *)
Ltac alu_op_cases Hop :=
  unfold alu_ops in Hop;
  repeat (rewrite elem_of_cons in Hop; destruct Hop as [->|Hop]);
  [..|by apply elem_of_nil in Hop].

(** C1. Refinement of the arithmetic/logic family: when neither [x] nor
    [y] is the flag register, [execute_arithmetic] stores the result of
    [alu_spec] in [Vx], the flag of [alu_spec] (if the operation has one)
    in [VF], and leaves every other register unchanged; an operation outside
    the table changes nothing. *)
Theorem execute_arithmetic_refines c x y op :
  wf c -> 0 <= x < NUM_REGISTERS -> 0 <= y < NUM_REGISTERS -> x ≠ VF -> y ≠ VF ->
  let c' := execute_arithmetic c x y op in
  match alu_spec op (reg c x) (reg c y) with
  | Some (r, fl) =>
      reg c' x = r ∧ reg c' VF = default (reg c VF) fl ∧
      (∀ q, 0 <= q -> q ≠ x -> q ≠ VF -> reg c' q = reg c q)
  | None => c' = c
  end.
Proof.
  intros Hwf Hx Hy HxF HyF c'. subst c'.
  pose proof (reg_u8 c Hwf x Hx). pose proof (reg_u8 c Hwf y Hy).
  destruct (decide (op ∈ alu_ops)) as [Hop|Hop];
    [|by rewrite alu_spec_other, execute_arithmetic_other].
  alu_op_cases Hop; cbn [alu_spec execute_arithmetic default id]; unfold VF in *;
    simp_reg; (split; [|split]); try (intros q ???; simp_reg; reflexivity). all: alu_arith.
Qed.

(** ** The spec's testable properties and the flag register

    The shared first steps: reduce the operation, read registers through
    the writes, normalise the C expressions. *)
Ltac alu_solve :=
  reg_facts; cbn [execute_arithmetic]; unfold VF in *; simp_reg; try split; alu_arith.

Section Operands.
Context (c : chip8_t) (Hwf : wf c) (x : Z) (Hx : 0 <= x < NUM_REGISTERS).

(** C15. [8xy4] (spec section 8): when [x] is not [VF], [Vx] becomes
    [(Vx + Vy) mod 256] and [VF] becomes 1 exactly when the unreduced sum
    exceeds 255, also when [y] is [VF]. *)
Theorem alu_add_carry y :
  0 <= y < NUM_REGISTERS -> x ≠ VF ->
  reg (execute_arithmetic c x y 4) x = (reg c x + reg c y) mod 256 ∧
  reg (execute_arithmetic c x y 4) VF = (if 255 <? reg c x + reg c y then 1 else 0).
Proof. intros. alu_solve. Qed.

(** C16. [8xy5] and [8xy7] (spec section 8): when [x] is not [VF], [VF]
    ends as the not-borrow flag: 1 exactly when the minuend is at least
    the subtrahend, both read before the instruction. *)
Theorem alu_sub_not_borrow y :
  0 <= y < NUM_REGISTERS -> x ≠ VF ->
  reg (execute_arithmetic c x y 5) VF = (if reg c y <=? reg c x then 1 else 0) ∧
  reg (execute_arithmetic c x y 7) VF = (if reg c x <=? reg c y then 1 else 0).
Proof. intros. split; alu_solve. Qed.

(** C17. [8xF5] and [8xF7]: the subtraction reads [VF] after the flag has
    overwritten it, so the difference is computed with the new flag (0 or
    1) instead of the old value of [VF]. *)
Theorem alu_sub_reads_overwritten_flag :
  x ≠ VF ->
  reg (execute_arithmetic c x VF 5) x =
    (reg c x - (if reg c VF <=? reg c x then 1 else 0)) mod 256 ∧
  reg (execute_arithmetic c x VF 7) x =
    ((if reg c x <=? reg c VF then 1 else 0) - reg c x) mod 256.
Proof. intros. split; alu_solve. Qed.

End Operands.

(** C18. [8Fy4]: when the destination is [VF], the truncated sum is written
    after the carry, so the carry is lost. *)
Theorem alu_add_into_flag c y :
  wf c -> 0 <= y < NUM_REGISTERS ->
  reg (execute_arithmetic c VF y 4) VF = (reg c VF + reg c y) mod 256.
Proof. intros. alu_solve. Qed.

(** [execute_arithmetic] preserves the type invariant. *)
Lemma wf_execute_arithmetic c x y op : wf c -> wf (execute_arithmetic c x y op).
Proof.
  intros Hwf. destruct (decide (op ∈ alu_ops)) as [Hop|Hop];
    [|by rewrite execute_arithmetic_other].
  alu_op_cases Hop; cbn [execute_arithmetic]; eauto with chip8.
Qed.

(** ** Witnesses *)

Lemma execute_arithmetic_refines_witness :
  let c' := execute_arithmetic alu_demo 1 2 5 in
  match alu_spec 5 (reg alu_demo 1) (reg alu_demo 2) with
  | Some (r, fl) =>
      reg c' 1 = r ∧ reg c' VF = default (reg alu_demo VF) fl ∧
      (∀ q, 0 <= q -> q ≠ 1 -> q ≠ VF -> reg c' q = reg alu_demo q)
  | None => c' = alu_demo
  end.
Proof.
  refine (execute_arithmetic_refines alu_demo 1 2 5 _ _ _ _ _). all: decide_closed.
Defined.

Lemma alu_add_carry_witness :
  reg (execute_arithmetic alu_demo 1 2 4) 1 = 44 ∧ reg (execute_arithmetic alu_demo 1 2 4) VF = 1.
Proof.
  destruct (alu_add_carry alu_demo ltac:(decide_closed) 1 ltac:(decide_closed) 2
    ltac:(decide_closed) ltac:(decide_closed)) as [-> ->]. split; reflexivity.
Defined.

Lemma alu_sub_not_borrow_witness :
  reg (execute_arithmetic alu_demo 2 1 5) VF = 0 ∧ reg (execute_arithmetic alu_demo 2 1 7) VF = 1.
Proof.
  destruct (alu_sub_not_borrow alu_demo ltac:(decide_closed) 2 ltac:(decide_closed) 1
    ltac:(decide_closed) ltac:(decide_closed)) as [-> ->]. split; reflexivity.
Defined.

(** With [V1 = 200] and [VF = 3], [8 1 F 5] leaves [V1 = 199]; the table
    of the spec ([alu_spec]) gives [200 - 3 = 197]. *)
Lemma alu_sub_reads_overwritten_flag_witness :
  reg (execute_arithmetic alu_demo 1 VF 5) 1 = 199 ∧
  alu_spec 5 (reg alu_demo 1) (reg alu_demo VF) = Some (197, Some 1).
Proof.
  destruct (alu_sub_reads_overwritten_flag alu_demo ltac:(decide_closed) 1
    ltac:(decide_closed) ltac:(decide_closed)) as [-> _]. split; reflexivity.
Defined.

Lemma alu_add_into_flag_witness : reg (execute_arithmetic alu_demo VF 1 4) VF = 203.
Proof.
  rewrite (alu_add_into_flag alu_demo 1 ltac:(decide_closed) ltac:(decide_closed)).
  reflexivity.
Defined.
