(* ===== verification/Display.v ===== *)
(** * The display engine: [execute_draw] and [chip8_get_pixel]

    The framebuffer is [uint32_t display[32]]: pixel [(px, py)] is bit [px]
    of row [py].  [execute_draw] (chip8.c:92-117) is two nested C loops
    with [break], modelled with [c_for]; the mask [1U << px] is [shl_u32],
    undefined (a fault) for [px >= 32], so only the left half of the
    64-column screen can be drawn.  [chip8_get_pixel] (chip8.c:272-277)
    takes [uint8_t] coordinates, converted on entry, and has the same
    shift.

    The theorems give the loops a closed form (the bits toggled in each row,
    [cols_mask]) and from it the pixel-level behaviour of a draw: XOR of the
    sprite into the framebuffer, the collision flag, and when the C code is
    undefined. *)

From S2P Require Import Prelude Machine.

(** Body of the column loop, chip8.c:101-114, for sprite row [row] with
    sprite byte [sprite_byte]. *)
Definition draw_col (x_pos y_pos row sprite_byte : Z) (col : Z) (c : chip8_t)
    : result (flow chip8_t) :=
  if decide (x_pos + col >= DISPLAY_WIDTH) then Ok (Break c)
  else if decide (Z.land sprite_byte (Z.shiftr 0x80 col) ≠ 0) then
    let px := u8 (x_pos + col) in
    let py := u8 (y_pos + row) in
    mask ← shl_u32 1 px;
    let c := if decide (Z.land (row_of c py) mask ≠ 0) then set_reg c VF 1 else c in
    Ok (Continue (set_row c py (Z.lxor (row_of c py) mask)))
  else Ok (Continue c).

(** Body of the row loop, chip8.c:97-115. *)
Definition draw_row (x_pos y_pos : Z) (row : Z) (c : chip8_t) : result (flow chip8_t) :=
  if decide (y_pos + row >= DISPLAY_HEIGHT) then Ok (Break c)
  else
    sprite_byte ← mem_read c (I c + row);
    c ← c_for 8 0 (draw_col x_pos y_pos row sprite_byte) c;
    Ok (Continue c).

(** [execute_draw(chip8, x, y, height)], chip8.c:92-117. *)
Definition execute_draw (c : chip8_t) (x y height : Z) : result chip8_t :=
  let x_pos := u8 (reg c x mod DISPLAY_WIDTH) in
  let y_pos := u8 (reg c y mod DISPLAY_HEIGHT) in
  let c := set_reg c VF 0 in
  c ← c_for (Z.to_nat height) 0 (draw_row x_pos y_pos) c;
  Ok (set_draw_flag c true).

(** [chip8_get_pixel(chip8, x, y)], chip8.c:272-277. *)
Definition chip8_get_pixel (c : chip8_t) (x y : Z) : result bool :=
  let x := u8 x in
  let y := u8 y in
  if decide (x >= DISPLAY_WIDTH ∨ y >= DISPLAY_HEIGHT) then Ok false
  else
    mask ← shl_u32 1 x;
    Ok (negb (Z.land (row_of c y) mask =? 0)).

(** A fresh machine with the pixel at column 5 of row 4 lit. *)
Definition pixel_demo : chip8_t := set_row chip8_init 4 0x20.

(** ** Closed form of the column loop

    [cols_mask n x_pos sb col]: the bits of the display row that the column
    loop toggles for sprite byte [sb], from column [col] on, for [n]
    iterations; [cols_fault]: the first column whose shift [1U << px] is
    undefined.  [draw_into c py m]: XOR [m] into row [py] and set [VF] if
    it hits a lit pixel. *)
Fixpoint cols_mask (n : nat) (x_pos sb col : Z) : Z :=
  match n with
  | O => 0
  | S n' =>
      if x_pos + col >=? DISPLAY_WIDTH then 0
      else Z.lor (if Z.testbit sb (7 - col) then 2 ^ (x_pos + col) else 0)
                 (cols_mask n' x_pos sb (col + 1))
  end.

Fixpoint cols_fault (n : nat) (x_pos sb col : Z) : option Z :=
  match n with
  | O => None
  | S n' =>
      if x_pos + col >=? DISPLAY_WIDTH then None
      else if Z.testbit sb (7 - col) && (32 <=? x_pos + col) then Some (x_pos + col)
      else cols_fault n' x_pos sb (col + 1)
  end.

Definition draw_into (c : chip8_t) (py m : Z) : chip8_t :=
  set_row (vf_update c (negb (Z.land (row_of c py) m =? 0))) py (Z.lxor (row_of c py) m).

(** ** The row loop

    [rows_draw]: the row loop with the column loop replaced by its closed
    form.  [rows_mask c n x0 y0 row py]: the mask XORed into display row
    [py] by rows [row .. row + n) of a sprite at [(x0, y0)]. *)
Fixpoint rows_draw (n : nat) (x_pos y_pos row : Z) (c : chip8_t) : result chip8_t :=
  match n with
  | O => Ok c
  | S n' =>
      if y_pos + row >=? DISPLAY_HEIGHT then Ok c
      else
        sb ← mem_read c (I c + row);
        match cols_fault 8 x_pos sb 0 with
        | Some p => Fault (ShiftOutOfRange p)
        | None => rows_draw n' x_pos y_pos (row + 1)
                    (draw_into c (y_pos + row) (cols_mask 8 x_pos sb 0))
        end
  end.

Definition rows_mask (c : chip8_t) (n : nat) (x_pos y_pos row py : Z) : Z :=
  if decide (y_pos + row <= py < y_pos + row + Z.of_nat n)
  then cols_mask 8 x_pos ((memory c).[I c + (py - y_pos)]) 0 else 0.

(** A draw hits a lit pixel: some row has a bit set in both the framebuffer
    and the mask drawn into it. *)
Definition collision (c : chip8_t) (mask : Z -> Z) : Prop :=
  ∃ py, 0 <= py < DISPLAY_HEIGHT ∧ Z.land (row_of c py) (mask py) ≠ 0.

(** ** Abstract specification of a draw (spec section 4.3)

    [pixel c px py]: the framebuffer pixel.  [sprite_pixel c x0 y0 n px py]:
    the sprite of height [n] stored at [I], placed at [(x0, y0)] and clipped
    at the screen edges, has pixel [(px, py)] lit (bit 7 of a sprite byte
    is its leftmost pixel).  [draw_ok]: the condition under which the C
    code of a draw has no undefined behaviour: every sprite row on screen
    is inside memory and no lit sprite pixel lies in columns 32 to 63. *)
Definition pixel (c : chip8_t) (px py : Z) : bool := Z.testbit (row_of c py) px.

Definition sprite_pixel (c : chip8_t) (x0 y0 n px py : Z) : bool :=
  bool_decide (y0 <= py < y0 + n ∧ x0 <= px < x0 + 8 ∧ px < DISPLAY_WIDTH ∧ py < DISPLAY_HEIGHT) &&
  Z.testbit ((memory c).[I c + (py - y0)]) (7 - (px - x0)).

Definition draw_ok (c : chip8_t) (x0 y0 n : Z) : Prop :=
  ∀ py, y0 <= py < y0 + n -> py < DISPLAY_HEIGHT ->
    0 <= I c + (py - y0) < MEMORY_SIZE ∧
    ∀ px, 32 <= px < DISPLAY_WIDTH -> sprite_pixel c x0 y0 n px py = false.

Lemma cols_mask_nonneg n x_pos sb col : 0 <= x_pos + col -> 0 <= cols_mask n x_pos sb col.
Proof.
  revert col. induction n as [|n IH]; intros col Hc; cbn; [lia|].
  destruct (_ >=? _); [lia|]. apply Z.lor_nonneg. split; [|apply IH; lia].
  destruct (Z.testbit _ _); [apply Z.pow_nonneg|]; lia.
Qed.

(** Bit [p] of the mask: the sprite bit of column [p - x_pos], for the
    columns the loop reaches. *)
Lemma cols_mask_testbit n x_pos sb col p :
  0 <= x_pos -> 0 <= col -> 0 <= p ->
  Z.testbit (cols_mask n x_pos sb col) p =
  bool_decide (x_pos + col <= p < x_pos + col + Z.of_nat n ∧ p < DISPLAY_WIDTH) &&
  Z.testbit sb (7 - (p - x_pos)).
Proof.
  intros Hx. revert col. induction n as [|n IH]; intros col Hc Hp; cbn [cols_mask].
  - rewrite Z.testbit_0_l, bool_decide_false by lia. done.
  - destruct (Z.geb_spec (x_pos + col) DISPLAY_WIDTH) as [Hw|Hw].
    + rewrite Z.testbit_0_l, bool_decide_false by lia. done.
    + rewrite Z.lor_spec, IH by lia.
      destruct (decide (p = x_pos + col)) as [->|Hne].
      * replace (7 - (x_pos + col - x_pos)) with (7 - col) by lia.
        destruct (Z.testbit sb (7 - col)); rewrite ?testbit_pow2, ?Z.testbit_0_l by lia;
          repeat case_bool_decide; try lia; done.
      * assert (Z.testbit (if Z.testbit sb (7 - col) then 2 ^ (x_pos + col) else 0) p = false) as ->.
        { destruct (Z.testbit sb (7 - col)); rewrite ?testbit_pow2, ?Z.testbit_0_l by lia;
            [apply bool_decide_false; lia|done]. }
        cbn [orb]. f_equal. apply bool_decide_ext. lia.
Qed.

(** Without a faulting column the mask fits a [uint32_t] row. *)
Lemma cols_mask_u32 n x_pos sb col :
  0 <= x_pos -> 0 <= col -> cols_fault n x_pos sb col = None -> is_u32 (cols_mask n x_pos sb col).
Proof.
  intros Hx. revert col. induction n as [|n IH]; intros col Hc Hf; cbn in *; [unfold is_u32; lia|].
  destruct (Z.geb_spec (x_pos + col) DISPLAY_WIDTH); [unfold is_u32; lia|].
  unfold is_u32. change 4294967296 with (2 ^ 32). apply lor_lt_pow2; [lia| |].
  - destruct (Z.testbit sb (7 - col)); cbn in Hf; [|lia].
    destruct (Z.leb_spec 32 (x_pos + col)); [discriminate|].
    split; [apply Z.pow_nonneg; lia|apply Z.pow_lt_mono_r; lia].
  - destruct (Z.testbit sb (7 - col) && (32 <=? x_pos + col)); [discriminate|].
    apply (IH (col + 1)); [lia|done].
Qed.

(** Column [col]'s bit is disjoint from the mask of the later columns. *)
Lemma cols_mask_disjoint n x_pos sb col :
  0 <= x_pos -> 0 <= col -> Z.land (2 ^ (x_pos + col)) (cols_mask n x_pos sb (col + 1)) = 0.
Proof.
  intros. apply Z.bits_inj'. intros p Hp.
  rewrite Z.land_spec, testbit_pow2, cols_mask_testbit, Z.testbit_0_l by lia.
  case_bool_decide; [subst|done]. rewrite bool_decide_false by lia. apply andb_false_r.
Qed.

Section DrawInto.
Context (c : chip8_t) (Hwf : wf c) (py : Z) (Hpy : 0 <= py < DISPLAY_HEIGHT).

Lemma draw_into_0 : draw_into c py 0 = c.
Proof. unfold draw_into. rewrite Z.land_0_r, Z.lxor_0_r. apply set_row_id; done. Qed.

(** Two draws into the same row with disjoint masks are one draw with
    their union. *)
Lemma draw_into_compose a b :
  is_u32 a -> is_u32 b -> Z.land a b = 0 ->
  draw_into (draw_into c py a) py b = draw_into c py (Z.lor a b).
Proof.
  intros Ha Hb Hd. pose proof (row_u32 c Hwf py Hpy) as Hr.
  unfold draw_into. rewrite (row_of_set_row_eq _ (wf_vf_update _ _ Hwf) py Hpy).
  rewrite u32_id by (unfold is_u32 in *; change 4294967296 with (2 ^ 32) in *;
                     apply lxor_lt_pow2; lia).
  rewrite <- set_row_vf_update, set_row_set_row, vf_update_vf_update.
  rewrite land_lxor_disjoint, lxor_lor_disjoint, land_lor_zero, negb_andb by done.
  reflexivity.
Qed.
End DrawInto.

(** The code's flag update is [vf_update]. *)
Lemma collision_update c z :
  (if decide (z ≠ 0) then set_reg c VF 1 else c) = vf_update c (negb (z =? 0)).
Proof. destruct (Z.eqb_spec z 0); case_decide; done. Qed.

Section Columns.
Context (x_pos y_pos row sb : Z).
Context (Hx : 0 <= x_pos < DISPLAY_WIDTH) (Hy : 0 <= y_pos + row < DISPLAY_HEIGHT).

(** The four cases of one iteration of the column loop. *)
Lemma draw_col_break col c :
  DISPLAY_WIDTH <= x_pos + col -> draw_col x_pos y_pos row sb col c = Ok (Break c).
Proof. intros. unfold draw_col. by rewrite decide_True by lia. Qed.

Lemma draw_col_skip col c :
  0 <= col <= 7 -> x_pos + col < DISPLAY_WIDTH -> Z.testbit sb (7 - col) = false ->
  draw_col x_pos y_pos row sb col c = Ok (Continue c).
Proof.
  intros. unfold draw_col. rewrite decide_False by lia. rewrite shiftr_128 by lia.
  by rewrite decide_False by (rewrite land_pow2_nonzero by lia; congruence).
Qed.

Lemma draw_col_hit col c :
  0 <= col <= 7 -> x_pos + col < 32 -> Z.testbit sb (7 - col) = true ->
  draw_col x_pos y_pos row sb col c =
  Ok (Continue (draw_into c (y_pos + row) (2 ^ (x_pos + col)))).
Proof.
  intros. unfold draw_col. rewrite decide_False by (unfold DISPLAY_WIDTH; lia).
  rewrite shiftr_128, decide_True by (try apply land_pow2_nonzero; (lia || done)).
  rewrite (u8_id (x_pos + col)) by (unfold is_u8, DISPLAY_WIDTH in *; lia).
  rewrite (u8_id (y_pos + row)) by (unfold is_u8, DISPLAY_HEIGHT in *; lia).
  rewrite shl_u32_1 by lia. cbn [mbind result_bind].
  by rewrite collision_update, row_of_vf_update.
Qed.

Lemma draw_col_fault col c :
  0 <= col <= 7 -> 32 <= x_pos + col < DISPLAY_WIDTH -> Z.testbit sb (7 - col) = true ->
  draw_col x_pos y_pos row sb col c = Fault (ShiftOutOfRange (x_pos + col)).
Proof.
  intros. unfold draw_col. rewrite decide_False by lia.
  rewrite shiftr_128, decide_True by (try apply land_pow2_nonzero; (lia || done)).
  rewrite (u8_id (x_pos + col)) by (unfold is_u8, DISPLAY_WIDTH in *; lia).
  by rewrite shl_u32_out by lia.
Qed.

(** The column loop toggles the bits [cols_mask] of row [y_pos + row] and
    sets [VF] on a hit, or faults at the first column past bit 31. *)
Lemma draw_cols_closed n col c :
  wf c -> 0 <= col -> col + Z.of_nat n <= 8 ->
  c_for n col (draw_col x_pos y_pos row sb) c =
  match cols_fault n x_pos sb col with
  | Some p => Fault (ShiftOutOfRange p)
  | None => Ok (draw_into c (y_pos + row) (cols_mask n x_pos sb col))
  end.
Proof.
  revert col c. induction n as [|n IH]; intros col c Hwf Hc Hn.
  { cbn. by rewrite draw_into_0. }
  rewrite c_for_S. cbn [cols_fault cols_mask].
  destruct (Z.geb_spec (x_pos + col) DISPLAY_WIDTH) as [Hw|Hw].
  { rewrite draw_col_break by lia. cbn. by rewrite draw_into_0. }
  destruct (Z.testbit sb (7 - col)) eqn:Hb; cbn [andb].
  - destruct (Z.leb_spec 32 (x_pos + col)).
    + by rewrite draw_col_fault by (lia || done).
    + rewrite draw_col_hit by (lia || done). cbn [mbind result_bind].
      rewrite IH by (eauto with chip8 || lia).
      destruct (cols_fault n x_pos sb (col + 1)) eqn:Hf; [done|].
      rewrite draw_into_compose; [done|done|lia| | |].
      * split; [apply Z.pow_nonneg; lia|]. change 4294967296 with (2 ^ 32).
        apply Z.pow_lt_mono_r; lia.
      * apply cols_mask_u32; [lia|lia|done].
      * apply cols_mask_disjoint; lia.
  - rewrite draw_col_skip by (lia || done). cbn [mbind result_bind]. rewrite Z.lor_0_l.
    apply IH; [done|lia|lia].
Qed.
End Columns.

Lemma memory_draw_into c py m : memory (draw_into c py m) = memory c.
Proof. unfold draw_into. by destruct (negb _). Qed.
Lemma I_draw_into c py m : I (draw_into c py m) = I c.
Proof. unfold draw_into. by destruct (negb _). Qed.

Lemma rows_mask_draw_into c py m n x_pos y_pos row q :
  rows_mask (draw_into c py m) n x_pos y_pos row q = rows_mask c n x_pos y_pos row q.
Proof. unfold rows_mask. by rewrite memory_draw_into, I_draw_into. Qed.

Lemma set_display_vf_update c h d : set_display (vf_update c h) d = vf_update (set_display c d) h.
Proof. by destruct h. Qed.

Section RowsLoop.
Context (x_pos y_pos : Z) (Hx : 0 <= x_pos < DISPLAY_WIDTH) (Hy : 0 <= y_pos).

Lemma draw_row_break row c :
  DISPLAY_HEIGHT <= y_pos + row -> draw_row x_pos y_pos row c = Ok (Break c).
Proof. intros. unfold draw_row. by rewrite decide_True by lia. Qed.

Lemma draw_row_in row c :
  y_pos + row < DISPLAY_HEIGHT ->
  draw_row x_pos y_pos row c =
  (sb ← mem_read c (I c + row); c ← c_for 8 0 (draw_col x_pos y_pos row sb) c; Ok (Continue c)).
Proof. intros. unfold draw_row. by rewrite decide_False by lia. Qed.

(** The C row loop is [rows_draw]. *)
Lemma draw_rows_closed n row c :
  wf c -> 0 <= row -> c_for n row (draw_row x_pos y_pos) c = rows_draw n x_pos y_pos row c.
Proof.
  revert row c. induction n as [|n IH]; intros row c Hwf Hr; [done|].
  rewrite c_for_S. cbn [rows_draw].
  destruct (Z.geb_spec (y_pos + row) DISPLAY_HEIGHT).
  { by rewrite draw_row_break by lia. }
  rewrite draw_row_in by lia.
  destruct (mem_read c (I c + row)) as [sb|f] eqn:Hm; [|done]. cbn [mbind result_bind].
  pose proof (mem_read_u8 c Hwf _ _ Hm) as Hsb.
  rewrite draw_cols_closed by (done || lia).
  destruct (cols_fault 8 x_pos sb 0); [done|]. cbn [mbind result_bind].
  apply IH; [unfold draw_into; eauto with chip8 | lia].
Qed.
End RowsLoop.

Lemma collision_ext c1 c2 m1 m2 :
  (∀ py, 0 <= py < DISPLAY_HEIGHT -> Z.land (row_of c1 py) (m1 py) = Z.land (row_of c2 py) (m2 py)) ->
  collision c1 m1 <-> collision c2 m2.
Proof.
  intros Heq. unfold collision. split; intros (py & Hpy & Hne); exists py;
    rewrite ?Heq in * by done; auto.
Qed.

Section RowsMask.
Context (c : chip8_t) (x_pos y_pos row : Z) (n : nat).

Lemma rows_mask_here :
  rows_mask c (S n) x_pos y_pos row (y_pos + row) = cols_mask 8 x_pos ((memory c).[I c + row]) 0.
Proof. unfold rows_mask. rewrite decide_True by lia. do 3 f_equal. lia. Qed.

Lemma rows_mask_later py :
  py ≠ y_pos + row -> rows_mask c (S n) x_pos y_pos row py = rows_mask c n x_pos y_pos (row + 1) py.
Proof. intros. unfold rows_mask. repeat case_decide; try done; lia. Qed.

Lemma rows_mask_before : rows_mask c n x_pos y_pos (row + 1) (y_pos + row) = 0.
Proof. unfold rows_mask. rewrite decide_False by lia. done. Qed.

Lemma rows_mask_outside py :
  (n = 0%nat ∨ DISPLAY_HEIGHT <= y_pos + row) -> py < DISPLAY_HEIGHT ->
  rows_mask c n x_pos y_pos row py = 0.
Proof. intros Hn Hpy. unfold rows_mask. rewrite decide_False by lia. done. Qed.
End RowsMask.

Section DrawIntoRows.
Context (c : chip8_t) (Hwf : wf c) (py m : Z) (Hpy : 0 <= py < DISPLAY_HEIGHT) (Hm : is_u32 m).

Lemma row_of_draw_into_here : row_of (draw_into c py m) py = Z.lxor (row_of c py) m.
Proof.
  unfold draw_into. rewrite row_of_set_row_eq by eauto with chip8. apply u32_id.
  pose proof (row_u32 c Hwf py Hpy). unfold is_u32 in *. change 4294967296 with (2 ^ 32) in *.
  apply lxor_lt_pow2; lia.
Qed.
End DrawIntoRows.

Lemma row_of_draw_into_other c py m q :
  0 <= py -> 0 <= q -> py ≠ q -> row_of (draw_into c py m) q = row_of c q.
Proof. intros. unfold draw_into. by rewrite row_of_set_row_ne, row_of_vf_update. Qed.

Lemma set_display_draw_into c py m d :
  set_display (draw_into c py m) d =
  vf_update (set_display c d) (negb (Z.land (row_of c py) m =? 0)).
Proof. unfold draw_into. by destruct (negb _). Qed.

Lemma wf_draw_into c py m : wf c -> 0 <= py < DISPLAY_HEIGHT -> wf (draw_into c py m).
Proof. intros. unfold draw_into. eauto with chip8. Qed.

Section RowsSpec.
Context (x_pos y_pos : Z).

Lemma wf_rows_draw n row c c' :
  0 <= y_pos -> wf c -> 0 <= row -> rows_draw n x_pos y_pos row c = Ok c' -> wf c'.
Proof.
  intros Hy. revert row c. induction n as [|n IH]; intros row c Hwf Hr H; cbn [rows_draw] in H;
    [by simplify_eq|].
  destruct (Z.geb_spec (y_pos + row) DISPLAY_HEIGHT); [by simplify_eq|].
  inv_result. destruct (cols_fault 8 x_pos a 0); [done|].
  eapply (IH (row + 1)); [|lia|exact H]. apply wf_draw_into; [done|lia].
Qed.

(** Row-level semantics of the row loop: every row [py] is XORed with its
    mask [rows_mask], and [VF] is set exactly when one of the masks hits a
    lit pixel of the framebuffer before the draw. *)
Lemma rows_draw_spec n row c c' :
  0 <= x_pos < DISPLAY_WIDTH -> 0 <= y_pos ->
  wf c -> 0 <= row -> rows_draw n x_pos y_pos row c = Ok c' ->
  (∀ py, 0 <= py < DISPLAY_HEIGHT ->
     row_of c' py = Z.lxor (row_of c py) (rows_mask c n x_pos y_pos row py)) ∧
  ∃ h, c' = vf_update (set_display c (display c')) h ∧
       (h = true <-> collision c (rows_mask c n x_pos y_pos row)).
Proof.
  intros Hx Hy. revert row c. induction n as [|n IH]; intros row c Hwf Hr H; cbn [rows_draw] in H.
  2: destruct (Z.geb_spec (y_pos + row) DISPLAY_HEIGHT) as [Hb|Hb].
  1,2: injection H as <-; split;
    [intros py Hpy; rewrite rows_mask_outside, Z.lxor_0_r by (lia || auto); done|];
    exists false; split; [by destruct c|];
    split; [done|]; intros (py & Hpy & Hne); rewrite rows_mask_outside, Z.land_0_r in Hne by (lia || auto);
    done.
  inv_result. rename a into sb. apply arr_read_Ok_inv in Ha as [Hin ->].
  destruct (cols_fault 8 x_pos _ 0) eqn:Hf; [done|].
  set (py0 := y_pos + row) in *. set (M0 := cols_mask 8 x_pos _ 0) in *.
  assert (HM0 : is_u32 M0) by (apply cols_mask_u32; [lia|lia|done]).
  destruct (IH (row + 1) _ (wf_draw_into c py0 M0 Hwf ltac:(lia)) ltac:(lia) H) as [Hrows (h1 & Hc' & Hh1)].
  split.
  - intros py Hpy. rewrite Hrows, rows_mask_draw_into by done.
    destruct (decide (py = py0)) as [->|Hne].
    + rewrite row_of_draw_into_here, rows_mask_before, Z.lxor_0_r by (done || lia).
      unfold py0. by rewrite rows_mask_here.
    + rewrite row_of_draw_into_other, rows_mask_later by lia. done.
  - exists (negb (Z.land (row_of c py0) M0 =? 0) || h1). split.
    + by rewrite Hc' at 1; rewrite set_display_draw_into, vf_update_vf_update.
    + rewrite orb_true_iff, Hh1, negb_true_iff, Z.eqb_neq.
      rewrite (collision_ext _ c _ (rows_mask c n x_pos y_pos (row + 1))).
      2: { intros py Hpy. rewrite rows_mask_draw_into. destruct (decide (py = py0)) as [->|].
           - by rewrite rows_mask_before, !Z.land_0_r.
           - by rewrite row_of_draw_into_other by lia. }
      unfold collision. split.
      * intros [Hh|(py & Hpy & Hne)].
        -- exists py0. unfold py0 in *. rewrite rows_mask_here. split; [lia|done].
        -- exists py. rewrite rows_mask_later; [done|]. intros ->.
           rewrite rows_mask_before, Z.land_0_r in Hne. done.
      * intros (py & Hpy & Hne). destruct (decide (py = py0)) as [->|Hpy0].
        -- left. unfold py0 in *. by rewrite rows_mask_here in Hne.
        -- right. exists py. by rewrite <- rows_mask_later.
Qed.
End RowsSpec.

(** ** When the loops fault *)

Lemma cols_fault_none n x_pos sb col :
  0 <= x_pos -> 0 <= col ->
  cols_fault n x_pos sb col = None <->
  ∀ p, 32 <= p < DISPLAY_WIDTH -> x_pos + col <= p < x_pos + col + Z.of_nat n ->
       Z.testbit sb (7 - (p - x_pos)) = false.
Proof.
  intros Hx. revert col. induction n as [|n IH]; intros col Hc; cbn [cols_fault].
  { split; [intros _ p _ Hp; lia|done]. }
  destruct (Z.geb_spec (x_pos + col) DISPLAY_WIDTH).
  { split; [intros _ p Hp; lia|done]. }
  destruct (Z.testbit sb (7 - col)) eqn:Hb; destruct (Z.leb_spec 32 (x_pos + col)); cbn [andb].
  - split; [discriminate|]. intros Hall. specialize (Hall (x_pos + col) ltac:(lia) ltac:(lia)).
    replace (7 - (x_pos + col - x_pos)) with (7 - col) in Hall by lia. congruence.
  - rewrite IH by lia. split; intros Hall p Hp Hr; [apply Hall; lia|].
    apply Hall; lia.
  - rewrite IH by lia. split; intros Hall p Hp Hr.
    + destruct (decide (p = x_pos + col)) as [->|]; [|apply Hall; lia].
      replace (7 - (x_pos + col - x_pos)) with (7 - col) by lia. done.
    + apply Hall; lia.
  - rewrite IH by lia. split; intros Hall p Hp Hr.
    + destruct (decide (p = x_pos + col)) as [->|]; [|apply Hall; lia].
      replace (7 - (x_pos + col - x_pos)) with (7 - col) by lia. done.
    + apply Hall; lia.
Qed.

(** The row loop returns exactly when every row it reaches reads memory in
    range and its sprite byte does not fault. *)
Lemma rows_draw_ok n x_pos y_pos row c :
  0 <= x_pos < DISPLAY_WIDTH -> 0 <= y_pos -> wf c -> 0 <= row ->
  (∃ c', rows_draw n x_pos y_pos row c = Ok c') <->
  ∀ r, row <= r < row + Z.of_nat n -> y_pos + r < DISPLAY_HEIGHT ->
    0 <= I c + r < MEMORY_SIZE ∧ cols_fault 8 x_pos ((memory c).[I c + r]) 0 = None.
Proof.
  intros Hx Hy. revert row c. induction n as [|n IH]; intros row c Hwf Hr; cbn [rows_draw].
  { split; [intros _ r Hr'; lia|eauto]. }
  destruct (Z.geb_spec (y_pos + row) DISPLAY_HEIGHT).
  { split; [intros _ r Hr' ?; lia|eauto]. }
  destruct (decide (0 <= I c + row < MEMORY_SIZE)) as [Hm|Hm].
  - rewrite mem_read_in by done. cbn [mbind result_bind].
    destruct (cols_fault 8 x_pos _ 0) eqn:Hf.
    + split; [intros [? [=]]|]. intros Hall. destruct (Hall row ltac:(lia) ltac:(lia)) as [_ Hn].
      congruence.
    + rewrite IH by (first [apply wf_draw_into; [done|lia] | lia]). rewrite memory_draw_into, I_draw_into.
      split; intros Hall r Hr' Hy'; [|apply Hall; lia].
      destruct (decide (r = row)) as [->|]; [done|]. apply Hall; lia.
  - rewrite mem_read_out by done. cbn [mbind result_bind].
    split; [intros [? [=]]|]. intros Hall. destruct (Hall row ltac:(lia) ltac:(lia)). done.
Qed.

(** ** [execute_draw] *)

Lemma reg_mod_bounds c r m : wf c -> 0 <= r < NUM_REGISTERS -> 0 < m <= 256 ->
  u8 (reg c r mod m) = reg c r mod m ∧ 0 <= reg c r mod m < m.
Proof. intros. split; [apply u8_id|]; unfold is_u8; zlia. Qed.

(** [execute_draw] is the row loop in closed form on the state with [VF]
    cleared, followed by [draw_flag = true]. *)
Lemma execute_draw_closed c x y n :
  wf c -> 0 <= x < NUM_REGISTERS -> 0 <= y < NUM_REGISTERS ->
  execute_draw c x y n =
  (c' ← rows_draw (Z.to_nat n) (reg c x mod DISPLAY_WIDTH) (reg c y mod DISPLAY_HEIGHT) 0
          (set_reg c VF 0);
   Ok (set_draw_flag c' true)).
Proof.
  intros Hwf Hx Hy. unfold execute_draw.
  destruct (reg_mod_bounds c x DISPLAY_WIDTH Hwf Hx) as [-> ?]; [unfold DISPLAY_WIDTH; lia|].
  destruct (reg_mod_bounds c y DISPLAY_HEIGHT Hwf Hy) as [-> ?]; [unfold DISPLAY_HEIGHT; lia|].
  rewrite draw_rows_closed by (eauto with chip8 || lia). reflexivity.
Qed.

(** Bit [px] of the mask of row [py] is the sprite pixel. *)
Lemma rows_mask_testbit c n x0 y0 px py :
  0 <= x0 -> 0 <= n -> 0 <= px -> py < DISPLAY_HEIGHT ->
  Z.testbit (rows_mask c (Z.to_nat n) x0 y0 0 py) px = sprite_pixel c x0 y0 n px py.
Proof.
  intros. unfold rows_mask, sprite_pixel. rewrite Z2Nat.id by lia. case_decide.
  - rewrite cols_mask_testbit by lia. f_equal. apply bool_decide_ext. lia.
  - rewrite Z.testbit_0_l, bool_decide_false by lia. done.
Qed.

Lemma reg_set_draw_flag c b r : reg (set_draw_flag c b) r = reg c r.
Proof. reflexivity. Qed.
Lemma reg_set_display c d r : reg (set_display c d) r = reg c r.
Proof. reflexivity. Qed.

Lemma reg_vf_update c h :
  length (V c) = Z.to_nat NUM_REGISTERS -> reg (vf_update c h) VF = if h then 1 else reg c VF.
Proof.
  intros Hl. destruct h; cbn; [|done]. unfold reg, set_reg; cbn. apply zlookup_insert_eq.
  rewrite Hl. done.
Qed.

Section Draw.
Context (c : chip8_t) (Hwf : wf c) (x y n : Z).
Context (Hx : 0 <= x < NUM_REGISTERS) (Hy : 0 <= y < NUM_REGISTERS) (Hn : 0 <= n).

Let x0 := reg c x mod DISPLAY_WIDTH.
Let y0 := reg c y mod DISPLAY_HEIGHT.

(** Unfold a successful draw into the facts of [rows_draw_spec]. *)
Lemma execute_draw_Ok_inv c' :
  execute_draw c x y n = Ok c' ->
  ∃ d h, c' = set_draw_flag (vf_update (set_display (set_reg c VF 0) d) h) true ∧
    (∀ py, 0 <= py < DISPLAY_HEIGHT ->
       row_of c' py = Z.lxor (row_of c py) (rows_mask c (Z.to_nat n) x0 y0 0 py)) ∧
    (h = true <-> collision c (rows_mask c (Z.to_nat n) x0 y0 0)) ∧ wf c'.
Proof.
  rewrite execute_draw_closed by done. intros H. inv_result.
  destruct (reg_mod_bounds c x DISPLAY_WIDTH Hwf Hx) as [_ Hx0]; [unfold DISPLAY_WIDTH; lia|].
  destruct (reg_mod_bounds c y DISPLAY_HEIGHT Hwf Hy) as [_ Hy0]; [unfold DISPLAY_HEIGHT; lia|].
  assert (Hc0 : wf (set_reg c VF 0)) by eauto with chip8.
  pose proof (wf_rows_draw x0 y0 _ 0 _ a (proj1 Hy0) Hc0 ltac:(lia) Ha).
  destruct (rows_draw_spec x0 y0 _ 0 _ a Hx0 (proj1 Hy0) Hc0 ltac:(lia) Ha)
    as [Hrows (h & Ha' & Hh)].
  exists (display a), h. subst c'. split; [by rewrite Ha' at 1|]. split; [|split; [done|]].
  - intros py Hpy. apply Hrows. done.
  - eauto with chip8.
Qed.

(** C3. Display semantics of [Dxyn] (spec section 4.3): a draw that
    returns XORs the sprite, read from memory at [I] and placed at
    [(Vx mod 64, Vy mod 32)] without wrap-around, into the framebuffer:
    every pixel of the drawable columns flips exactly where the sprite has
    a lit pixel. *)
Theorem execute_draw_xor c' :
  execute_draw c x y n = Ok c' ->
  ∀ px py, 0 <= px < 32 -> 0 <= py < DISPLAY_HEIGHT ->
  pixel c' px py = xorb (pixel c px py) (sprite_pixel c x0 y0 n px py).
Proof.
  intros H px py Hpx Hpy. destruct (execute_draw_Ok_inv c' H) as (d & h & _ & Hrows & _).
  unfold pixel. rewrite Hrows, Z.lxor_spec, rows_mask_testbit by (unfold x0, DISPLAY_WIDTH, DISPLAY_HEIGHT in *; zlia).
  done.
Qed.

(** C4. Collision flag of [Dxyn]: after a draw that returns, [VF] is 1
    exactly when some lit sprite pixel lands on a pixel that was lit before
    the draw, and 0 otherwise. *)
Theorem execute_draw_collision c' :
  execute_draw c x y n = Ok c' ->
  (reg c' VF = 1 <-> ∃ px py, 0 <= px < 32 ∧ 0 <= py < DISPLAY_HEIGHT ∧
       sprite_pixel c x0 y0 n px py = true ∧ pixel c px py = true) ∧
  (reg c' VF = 0 ∨ reg c' VF = 1).
Proof.
  intros H. destruct (execute_draw_Ok_inv c' H) as (d & h & -> & _ & Hh & _).
  assert (reg (set_draw_flag (vf_update (set_display (set_reg c VF 0) d) h) true) VF =
          if h then 1 else 0) as ->.
  { rewrite reg_set_draw_flag, reg_vf_update, reg_set_display
      by (cbn; rewrite length_insert; apply Hwf).
    destruct h; [done|]. unfold VF. simp_reg. done. }
  split; [|destruct h; auto]. destruct h; (split; [intros Hv|]).
  - destruct (proj1 Hh eq_refl) as (py & Hpy & Hne). apply land_nonzero_testbit in Hne as (p & Hp & Hr & Hm).
    pose proof (row_testbit_lt c Hwf py Hpy p Hr).
    rewrite rows_mask_testbit in Hm by (unfold x0, DISPLAY_WIDTH, DISPLAY_HEIGHT in *; zlia).
    exists p, py. unfold pixel. auto.
  - done.
  - discriminate.
  - intros (px & py & Hpx & Hpy & Hs & Hp). assert (false = true); [|done]. apply Hh.
    exists py. split; [done|]. apply land_nonzero_testbit. exists px. split; [lia|].
    rewrite rows_mask_testbit by (unfold x0, DISPLAY_WIDTH, DISPLAY_HEIGHT in *; zlia). done.
Qed.
(** C5. Undefined behaviour of [Dxyn]: the C code of a draw has defined
    behaviour (the model returns) exactly when every sprite row on screen
    lies inside memory and no lit sprite pixel falls in columns 32 to 63,
    which [1U << px] on a 32-bit row cannot address. *)
Theorem execute_draw_defined :
  (∃ c', execute_draw c x y n = Ok c') <-> draw_ok c x0 y0 n.
Proof.
  destruct (reg_mod_bounds c x DISPLAY_WIDTH Hwf Hx) as [_ Hx0]; [unfold DISPLAY_WIDTH; lia|].
  destruct (reg_mod_bounds c y DISPLAY_HEIGHT Hwf Hy) as [_ Hy0]; [unfold DISPLAY_HEIGHT; lia|].
  rewrite execute_draw_closed by done.
  change (reg c x mod DISPLAY_WIDTH) with x0. change (reg c y mod DISPLAY_HEIGHT) with y0.
  transitivity (∃ a, rows_draw (Z.to_nat n) x0 y0 0 (set_reg c VF 0) = Ok a).
  { split; intros [a Ha]; [inv_result; eauto|exists (set_draw_flag a true); by rewrite Ha]. }
  rewrite rows_draw_ok by (eauto with chip8 || lia). cbn [memory I set_reg set_V].
  rewrite Z2Nat.id by lia. unfold draw_ok, sprite_pixel. split.
  - intros Hall py Hpy Hpy32. destruct (Hall (py - y0) ltac:(lia) ltac:(lia)) as [Hm Hf].
    split; [done|]. intros px Hpx. rewrite cols_fault_none in Hf by lia.
    destruct (bool_decide _) eqn:Hd; [|done]. apply bool_decide_eq_true in Hd.
    apply (Hf px); lia.
  - intros Hok r Hr Hyr. destruct (Hok (y0 + r) ltac:(lia) ltac:(lia)) as [Hm Hs].
    replace (y0 + r - y0) with r in * by lia. split; [done|].
    rewrite cols_fault_none by lia. intros p Hp Hpr. specialize (Hs p Hp).
    rewrite bool_decide_true in Hs by lia. replace (y0 + r - y0) with r in Hs by lia. done.
Qed.
End Draw.

(** [execute_draw] preserves the type invariant. *)
Lemma wf_execute_draw c x y n c' :
  wf c -> 0 <= x < NUM_REGISTERS -> 0 <= y < NUM_REGISTERS -> 0 <= n ->
  execute_draw c x y n = Ok c' -> wf c'.
Proof.
  intros Hwf Hx Hy Hn H.
  edestruct execute_draw_Ok_inv as (? & ? & _ & _ & _ & Hw); [..|exact H|exact Hw]; eauto.
Qed.

Lemma reg_vf_update_ne c h r : 0 <= r -> r ≠ VF -> reg (vf_update c h) r = reg c r.
Proof. intros. destruct h; cbn; [|done]. unfold VF in *. simp_reg. done. Qed.

(** C19. XOR idempotence (spec section 8): drawing the same sprite a second
    time at the same coordinates ([x] and [y] not the flag register, so the
    collision flag of the first draw does not move it) has defined
    behaviour again and restores the framebuffer. *)
Theorem execute_draw_twice c x y n c1 :
  wf c -> 0 <= x < NUM_REGISTERS -> 0 <= y < NUM_REGISTERS -> 0 <= n -> x ≠ VF -> y ≠ VF ->
  execute_draw c x y n = Ok c1 ->
  ∃ c2, execute_draw c1 x y n = Ok c2 ∧ display c2 = display c.
Proof.
  intros Hwf Hx Hy Hn HxF HyF H1.
  destruct (execute_draw_Ok_inv c Hwf x y n Hx Hy c1 H1) as (d & h & Hc1 & Hrows1 & _ & Hwf1).
  assert (Hr : ∀ r, 0 <= r -> r ≠ VF -> reg c1 r = reg c r).
  { intros r ? ?. rewrite Hc1, reg_set_draw_flag, reg_vf_update_ne, reg_set_display by done.
    unfold VF in *. simp_reg. done. }
  assert (memory c1 = memory c ∧ I c1 = I c) as [Hm HI] by (rewrite Hc1; by destruct h).
  destruct (reg_mod_bounds c x DISPLAY_WIDTH Hwf Hx) as [_ Hx0]; [unfold DISPLAY_WIDTH; lia|].
  destruct (reg_mod_bounds c y DISPLAY_HEIGHT Hwf Hy) as [_ Hy0]; [unfold DISPLAY_HEIGHT; lia|].
  assert (Hok : ∃ c2, execute_draw c1 x y n = Ok c2).
  { rewrite execute_draw_closed, Hr, (Hr y) by (done || lia).
    rewrite execute_draw_closed in H1 by done. inv_result.
    destruct (proj2 (rows_draw_ok (Z.to_nat n) _ (reg c y mod DISPLAY_HEIGHT) 0 (set_reg c1 VF 0) Hx0 ltac:(lia)
                      ltac:(eauto with chip8) ltac:(lia))) as [a' Ha'].
    - intros r Hr' Hyr. cbn [memory I set_reg set_V]. rewrite Hm, HI.
      exact (proj1 (rows_draw_ok (Z.to_nat n) _ (reg c y mod DISPLAY_HEIGHT) 0 (set_reg c VF 0) Hx0 ltac:(lia)
                     ltac:(eauto with chip8) ltac:(lia)) (ex_intro _ a Ha) r Hr' Hyr).
    - rewrite Ha'. eauto. }
  destruct Hok as [c2 H2]. exists c2. split; [done|].
  destruct (execute_draw_Ok_inv c1 Hwf1 x y n Hx Hy c2 H2) as (d2 & h2 & _ & Hrows2 & _ & Hwf2).
  apply display_ext; [done|done|]. intros py Hpy.
  rewrite Hrows2, Hrows1, Hr, (Hr y) by (done || lia).
  unfold rows_mask. rewrite Hm, HI, Z.lxor_assoc, Z.lxor_nilpotent, Z.lxor_0_r. done.
Qed.

(** C20. [chip8_get_pixel] (spec section 6): the coordinates are
    [uint8_t] parameters, so they are taken modulo 256 on entry; then
    out-of-range coordinates read as unlit without error, columns 0 to 31
    read the framebuffer bit, and columns 32 to 63 of the 64-column screen
    shift [1U] by 32 or more, which is undefined. *)
Theorem chip8_get_pixel_spec c x y :
  (DISPLAY_WIDTH <= x mod 256 ∨ DISPLAY_HEIGHT <= y mod 256 -> chip8_get_pixel c x y = Ok false) ∧
  (x mod 256 < 32 -> y mod 256 < DISPLAY_HEIGHT ->
     chip8_get_pixel c x y = Ok (pixel c (x mod 256) (y mod 256))) ∧
  (32 <= x mod 256 < DISPLAY_WIDTH -> y mod 256 < DISPLAY_HEIGHT ->
     chip8_get_pixel c x y = Fault (ShiftOutOfRange (x mod 256))).
Proof.
  unfold chip8_get_pixel, u8.
  pose proof (Z.mod_pos_bound x 256 ltac:(lia)) as Hx. pose proof (Z.mod_pos_bound y 256 ltac:(lia)).
  split; [|split].
  - intros. by rewrite decide_True by lia.
  - intros. rewrite decide_False by (unfold DISPLAY_WIDTH; lia). rewrite shl_u32_1 by lia.
    cbn [mbind result_bind]. f_equal. unfold pixel.
    destruct (Z.testbit (row_of c (y mod 256)) (x mod 256)) eqn:Hb.
    + apply (land_pow2_nonzero _ (x mod 256) ltac:(lia)) in Hb. by apply Z.eqb_neq in Hb as ->.
    + destruct (Z.eqb_spec (Z.land (row_of c (y mod 256)) (2 ^ (x mod 256))) 0) as [|Hne]; [done|].
      apply land_pow2_nonzero in Hne; [congruence|lia].
  - intros. rewrite decide_False by lia. by rewrite shl_u32_out by lia.
Qed.

(** ** Witnesses: the glyph of digit 0 ([I = 0] after [chip8_init]) drawn
    at the origin ([V0 = V1 = 0]), as in the scenario of spec section 8. *)

Lemma execute_draw_xor_witness :
  ∃ c', execute_draw chip8_init 0 1 5 = Ok c' ∧ pixel c' 0 0 = true ∧ pixel c' 1 1 = false.
Proof.
  destruct (execute_draw chip8_init 0 1 5) as [c'|f] eqn:Hd; [|vm_compute in Hd; discriminate].
  exists c'. split; [done|].
  pose proof (execute_draw_xor chip8_init ltac:(decide_closed) 0 1 5 ltac:(decide_closed)
    ltac:(decide_closed) ltac:(lia) c' Hd) as Hx.
  rewrite (Hx 0 0), (Hx 1 1) by (unfold DISPLAY_HEIGHT; lia). vm_compute. auto.
Defined.

(** Drawing the glyph a second time collides. *)
Lemma execute_draw_collision_witness :
  ∃ c1 c2, execute_draw chip8_init 0 1 5 = Ok c1 ∧ execute_draw c1 0 1 5 = Ok c2 ∧ reg c2 VF = 1.
Proof.
  destruct (execute_draw chip8_init 0 1 5) as [c1|f] eqn:H1; [|vm_compute in H1; discriminate].
  destruct (execute_draw c1 0 1 5) as [c2|f] eqn:H2;
    [|vm_compute in H1; injection H1 as <-; vm_compute in H2; discriminate].
  exists c1, c2. split; [done|]. split; [done|].
  assert (Hwf1 : wf c1) by (vm_compute in H1; injection H1 as <-; decide_closed).
  apply (proj1 (execute_draw_collision c1 Hwf1 0 1 5 ltac:(decide_closed) ltac:(decide_closed)
    ltac:(lia) c2 H2)).
  exists 0, 0. vm_compute in H1. injection H1 as <-.
  repeat split; try (unfold DISPLAY_HEIGHT; lia); vm_compute; reflexivity.
Defined.

(** The glyph is drawable; a sprite at column 40 is not. *)
Lemma execute_draw_defined_witness :
  (∃ c', execute_draw chip8_init 0 1 5 = Ok c') ∧
  ¬ (∃ c', execute_draw (set_reg chip8_init 0 40) 0 1 5 = Ok c').
Proof.
  split.
  - apply (execute_draw_defined chip8_init ltac:(decide_closed) 0 1 5 ltac:(decide_closed)
      ltac:(decide_closed) ltac:(lia)).
    change (reg chip8_init 0 mod DISPLAY_WIDTH) with 0.
    change (reg chip8_init 1 mod DISPLAY_HEIGHT) with 0.
    intros py Hpy Hpy32. change (I chip8_init) with 0. unfold MEMORY_SIZE, DISPLAY_HEIGHT in *.
    split; [lia|]. intros px Hpx. unfold sprite_pixel. rewrite bool_decide_false by lia. done.
  - rewrite (execute_draw_defined (set_reg chip8_init 0 40) ltac:(decide_closed) 0 1 5
      ltac:(decide_closed) ltac:(decide_closed) ltac:(lia)).
    change (reg (set_reg chip8_init 0 40) 0 mod DISPLAY_WIDTH) with 40.
    change (reg (set_reg chip8_init 0 40) 1 mod DISPLAY_HEIGHT) with 0.
    intros Hok. destruct (Hok 0 ltac:(lia) ltac:(unfold DISPLAY_HEIGHT; lia)) as [_ Hs].
    specialize (Hs 40 ltac:(unfold DISPLAY_WIDTH; lia)). vm_compute in Hs. discriminate.
Defined.

Lemma execute_draw_twice_witness :
  ∃ c1 c2, execute_draw chip8_init 0 1 5 = Ok c1 ∧ execute_draw c1 0 1 5 = Ok c2 ∧
           display c2 = display chip8_init.
Proof.
  destruct (execute_draw chip8_init 0 1 5) as [c1|f] eqn:H1; [|vm_compute in H1; discriminate].
  destruct (execute_draw_twice chip8_init 0 1 5 c1 ltac:(decide_closed) ltac:(decide_closed)
    ltac:(decide_closed) ltac:(lia) ltac:(decide_closed) ltac:(decide_closed) H1) as (c2 & H2 & Hd).
  exists c1, c2. auto.
Defined.

Lemma chip8_get_pixel_spec_witness :
  chip8_get_pixel chip8_init 70 10 = Ok false ∧
  chip8_get_pixel pixel_demo 5 260 = Ok (pixel pixel_demo 5 4) ∧ pixel pixel_demo 5 4 = true ∧
  chip8_get_pixel chip8_init 288 3 = Fault (ShiftOutOfRange 32).
Proof.
  split; [|split; [|split]].
  - apply (proj1 (chip8_get_pixel_spec chip8_init 70 10)). left. decide_closed.
  - apply (proj1 (proj2 (chip8_get_pixel_spec pixel_demo 5 260))); decide_closed.
  - vm_compute. reflexivity.
  - apply (proj2 (proj2 (chip8_get_pixel_spec chip8_init 288 3))); decide_closed.
Defined.
