(* ===== verification/Misc.v ===== *)
(** * The [Fx__] family: [execute_misc]

    [execute_misc] (chip8.c:119-166) dispatches on the low byte [kk]:
    timers ([Fx07], [Fx15], [Fx18]), the index register ([Fx1E], [Fx29]),
    the decimal digits of [Vx] ([Fx33]), the register block store and load
    ([Fx55], [Fx65]) and the wait for a key ([Fx0A]), which rewinds [pc]
    when no key is held so that the instruction is fetched again.  The
    memory writes and reads fault outside [memory]; the loops are [c_for]
    with their C bounds. *)

From S2P Require Import Prelude Machine.

(** Body of the [Fx0A] key scan, chip8.c:126-132: the state is the machine
    and the [pressed] flag. *)
Definition wait_key_body (x : Z) (i : Z) (s : chip8_t * bool) : result (flow (chip8_t * bool)) :=
  let '(c, pressed) := s in
  if decide ((keypad c).[i] ≠ 0) then Ok (Break (set_reg c x i, true))
  else Ok (Continue (c, pressed)).

(** After the scan, chip8.c:133-135: [if (!pressed) chip8->pc -= 2;]. *)
Definition wait_key_end (s : chip8_t * bool) : chip8_t :=
  let '(c, pressed) := s in if pressed then c else set_pc c (pc c - 2).

(** Body of the [Fx55] loop, chip8.c:156-158. *)
Definition store_body (i : Z) (c : chip8_t) : result (flow chip8_t) :=
  c ← mem_write c (I c + i) (reg c i); Ok (Continue c).

(** Body of the [Fx65] loop, chip8.c:161-163. *)
Definition load_body (i : Z) (c : chip8_t) : result (flow chip8_t) :=
  v ← mem_read c (I c + i); Ok (Continue (set_reg c i v)).

Definition execute_misc (c : chip8_t) (x op : Z) : result chip8_t :=
  match op with
  | 0x07 => Ok (set_reg c x (delay_timer c))
  | 0x0A =>
      s ← c_for (Z.to_nat NUM_KEYS) 0 (wait_key_body x) (c, false); Ok (wait_key_end s)
  | 0x15 => Ok (set_delay_timer c (reg c x))
  | 0x18 => Ok (set_sound_timer c (reg c x))
  | 0x1E => Ok (set_I c (I c + reg c x))
  | 0x29 => Ok (set_I c (Z.land (reg c x) 0xF * 5))
  | 0x33 =>
      c ← mem_write c (I c) (reg c x / 100);
      c ← mem_write c (I c + 1) ((reg c x / 10) mod 10);
      mem_write c (I c + 2) (reg c x mod 10)
  | 0x55 => c_for (Z.to_nat (x + 1)) 0 store_body c
  | 0x65 => c_for (Z.to_nat (x + 1)) 0 load_body c
  | _ => Ok c
  end.

(** The low bytes [execute_misc] handles. *)
Definition misc_ops : list Z := [0x07; 0x0A; 0x15; 0x18; 0x1E; 0x29; 0x33; 0x55; 0x65].

(** Concrete machines for the witnesses: [V0 = 254] and [I = 0x300];
    [V0 = 0xAA] with [I] still 0, as after [chip8_init]; key 5 held. *)
Definition misc_demo : chip8_t := set_I (set_reg chip8_init 0 254) 0x300.
Definition glyph_demo : chip8_t := set_reg chip8_init 0 0xAA.
Definition key_demo : chip8_t := set_keypad chip8_init ((keypad chip8_init).[5 := 1]).

(** Any other low byte is a no-op. *)
Lemma execute_misc_other c x op : op ∉ misc_ops -> execute_misc c x op = Ok c.
Proof. intros Hop. z_literal_cases op; exfalso; apply Hop; decide_closed. Qed.

(** ** The key scan of [Fx0A] *)

Section WaitKey.
Context (x : Z) (c : chip8_t).

Lemma wait_key_body_eq i d p :
  wait_key_body x i (d, p) =
  if decide ((keypad d).[i] ≠ 0) then Ok (Break (set_reg d x i, true)) else Ok (Continue (d, p)).
Proof. reflexivity. Qed.

Lemma wait_key_none n i0 :
  (∀ k, i0 <= k < i0 + Z.of_nat n -> (keypad c).[k] = 0) ->
  c_for n i0 (wait_key_body x) (c, false) = Ok (c, false).
Proof.
  revert i0. induction n as [|n IH]; intros i0 Hk; [done|].
  rewrite c_for_S, wait_key_body_eq. rewrite decide_False by (rewrite Hk; lia).
  cbn [mbind result_bind]. apply IH. intros k Hr. apply Hk. lia.
Qed.

(** The scan stops at the first held key [k] and stores its number. *)
Lemma wait_key_first n i0 k :
  i0 <= k < i0 + Z.of_nat n -> (keypad c).[k] ≠ 0 ->
  (∀ j, i0 <= j < k -> (keypad c).[j] = 0) ->
  c_for n i0 (wait_key_body x) (c, false) = Ok (set_reg c x k, true).
Proof.
  revert i0. induction n as [|n IH]; intros i0 Hr Hk Hbefore; [lia|].
  rewrite c_for_S, wait_key_body_eq.
  destruct (decide (k = i0)) as [->|Hne]; [by rewrite decide_True|].
  rewrite decide_False by (rewrite Hbefore; lia). cbn [mbind result_bind].
  apply IH; [lia|done|]. intros j ?. apply Hbefore. lia.
Qed.
End WaitKey.

(** ** The register block store [Fx55] and load [Fx65] *)

Lemma store_body_eq i c :
  store_body i c = (c ← mem_write c (I c + i) (reg c i); Ok (Continue c)).
Proof. reflexivity. Qed.

Lemma load_body_eq i c :
  load_body i c = (v ← mem_read c (I c + i); Ok (Continue (set_reg c i v))).
Proof. reflexivity. Qed.

(** The store loop writes [V[i0 .. i0+n)] to [memory[I+i0 .. I+i0+n)] and
    changes nothing else. *)
Lemma store_loop n i0 c :
  wf c -> 0 <= i0 -> i0 + Z.of_nat n <= NUM_REGISTERS ->
  0 <= I c + i0 -> I c + i0 + Z.of_nat n <= MEMORY_SIZE ->
  ∃ c', c_for n i0 store_body c = Ok c' ∧ wf c' ∧ set_memory c' (memory c) = c ∧
    ∀ a, 0 <= a ->
      (memory c').[a] = if decide (I c + i0 <= a < I c + i0 + Z.of_nat n) then reg c (a - I c)
                        else (memory c).[a].
Proof.
  revert i0 c. induction n as [|n IH]; intros i0 c Hwf Hi Hn HI HIn.
  { exists c. split; [done|]. split; [done|]. split; [apply set_memory_id|].
    intros a Ha. rewrite decide_False by lia. done. }
  rewrite c_for_S, store_body_eq, mem_write_in by (done || lia). cbn [mbind result_bind].
  set (c1 := set_memory c _).
  destruct (IH (i0 + 1) c1) as (c' & Hc' & Hwf' & Hframe & Hmem); cbn; try (done || lia).
  { unfold c1. wf_rebuild Hwf. }
  exists c'. split; [done|]. split; [done|]. split.
  - rewrite <- (set_memory_set_memory c' (memory c1)), Hframe. unfold c1.
    rewrite set_memory_set_memory. apply set_memory_id.
  - intros a Ha. rewrite Hmem by done. unfold c1. rewrite !I_set_memory, !reg_set_memory.
    cbn [memory set_memory]. rewrite mem_lookup_write by (done || lia).
    repeat case_decide; subst; try lia; try done.
    + rewrite u8_id by (apply reg_u8; [done|lia]). f_equal. lia.
Qed.

(** The store loop returns only if the last address written is in memory. *)
Lemma store_loop_bound n i0 c c' :
  wf c -> 0 <= I c + i0 -> c_for (S n) i0 store_body c = Ok c' ->
  I c + i0 + Z.of_nat (S n) <= MEMORY_SIZE.
Proof.
  revert i0 c. induction n as [|n IH]; intros i0 c Hwf HI H;
    rewrite c_for_S, store_body_eq in H;
    destruct (decide (I c + i0 < MEMORY_SIZE)) as [Hlt|Hge];
    try (rewrite mem_write_out in H by (done || lia); discriminate).
  - lia.
  - rewrite mem_write_in in H by (done || lia). cbn [mbind result_bind] in H.
    apply IH in H; [cbn in H; lia| |cbn; lia]. wf_rebuild Hwf.
Qed.

(** The load loop reads [memory[I+i0 .. I+i0+n)] into [V[i0 .. i0+n)] and
    changes nothing else. *)
Lemma load_loop n i0 c :
  wf c -> 0 <= i0 -> i0 + Z.of_nat n <= NUM_REGISTERS ->
  0 <= I c + i0 -> I c + i0 + Z.of_nat n <= MEMORY_SIZE ->
  ∃ c', c_for n i0 load_body c = Ok c' ∧ wf c' ∧ set_V c' (V c) = c ∧
    ∀ r, 0 <= r ->
      reg c' r = if decide (i0 <= r < i0 + Z.of_nat n) then (memory c).[I c + r] else reg c r.
Proof.
  revert i0 c. induction n as [|n IH]; intros i0 c Hwf Hi Hn HI HIn.
  { exists c. split; [done|]. split; [done|]. split; [apply set_V_id|].
    intros r Hr. rewrite decide_False by lia. done. }
  rewrite c_for_S, load_body_eq, mem_read_in by (done || lia). cbn [mbind result_bind].
  set (c1 := set_reg c i0 _).
  assert (Hwf1 : wf c1) by (unfold c1; eauto with chip8).
  destruct (IH (i0 + 1) c1 Hwf1) as (c' & Hc' & Hwf' & Hframe & Hreg);
    [lia|cbn; lia|cbn; lia|cbn; lia|].
  exists c'. split; [done|]. split; [done|]. split.
  - rewrite <- (set_V_set_V c' (V c1)), Hframe. unfold c1, set_reg.
    rewrite set_V_set_V. apply set_V_id.
  - intros r Hr. rewrite Hreg by done. change (memory c1) with (memory c). change (I c1) with (I c).
    destruct (decide (r = i0)) as [->|Hne].
    + rewrite decide_False, decide_True by lia. unfold c1. simp_reg.
      apply u8_id, mem_u8; [done|lia].
    + unfold c1. rewrite reg_set_reg_ne by lia. repeat case_decide; try lia; done.
Qed.

Lemma load_loop_bound n i0 c c' :
  wf c -> 0 <= I c + i0 -> c_for (S n) i0 load_body c = Ok c' ->
  I c + i0 + Z.of_nat (S n) <= MEMORY_SIZE.
Proof.
  revert i0 c. induction n as [|n IH]; intros i0 c Hwf HI H;
    rewrite c_for_S, load_body_eq in H;
    destruct (decide (I c + i0 < MEMORY_SIZE)) as [Hlt|Hge];
    try (rewrite mem_read_out in H by (done || lia); discriminate).
  - lia.
  - rewrite mem_read_in in H by (done || lia). cbn [mbind result_bind] in H.
    apply IH in H; [cbn in H; lia|eauto with chip8|cbn; lia].
Qed.

(** ** The decimal digits [Fx33] *)

Lemma bcd_in c x :
  wf c -> I c + 2 < MEMORY_SIZE ->
  execute_misc c x 0x33 =
  Ok (set_memory c ((((memory c).[I c := u8 (reg c x / 100)]).[I c + 1 := u8 ((reg c x / 10) mod 10)])
                      .[I c + 2 := u8 (reg c x mod 10)])).
Proof.
  intros Hwf HI. pose proof (wf_I _ Hwf). unfold is_u16 in *. cbn [execute_misc].
  rewrite mem_write_in by (done || lia). cbn [mbind result_bind].
  rewrite mem_write_in by (first [solve [wf_rebuild Hwf] | cbn; lia]). cbn [mbind result_bind].
  rewrite mem_write_in by (first [solve [wf_rebuild Hwf] | cbn; lia]). reflexivity.
Qed.

Lemma bcd_out c x :
  wf c -> MEMORY_SIZE <= I c + 2 -> ∃ a, execute_misc c x 0x33 = Fault (MemoryOutOfBounds a).
Proof.
  intros Hwf HI. pose proof (wf_I _ Hwf). unfold is_u16 in *. cbn [execute_misc].
  destruct (decide (I c < MEMORY_SIZE)); [|rewrite mem_write_out by (done || lia); eauto].
  rewrite mem_write_in by (done || lia). cbn [mbind result_bind].
  destruct (decide (I c + 1 < MEMORY_SIZE)); [|rewrite mem_write_out by (first [solve [wf_rebuild Hwf] | cbn; lia]); eauto].
  rewrite mem_write_in by (first [solve [wf_rebuild Hwf] | cbn; lia]). cbn [mbind result_bind].
  rewrite mem_write_out by (first [solve [wf_rebuild Hwf] | cbn; lia]). eauto.
Qed.

(** C30. [Fx33] (spec section 4.2): with the three target bytes inside
    memory, the hundreds, tens and ones digits of [Vx] are written at [I],
    [I+1], [I+2], they recompose [Vx], and nothing else changes; the
    instruction is undefined exactly when [I + 2] is past the end of
    memory. *)
Theorem execute_misc_bcd c x :
  wf c -> 0 <= x < NUM_REGISTERS ->
  ((∃ c', execute_misc c x 0x33 = Ok c') <-> I c + 2 < MEMORY_SIZE) ∧
  ∀ c', execute_misc c x 0x33 = Ok c' ->
    (memory c').[I c] = reg c x / 100 ∧ (memory c').[I c + 1] = (reg c x / 10) mod 10 ∧
    (memory c').[I c + 2] = reg c x mod 10 ∧
    100 * (memory c').[I c] + 10 * (memory c').[I c + 1] + (memory c').[I c + 2] = reg c x ∧
    (∀ a, 0 <= a -> a ≠ I c -> a ≠ I c + 1 -> a ≠ I c + 2 -> (memory c').[a] = (memory c).[a]) ∧
    set_memory c' (memory c) = c.
Proof.
  intros Hwf Hx. pose proof (wf_I _ Hwf). pose proof (reg_u8 c Hwf x Hx). unfold is_u16 in *.
  split.
  - split; [intros [c' Hc']|intros; rewrite bcd_in; eauto].
    destruct (decide (I c + 2 < MEMORY_SIZE)); [done|].
    destruct (bcd_out c x Hwf ltac:(lia)) as [a Ha]. congruence.
  - intros c' Hc'. destruct (decide (I c + 2 < MEMORY_SIZE)) as [HI|HI];
      [|destruct (bcd_out c x Hwf ltac:(lia)) as [a Ha]; congruence].
    rewrite bcd_in in Hc' by done. injection Hc' as <-. cbn [memory set_memory].
    assert (Hl : length (memory c) = 4096%nat) by apply Hwf.
    unfold MEMORY_SIZE in *. zlookup_simp.
    rewrite !u8_id by zlia. split; [done|]. split; [done|]. split; [done|]. split; [zlia|].
    split; [|by destruct c].
    intros a Ha ???. zlookup_simp. done.
Qed.

(** ** Register block transfer [Fx55] / [Fx65] *)

Section Block.
Context (c : chip8_t) (Hwf : wf c) (x : Z) (Hx : 0 <= x < NUM_REGISTERS).

Lemma block_bounds : 0 <= I c ∧ Z.of_nat (Z.to_nat (x + 1)) = x + 1.
Proof. pose proof (wf_I _ Hwf). unfold is_u16 in *. split; lia. Qed.

(** C31. [Fx55] then [Fx65] (spec section 4.2): when [I + x] is inside
    memory, [Fx55] stores [V0 .. Vx] at [I .. I+x] and leaves the rest of
    memory unchanged, and a later [Fx65] with the same [I], from any machine
    whose memory is the stored one, loads them back into [V0 .. Vx] and
    leaves [V(x+1) .. VF] unchanged. *)
Theorem execute_misc_store_load :
  I c + x < MEMORY_SIZE ->
  ∃ c1, execute_misc c x 0x55 = Ok c1 ∧
    (∀ i, 0 <= i <= x -> (memory c1).[I c + i] = reg c i) ∧
    (∀ a, 0 <= a -> ¬ (I c <= a <= I c + x) -> (memory c1).[a] = (memory c).[a]) ∧
    ∀ d, wf d -> memory d = memory c1 -> I d = I c ->
      ∃ d', execute_misc d x 0x65 = Ok d' ∧
        (∀ i, 0 <= i <= x -> reg d' i = reg c i) ∧
        (∀ r, x < r -> reg d' r = reg d r).
Proof.
  intros HI. destruct block_bounds as [HI0 Hn]. cbn [execute_misc].
  destruct (store_loop (Z.to_nat (x + 1)) 0 c Hwf) as (c1 & Hc1 & Hwf1 & _ & Hmem); try lia.
  exists c1. split; [done|]. split; [|split].
  - intros i Hi. rewrite Hmem by lia. rewrite decide_True by lia. f_equal. lia.
  - intros a Ha Hout. rewrite Hmem by lia. rewrite decide_False by lia. done.
  - intros d Hwfd Hmd HId.
    destruct (load_loop (Z.to_nat (x + 1)) 0 d Hwfd) as (d' & Hd' & _ & _ & Hreg); try lia.
    exists d'. split; [done|]. split.
    + intros i Hi. rewrite Hreg, decide_True, Hmd, HId, Hmem by lia.
      rewrite decide_True by lia. f_equal. lia.
    + intros r Hr. rewrite Hreg, decide_False by lia. done.
Qed.

(** C32. The block transfers are undefined exactly when the last byte
    [I + x] is past the end of memory. *)
Theorem execute_misc_block_defined :
  ((∃ c', execute_misc c x 0x55 = Ok c') <-> I c + x < MEMORY_SIZE) ∧
  ((∃ c', execute_misc c x 0x65 = Ok c') <-> I c + x < MEMORY_SIZE).
Proof.
  destruct block_bounds as [HI0 Hn]. cbn [execute_misc].
  replace (Z.to_nat (x + 1)) with (S (Z.to_nat x)) by lia.
  split; split.
  - intros [c' H]. apply store_loop_bound in H; [lia|done|lia].
  - intros HI. destruct (store_loop (S (Z.to_nat x)) 0 c Hwf) as (c1 & Hc1 & _); try lia. eauto.
  - intros [c' H]. apply load_loop_bound in H; [lia|done|lia].
  - intros HI. destruct (load_loop (S (Z.to_nat x)) 0 c Hwf) as (c1 & Hc1 & _); try lia. eauto.
Qed.
End Block.

(** C33. [Fx0A] (spec section 4.2): with no key held the instruction
    rewinds [pc] by two, so that the next cycle fetches it again; otherwise
    it stores the number of the lowest held key in [Vx] and changes nothing
    else. *)
Theorem execute_misc_wait_key c x :
  ((∀ k, 0 <= k < NUM_KEYS -> (keypad c).[k] = 0) ->
     execute_misc c x 0x0A = Ok (set_pc c (pc c - 2))) ∧
  (∀ k, 0 <= k < NUM_KEYS -> (keypad c).[k] ≠ 0 -> (∀ j, 0 <= j < k -> (keypad c).[j] = 0) ->
     execute_misc c x 0x0A = Ok (set_reg c x k)).
Proof.
  cbn [execute_misc]. split.
  - intros Hnone. rewrite wait_key_none; [done|]. intros k Hk. apply Hnone. unfold NUM_KEYS in *. lia.
  - intros k Hk Hheld Hbefore. rewrite (wait_key_first x c _ 0 k); [done| |done|done].
    unfold NUM_KEYS in *. lia.
Qed.

(** The index register: [Fx1E] adds [Vx] to [I] modulo [2^16] (no
    flag), and [Fx29] points [I] at the five-byte glyph of the low nibble
    of [Vx], which is the digit's glyph of [fontset] as long as the glyph
    table is intact. *)
Theorem execute_misc_index c x :
  wf c -> 0 <= x < NUM_REGISTERS ->
  execute_misc c x 0x1E = Ok (set_I c (I c + reg c x)) ∧ I (set_I c (I c + reg c x)) = (I c + reg c x) mod 65536 ∧
  ∃ c', execute_misc c x 0x29 = Ok c' ∧ I c' = 5 * (reg c x mod 16) ∧
    (take (Z.to_nat FONTSET_SIZE) (memory c) = fontset ->
     ∀ k, 0 <= k < 5 -> (memory c').[I c' + k] = fontset !!! Z.to_nat (5 * (reg c x mod 16) + k)).
Proof.
  intros Hwf Hx. pose proof (reg_u8 c Hwf x Hx). split; [done|]. split; [done|].
  eexists. split; [reflexivity|]. cbn [I set_I].
  rewrite (land_low_bits _ 4) by lia. change (2 ^ 4) with 16.
  assert (Hb : is_u16 (reg c x mod 16 * 5)) by (unfold is_u16; zlia).
  rewrite (u16_id _ Hb). split; [lia|].
  intros Hfont k Hk. cbn [memory set_I].
  rewrite <- Hfont, lookup_total_take_lt by (unfold FONTSET_SIZE; zlia).
  f_equal. lia.
Qed.

(** ** The type invariant *)

Lemma wf_wait_key x c s :
  wf c -> c_for (Z.to_nat NUM_KEYS) 0 (wait_key_body x) (c, false) = Ok s -> wf (wait_key_end s).
Proof.
  intros Hwf H. apply (c_for_inv _ (λ s, wf s.1)) in H; [|intros j [d p] r Hd Hb; rewrite wait_key_body_eq in Hb; case_decide; simplify_eq/=; eauto with chip8|done].
  destruct s as [d []]; cbn in *; eauto with chip8.
Qed.

Lemma wf_execute_misc c x op c' : wf c -> execute_misc c x op = Ok c' -> wf c'.
Proof.
  intros Hwf H. unfold execute_misc in H. repeat case_match; inv_result; subst; eauto with chip8.
  all: first
    [ by eapply wf_wait_key
    | solve [repeat match goal with
             | Hw : mem_write _ _ _ = Ok ?d |- wf ?d => refine (wf_mem_write _ _ _ _ _ Hw)
             end; done]
    | eapply (c_for_inv _ wf); [|exact Hwf|exact H]; intros j t r Ht Hb;
      first [ rewrite store_body_eq in Hb; inv_result; subst; eapply wf_mem_write; eauto
            | rewrite load_body_eq in Hb; inv_result; subst; cbn; eauto with chip8 ] ].
Qed.

(** ** Witnesses *)

Lemma execute_misc_bcd_witness :
  ∃ c', execute_misc misc_demo 0 0x33 = Ok c' ∧
    (memory c').[0x300] = 2 ∧ (memory c').[0x301] = 5 ∧ (memory c').[0x302] = 4.
Proof.
  destruct (execute_misc_bcd misc_demo 0 ltac:(decide_closed) ltac:(decide_closed))
    as [[_ Hdef] Hval].
  destruct Hdef as [c' Hc']; [decide_closed|]. exists c'.
  destruct (Hval c' Hc') as (H0 & H1 & H2 & _).
  change (I misc_demo) with 0x300 in H0. change (I misc_demo + 1) with 0x301 in H1.
  change (I misc_demo + 2) with 0x302 in H2.
  split; [done|]. rewrite H0, H1, H2. split; [|split]; reflexivity.
Defined.

(** With [I = 0] (its value after [chip8_init]), [F055] overwrites the
    first byte of the glyph of digit 0. *)
Lemma execute_misc_store_load_witness :
  ∃ c1, execute_misc glyph_demo 0 0x55 = Ok c1 ∧
    (memory c1).[0] = 0xAA ∧ (memory glyph_demo).[0] = 0xF0.
Proof.
  destruct (execute_misc_store_load glyph_demo ltac:(decide_closed) 0 ltac:(decide_closed)
    ltac:(decide_closed)) as (c1 & Hc1 & Hst & _).
  exists c1. split; [done|]. specialize (Hst 0 ltac:(lia)).
  change (I glyph_demo + 0) with 0 in Hst. rewrite Hst. split; reflexivity.
Defined.

Lemma execute_misc_block_defined_witness :
  (∃ c', execute_misc misc_demo 1 0x55 = Ok c') ∧
  ¬ (∃ c', execute_misc (set_I misc_demo 0xFFF) 1 0x65 = Ok c').
Proof.
  split.
  - apply (proj1 (execute_misc_block_defined misc_demo ltac:(decide_closed) 1
      ltac:(decide_closed))). decide_closed.
  - rewrite (proj2 (execute_misc_block_defined (set_I misc_demo 0xFFF) ltac:(decide_closed) 1
      ltac:(decide_closed))). decide_closed.
Defined.

Lemma execute_misc_wait_key_witness :
  execute_misc chip8_init 3 0x0A = Ok (set_pc chip8_init (pc chip8_init - 2)) ∧
  execute_misc key_demo 3 0x0A = Ok (set_reg key_demo 3 5).
Proof.
  split.
  - apply (proj1 (execute_misc_wait_key chip8_init 3)). intros k Hk.
    unfold NUM_KEYS in Hk. destruct (decide (k = 0 ∨ k = 1 ∨ k = 2 ∨ k = 3 ∨ k = 4 ∨ k = 5
      ∨ k = 6 ∨ k = 7 ∨ k = 8 ∨ k = 9 ∨ k = 10 ∨ k = 11 ∨ k = 12 ∨ k = 13 ∨ k = 14 ∨ k = 15))
      as [Hk'|Hk']; [|lia].
    repeat destruct Hk' as [->|Hk']; subst; reflexivity.
  - apply (proj2 (execute_misc_wait_key key_demo 3) 5); [decide_closed|decide_closed|].
    intros j Hj. destruct (decide (j = 0 ∨ j = 1 ∨ j = 2 ∨ j = 3 ∨ j = 4)) as [Hj'|Hj']; [|lia].
    repeat destruct Hj' as [->|Hj']; subst; reflexivity.
Defined.

Lemma execute_misc_index_witness :
  ∃ c', execute_misc misc_demo 0 0x29 = Ok c' ∧ I c' = 70 ∧
    (memory c').[I c' + 1] = fontset !!! 71%nat.
Proof.
  destruct (execute_misc_index misc_demo 0 ltac:(decide_closed) ltac:(decide_closed))
    as (_ & _ & c' & Hc' & HI & Hg).
  exists c'. rewrite HI in *. split; [done|]. split; [reflexivity|].
  apply (Hg ltac:(reflexivity) 1 ltac:(lia)).
Defined.
