(* ===== verification/Cycle.v ===== *)
(** * The fetch-decode-execute step: [chip8_cycle]

    [chip8_cycle] (chip8.c:168-255) is split as the code is laid out:
    [fetch] reads the big-endian opcode at [pc] (line 169), [op_x] ..
    [op_nnn] extract its fields (lines 170-174), and [execute] advances
    [pc] by two and dispatches on the top nibble (lines 176-254), calling
    [execute_arithmetic], [execute_draw] and [execute_misc].  The value
    [rand()] returns is the argument [rnd] of the step.  The theorems
    describe the decoder, the call stack, the invariant [wf] and the
    instruction families the other files do not cover. *)

From S2P Require Import Prelude Machine Loader Alu Display Misc.
From Stdlib Require Import Strings.Byte.

(** [(chip8->memory[pc] << 8) | chip8->memory[pc + 1]], converted to
    [uint16_t]. *)
Definition fetch (c : chip8_t) : result Z :=
  hi ← mem_read c (pc c);
  lo ← mem_read c (pc c + 1);
  Ok (u16 (Z.lor (Z.shiftl hi 8) lo)).

(** The opcode fields, each converted to the width of its C variable. *)
Definition op_x (opcode : Z) : Z := u8 (Z.shiftr (Z.land opcode 0x0F00) 8).
Definition op_y (opcode : Z) : Z := u8 (Z.shiftr (Z.land opcode 0x00F0) 4).
Definition op_n (opcode : Z) : Z := u8 (Z.land opcode 0x000F).
Definition op_kk (opcode : Z) : Z := u8 (Z.land opcode 0x00FF).
Definition op_nnn (opcode : Z) : Z := u16 (Z.land opcode 0x0FFF).

(** [if (cond) chip8->pc += 2;] *)
Definition skip_if (c : chip8_t) (b : bool) : chip8_t :=
  if b then set_pc c (pc c + 2) else c.

(** [chip8->keypad[chip8->V[x] & 0xF]] *)
Definition key_of (c : chip8_t) (x : Z) : Z := (keypad c).[Z.land (reg c x) 0xF].

(** The body of [chip8_cycle] after the fetch, with [pc] already read. *)
Definition execute (rnd opcode : Z) (c : chip8_t) : result chip8_t :=
  let x := op_x opcode in
  let y := op_y opcode in
  let n := op_n opcode in
  let kk := op_kk opcode in
  let nnn := op_nnn opcode in
  let c := set_pc c (pc c + 2) in
  match Z.land opcode 0xF000 with
  | 0x0000 =>
      if decide (opcode = 0x00E0) then
        Ok (set_draw_flag (set_display c (replicate (Z.to_nat DISPLAY_HEIGHT) 0)) true)
      else if decide (opcode = 0x00EE) then
        let c := set_sp c (sp c - 1) in
        p ← stack_read c (sp c); Ok (set_pc c p)
      else Ok c
  | 0x1000 => Ok (set_pc c nnn)
  | 0x2000 =>
      c ← stack_write c (sp c) (pc c);
      let c := set_sp c (sp c + 1) in
      Ok (set_pc c nnn)
  | 0x3000 => Ok (skip_if c (bool_decide (reg c x = kk)))
  | 0x4000 => Ok (skip_if c (bool_decide (reg c x ≠ kk)))
  | 0x5000 => Ok (skip_if c (bool_decide (reg c x = reg c y)))
  | 0x6000 => Ok (set_reg c x kk)
  | 0x7000 => Ok (set_reg c x (reg c x + kk))
  | 0x8000 => Ok (execute_arithmetic c x y n)
  | 0x9000 => Ok (skip_if c (bool_decide (reg c x ≠ reg c y)))
  | 0xA000 => Ok (set_I c nnn)
  | 0xB000 => Ok (set_pc c (nnn + reg c 0))
  | 0xC000 => Ok (set_reg c x (Z.land (Z.rem rnd 256) kk))
  | 0xD000 => execute_draw c x y n
  | 0xE000 =>
      if bool_decide (kk = 0x9E) && bool_decide (key_of c x ≠ 0) then Ok (set_pc c (pc c + 2))
      else if bool_decide (kk = 0xA1) && bool_decide (key_of c x = 0) then Ok (set_pc c (pc c + 2))
      else Ok c
  | 0xF000 => execute_misc c x kk
  | _ => Ok c
  end.

Definition chip8_cycle (rnd : Z) (c : chip8_t) : result chip8_t :=
  opcode ← fetch c; execute rnd opcode c.

(** ** Decoding *)

Lemma lor_shiftl_byte hi lo : 0 <= lo < 256 -> Z.lor (Z.shiftl hi 8) lo = hi * 256 + lo.
Proof.
  intros Hlo. rewrite <- Z.lxor_lor.
  - rewrite <- Z.add_nocarry_lxor.
    + rewrite Z.shiftl_mul_pow2 by lia. reflexivity.
    + apply Z.bits_inj'. intros p Hp. rewrite Z.land_spec, Z.bits_0.
      destruct (Z.ltb_spec p 8).
      * rewrite Z.shiftl_spec_low by lia. reflexivity.
      * rewrite (proj1 (lt_pow2_testbit 8 lo ltac:(lia) ltac:(lia)) ltac:(lia) p) by lia.
        apply andb_false_r.
  - apply Z.bits_inj'. intros p Hp. rewrite Z.land_spec, Z.bits_0.
    destruct (Z.ltb_spec p 8).
    + rewrite Z.shiftl_spec_low by lia. reflexivity.
    + rewrite (proj1 (lt_pow2_testbit 8 lo ltac:(lia) ltac:(lia)) ltac:(lia) p) by lia.
      apply andb_false_r.
Qed.

Lemma shiftr_land_ones z m k w :
  0 <= k -> 0 <= w -> Z.shiftr m k = Z.ones w -> Z.shiftr (Z.land z m) k = (z / 2 ^ k) mod 2 ^ w.
Proof.
  intros Hk Hw Hm. rewrite Z.shiftr_land, Hm, land_low_bits, Z.shiftr_div_pow2 by lia. reflexivity.
Qed.

Lemma land_F000 z : 0 <= z < 65536 -> Z.land z 0xF000 = z / 4096 * 4096.
Proof.
  intros Hz. change 0xF000 with (Z.land (Z.ones 16) (Z.lnot (Z.ones 12))).
  rewrite Z.land_assoc, land_low_bits by lia. change (2 ^ 16) with 65536.
  rewrite Z.mod_small by lia. rewrite <- Z.ldiff_land, Z.ldiff_ones_r by lia.
  rewrite Z.shiftl_mul_pow2, Z.shiftr_div_pow2 by lia. reflexivity.
Qed.

Lemma fetch_in c :
  wf c -> pc c + 1 < MEMORY_SIZE ->
  fetch c = Ok ((memory c).[pc c] * 256 + (memory c).[pc c + 1]).
Proof.
  intros Hwf Hpc. pose proof (wf_pc _ Hwf). unfold is_u16 in *. unfold fetch.
  rewrite !mem_read_in by (done || lia). cbn [mbind result_bind].
  pose proof (mem_u8 c (pc c) Hwf ltac:(lia)). pose proof (mem_u8 c (pc c + 1) Hwf ltac:(lia)).
  unfold is_u8 in *. rewrite lor_shiftl_byte by lia. rewrite u16_id; [done|]. unfold is_u16. lia.
Qed.

Lemma fetch_out c :
  wf c -> MEMORY_SIZE <= pc c + 1 -> ∃ a, fetch c = Fault (MemoryOutOfBounds a).
Proof.
  intros Hwf Hpc. pose proof (wf_pc _ Hwf). unfold is_u16 in *. unfold fetch.
  destruct (decide (pc c < MEMORY_SIZE)).
  - rewrite (mem_read_in c Hwf (pc c)) by lia. cbn [mbind result_bind].
    rewrite mem_read_out by (done || lia). eauto.
  - rewrite (mem_read_out c Hwf (pc c)) by lia. eauto.
Qed.

(** The fields as arithmetic on the opcode. *)
Lemma op_x_eq opcode : op_x opcode = (opcode / 256) mod 16.
Proof.
  unfold op_x. rewrite (shiftr_land_ones _ _ 8 4) by (reflexivity || lia).
  apply u8_id. unfold is_u8. zlia.
Qed.
Lemma op_y_eq opcode : op_y opcode = (opcode / 16) mod 16.
Proof.
  unfold op_y. rewrite (shiftr_land_ones _ _ 4 4) by (reflexivity || lia).
  apply u8_id. unfold is_u8. zlia.
Qed.
Lemma op_n_eq opcode : op_n opcode = opcode mod 16.
Proof. unfold op_n. rewrite (land_low_bits _ 4) by lia. apply u8_id. unfold is_u8. zlia. Qed.
Lemma op_kk_eq opcode : op_kk opcode = opcode mod 256.
Proof. unfold op_kk. rewrite (land_low_bits _ 8) by lia. apply u8_id. unfold is_u8. zlia. Qed.
Lemma op_nnn_eq opcode : op_nnn opcode = opcode mod 4096.
Proof. unfold op_nnn. rewrite (land_low_bits _ 12) by lia. apply u16_id. unfold is_u16. zlia. Qed.

Lemma op_fields_range opcode :
  0 <= op_x opcode < NUM_REGISTERS ∧ 0 <= op_y opcode < NUM_REGISTERS ∧ 0 <= op_n opcode < 16 ∧
  is_u8 (op_kk opcode) ∧ 0 <= op_nnn opcode < MEMORY_SIZE.
Proof.
  rewrite op_x_eq, op_y_eq, op_n_eq, op_kk_eq, op_nnn_eq.
  unfold NUM_REGISTERS, MEMORY_SIZE, is_u8. repeat split; zlia.
Qed.

(** C21. Fetch (spec section 4.2): the opcode is the big-endian word
    [memory[pc] * 256 + memory[pc+1]]; reading it is undefined exactly when
    [pc + 1] is past the end of memory. *)
Theorem fetch_spec c :
  wf c ->
  (pc c + 1 < MEMORY_SIZE -> fetch c = Ok ((memory c).[pc c] * 256 + (memory c).[pc c + 1])) ∧
  ((∃ op, fetch c = Ok op) <-> pc c + 1 < MEMORY_SIZE).
Proof.
  intros Hwf. split; [by apply fetch_in|]. split.
  - intros [op Hop]. destruct (decide (pc c + 1 < MEMORY_SIZE)); [done|].
    destruct (fetch_out c Hwf ltac:(lia)) as [a Ha]. congruence.
  - intros Hpc. rewrite fetch_in by done. eauto.
Qed.

(** C22. Decoding (spec section 4.2): for every 16-bit opcode, [x], [y],
    [n], [kk] and [nnn] are bits 8-11, 4-7, 0-3, 0-7 and 0-11, the
    dispatch value is the top nibble times [0x1000], and the fields
    reassemble the opcode. *)
Theorem decode_fields opcode :
  is_u16 opcode ->
  op_x opcode = (opcode / 256) mod 16 ∧ op_y opcode = (opcode / 16) mod 16 ∧
  op_n opcode = opcode mod 16 ∧ op_kk opcode = opcode mod 256 ∧ op_nnn opcode = opcode mod 4096 ∧
  Z.land opcode 0xF000 = opcode / 4096 * 4096 ∧
  opcode = Z.land opcode 0xF000 + op_nnn opcode ∧ op_nnn opcode = 256 * op_x opcode + op_kk opcode ∧
  op_kk opcode = 16 * op_y opcode + op_n opcode.
Proof.
  intros Hop. unfold is_u16 in Hop.
  rewrite op_x_eq, op_y_eq, op_n_eq, op_kk_eq, op_nnn_eq, land_F000 by lia.
  repeat split; zlia.
Qed.

(** ** The type invariant *)

Lemma wf_execute rnd opcode c c' : wf c -> execute rnd opcode c = Ok c' -> wf c'.
Proof.
  intros Hwf H. destruct (op_fields_range opcode) as (Hx & Hy & Hn & _).
  assert (Hwf' : wf (set_pc c (pc c + 2))) by eauto with chip8.
  unfold execute, skip_if in H. repeat case_match; inv_result; subst;
    eauto using wf_execute_arithmetic, wf_execute_misc with chip8.
  - wf_rebuild Hwf; decide_closed.
  - eapply (wf_execute_draw _ (op_x opcode) (op_y opcode) (op_n opcode)); [exact Hwf'|done|done|lia|exact H].
  - eapply wf_stack_write in Ha; [|exact Hwf']. eauto with chip8.
Qed.

(** [chip8_cycle] either faults or yields a well-formed state. *)
Lemma wf_chip8_cycle rnd c c' : wf c -> chip8_cycle rnd c = Ok c' -> wf c'.
Proof. unfold chip8_cycle. intros Hwf H. inv_result. eauto using wf_execute. Qed.

(** ** Dispatch *)

Lemma chip8_cycle_fetch rnd c hi lo :
  wf c -> pc c + 1 < MEMORY_SIZE -> (memory c).[pc c] = hi -> (memory c).[pc c + 1] = lo ->
  chip8_cycle rnd c = execute rnd (hi * 256 + lo) c.
Proof. intros Hwf Hpc <- <-. unfold chip8_cycle. by rewrite fetch_in. Qed.

Lemma land_F000_family f r : 0 <= f < 16 -> 0 <= r < 4096 -> Z.land (f * 4096 + r) 0xF000 = f * 4096.
Proof. intros. rewrite land_F000 by lia. zlia. Qed.

(** Select the branch of [execute] for a known top nibble. *)
Ltac exec_family Hf := unfold execute; rewrite Hf; cbv beta iota zeta.

(** The pieces of state an instruction other than a call, a return or a
    timer write leaves alone. *)
Definition same_ctl (c d : chip8_t) : Prop :=
  sp d = sp c ∧ stack d = stack c ∧ delay_timer d = delay_timer c ∧
  sound_timer d = sound_timer c ∧ keypad d = keypad c.

Lemma same_ctl_refl c : same_ctl c c.
Proof. by repeat split. Qed.

Lemma same_ctl_trans c d e : same_ctl c d -> same_ctl d e -> same_ctl c e.
Proof. unfold same_ctl. intros (?&?&?&?&?) (?&?&?&?&?). repeat split; congruence. Qed.

Lemma same_ctl_mem_write c a v d : mem_write c a v = Ok d -> same_ctl c d.
Proof. unfold mem_write. intros H. inv_result. subst. by repeat split. Qed.

#[local] Hint Resolve same_ctl_refl : chip8.

Lemma same_ctl_execute_misc c x op c' :
  op ≠ 0x15 -> op ≠ 0x18 -> execute_misc c x op = Ok c' -> same_ctl c c'.
Proof.
  intros H15 H18 H. unfold execute_misc in H.
  repeat case_match; inv_result; subst; try congruence; try solve [by repeat split].
  all: first
    [ apply (c_for_inv _ (λ s, same_ctl c s.1)) in Ha;
      [ destruct a as [d []]; exact Ha
      | intros j [d p] r Hd Hb; rewrite wait_key_body_eq in Hb; case_decide; simplify_eq/=; done
      | apply same_ctl_refl ]
    | solve [repeat match goal with
             | Hw : mem_write ?d _ _ = Ok ?e |- same_ctl _ ?e =>
                 eapply same_ctl_trans; [|exact (same_ctl_mem_write _ _ _ _ Hw)]
             end; apply same_ctl_refl]
    | eapply (c_for_inv _ (same_ctl c)); [|apply same_ctl_refl|exact H]; intros j t r Ht Hb;
      first [ rewrite store_body_eq in Hb; inv_result; subst;
              eapply same_ctl_trans; [exact Ht|]; eapply same_ctl_mem_write; eauto
            | rewrite load_body_eq in Hb; inv_result; subst; exact Ht ] ].
Qed.

Lemma same_ctl_execute_draw c x y n c' :
  wf c -> 0 <= x < NUM_REGISTERS -> 0 <= y < NUM_REGISTERS -> 0 <= n ->
  execute_draw c x y n = Ok c' -> same_ctl c c'.
Proof.
  intros Hwf Hx Hy Hn H.
  edestruct execute_draw_Ok_inv as (d & h & Hc & _); [..|exact H|]; eauto.
  subst. destruct h; by repeat split.
Qed.

(** ** The call stack: [2nnn] and [00EE] *)

Section Stack.
Context (rnd : Z) (c : chip8_t) (Hwf : wf c).

Lemma execute_call opcode :
  Z.land opcode 0xF000 = 0x2000 -> sp c < STACK_SIZE ->
  execute rnd opcode c =
  Ok (set_pc (set_sp (set_stack c ((stack c).[sp c := u16 (pc c + 2)])) (sp c + 1)) (op_nnn opcode)).
Proof.
  intros Hf Hsp. pose proof (wf_sp _ Hwf). unfold is_u8 in *. exec_family Hf.
  rewrite stack_write_in by (eauto with chip8 || cbn; lia). cbn.
  rewrite (u16_id (u16 _)) by apply u16_range. by destruct c.
Qed.

Lemma execute_call_overflow opcode :
  Z.land opcode 0xF000 = 0x2000 -> STACK_SIZE <= sp c ->
  execute rnd opcode c = Fault (StackOutOfBounds (sp c)).
Proof.
  intros Hf Hsp. exec_family Hf.
  rewrite stack_write_out by (eauto with chip8 || cbn; lia). reflexivity.
Qed.

Lemma execute_00EE :
  execute rnd 0x00EE c =
  (let d := set_sp (set_pc c (pc c + 2)) (sp (set_pc c (pc c + 2)) - 1) in
   p ← stack_read d (sp d); Ok (set_pc d p)).
Proof. reflexivity. Qed.

Lemma execute_ret :
  0 < sp c <= STACK_SIZE ->
  execute rnd 0x00EE c = Ok (set_pc (set_sp c (sp c - 1)) ((stack c).[sp c - 1])).
Proof.
  intros Hsp. rewrite execute_00EE. cbv zeta.
  rewrite stack_read_in by (eauto with chip8 || cbn; unfold STACK_SIZE in *; zlia). cbn.
  rewrite u8_id by (unfold is_u8, STACK_SIZE in *; lia). by destruct c.
Qed.

Lemma execute_ret_underflow :
  sp c = 0 -> execute rnd 0x00EE c = Fault (StackOutOfBounds 255).
Proof.
  intros Hsp. rewrite execute_00EE. cbv zeta.
  rewrite stack_read_out; [| eauto with chip8 |]; cbn; rewrite Hsp; [reflexivity|].
  change (u8 (0 - 1)) with 255. unfold STACK_SIZE. lia.
Qed.

Lemma execute_ret_overflow :
  STACK_SIZE < sp c -> execute rnd 0x00EE c = Fault (StackOutOfBounds (sp c - 1)).
Proof.
  intros Hsp. pose proof (wf_sp _ Hwf). unfold is_u8 in *. rewrite execute_00EE. cbv zeta.
  cbn [sp set_sp set_pc]. rewrite u8_id by (unfold is_u8, STACK_SIZE in *; lia).
  rewrite stack_read_out; [reflexivity|eauto with chip8|unfold STACK_SIZE in *; lia].
Qed.
End Stack.

Lemma same_ctl_execute_arithmetic c x y op : same_ctl c (execute_arithmetic c x y op).
Proof.
  pose proof (execute_arithmetic_frame c x y op) as Hf. unfold same_ctl.
  rewrite <- Hf at 2 4 6 8 10. by repeat split.
Qed.

(** Only calls, returns and the timer writes [Fx15], [Fx18] touch the
    stack, the timers or the keypad. *)
Lemma execute_ctl rnd opcode c c' :
  wf c -> execute rnd opcode c = Ok c' ->
  same_ctl c c' ∨ opcode = 0x00EE ∨ Z.land opcode 0xF000 = 0x2000 ∨
  (Z.land opcode 0xF000 = 0xF000 ∧ (op_kk opcode = 0x15 ∨ op_kk opcode = 0x18) ∧
   sp c' = sp c ∧ stack c' = stack c ∧ keypad c' = keypad c).
Proof.
  intros Hwf H. destruct (op_fields_range opcode) as (Hx & Hy & Hn & _).
  assert (Hwf' : wf (set_pc c (pc c + 2))) by eauto with chip8.
  assert (Hpc : same_ctl c (set_pc c (pc c + 2))) by (by repeat split).
  unfold execute, skip_if in H. repeat case_match; inv_result; subst; try (left; by repeat split).
  all: try by (right; left).
  all: try by (right; right; left).
  all: first
    [ left; eapply same_ctl_trans; [exact Hpc|]; apply same_ctl_execute_arithmetic
    | left; eapply same_ctl_trans; [exact Hpc|]; eapply same_ctl_execute_draw; [exact Hwf'|..|exact H]; lia
    | destruct (decide (op_kk opcode = 0x15 ∨ op_kk opcode = 0x18)) as [Hk|Hk];
      [do 3 right; split; [done|]; split; [done|];
       destruct Hk as [Hk|Hk]; rewrite Hk in H; cbn in H; simplify_eq; by repeat split|];
      left; eapply same_ctl_trans; [exact Hpc|]; eapply same_ctl_execute_misc;
      [intros ?; apply Hk; by left | intros ?; apply Hk; by right | exact H] ].
Qed.

(** Calls and returns that return leave the timers and keys alone and
    keep the stack pointer within the stack. *)
Lemma execute_stack_ops rnd opcode c c' :
  wf c -> (opcode = 0x00EE ∨ Z.land opcode 0xF000 = 0x2000) -> execute rnd opcode c = Ok c' ->
  delay_timer c' = delay_timer c ∧ sound_timer c' = sound_timer c ∧ keypad c' = keypad c ∧
  (sp c <= STACK_SIZE -> sp c' <= STACK_SIZE).
Proof.
  intros Hwf [->|Hf] H; pose proof (wf_sp _ Hwf); unfold is_u8 in *.
  - destruct (decide (sp c = 0)) as [Hz|Hz]; [by rewrite execute_ret_underflow in H|].
    destruct (decide (sp c <= STACK_SIZE)) as [Hs|Hs];
      [|by rewrite execute_ret_overflow in H by (done || lia)].
    rewrite execute_ret in H by (done || lia). simplify_eq. cbn. repeat split. zlia.
  - destruct (decide (sp c < STACK_SIZE)) as [Hs|Hs].
    + rewrite execute_call in H by done. simplify_eq. cbn. repeat split. unfold STACK_SIZE in *. zlia.
    + by rewrite execute_call_overflow in H by (done || lia).
Qed.

(** A cycle that returns keeps [wf] and keeps the stack pointer within the
    sixteen slots. *)
Lemma cycle_invariant rnd c c' :
  wf c -> sp c <= STACK_SIZE -> chip8_cycle rnd c = Ok c' -> wf c' ∧ sp c' <= STACK_SIZE.
Proof.
  intros Hwf Hsp H. unfold chip8_cycle in H. inv_result. split; [eauto using wf_execute|].
  destruct (execute_ctl rnd a c c' Hwf H) as [(-> & _)|[Hop|[Hop|(_ & _ & -> & _)]]]; [done| | |done];
    eapply execute_stack_ops; eauto.
Qed.

(** C29. Instruction execution never changes the timers or the keypad:
    only [Fx15] and [Fx18] write a timer, and no instruction writes a key
    (spec sections 3, 4.4 and 4.5). *)
Theorem chip8_cycle_timers_keys rnd c opcode c' :
  wf c -> fetch c = Ok opcode -> chip8_cycle rnd c = Ok c' ->
  keypad c' = keypad c ∧
  (¬ (Z.land opcode 0xF000 = 0xF000 ∧ (op_kk opcode = 0x15 ∨ op_kk opcode = 0x18)) ->
   delay_timer c' = delay_timer c ∧ sound_timer c' = sound_timer c).
Proof.
  intros Hwf Hf H. unfold chip8_cycle in H. rewrite Hf in H. cbn [mbind result_bind] in H.
  destruct (execute_ctl rnd opcode c c' Hwf H) as [(_ & _ & ? & ? & ?)|[Hop|[Hop|(Hk & Hkk & _ & _ & ?)]]];
    try by (destruct (execute_stack_ops rnd opcode c c' Hwf ltac:(auto) H) as (? & ? & ? & _)).
  - by split.
  - split; [done|]. intros Hn. exfalso. by apply Hn.
Qed.

(** C7. Call-stack faults (spec section 7 leaves them unchecked): a call
    [2nnn] with all sixteen slots used writes [stack[16]] and a return
    [00EE] with an empty stack decrements [sp] to 255 and reads
    [stack[255]]; both are out-of-bounds accesses, undefined in C. *)
Theorem chip8_cycle_stack_faults rnd c opcode :
  wf c -> fetch c = Ok opcode ->
  (Z.land opcode 0xF000 = 0x2000 -> STACK_SIZE <= sp c ->
     chip8_cycle rnd c = Fault (StackOutOfBounds (sp c))) ∧
  (opcode = 0x00EE -> sp c = 0 -> chip8_cycle rnd c = Fault (StackOutOfBounds 255)).
Proof.
  intros Hwf Hf. unfold chip8_cycle. rewrite Hf. cbn [mbind result_bind].
  split; intros; subst; [by apply execute_call_overflow | by apply execute_ret_underflow].
Qed.

(** C6. Call and return (spec section 4.2): a call [2nnn] pushes the
    address of the next instruction and jumps to [nnn]; a return [00EE]
    found there pops it, so after the two steps the machine is the one
    before the call with [pc] advanced past the call (the pushed address
    stays in the now unused stack slot). *)
Theorem chip8_cycle_call_return rnd rnd' c nnn :
  wf c -> sp c < STACK_SIZE -> pc c + 1 < MEMORY_SIZE -> 0 <= nnn -> nnn + 1 < MEMORY_SIZE ->
  (memory c).[pc c] = 0x20 + nnn / 256 -> (memory c).[pc c + 1] = nnn mod 256 ->
  (memory c).[nnn] = 0x00 -> (memory c).[nnn + 1] = 0xEE ->
  ∃ c1 c2, chip8_cycle rnd c = Ok c1 ∧ pc c1 = nnn ∧ sp c1 = sp c + 1 ∧
    chip8_cycle rnd' c1 = Ok c2 ∧ c2 = set_pc (set_stack c (stack c1)) (pc c + 2).
Proof.
  intros Hwf Hsp Hpc Hn0 Hn Hhi Hlo Hr0 Hr1.
  pose proof (wf_sp _ Hwf). pose proof (wf_pc _ Hwf). unfold is_u8, is_u16, MEMORY_SIZE, STACK_SIZE in *.
  rewrite (chip8_cycle_fetch rnd c _ _ Hwf Hpc Hhi Hlo).
  rewrite execute_call by (done || rewrite land_F000; zlia).
  rewrite op_nnn_eq. replace (((0x20 + nnn / 256) * 256 + nnn mod 256) mod 4096) with nnn by zlia.
  eexists _, _. split; [reflexivity|].
  set (c1 := set_pc (set_sp (set_stack c _) _) nnn).
  assert (Hwf1 : wf c1) by (subst c1; apply wf_set_pc, wf_set_sp; wf_rebuild Hwf).
  assert (Hpc1 : pc c1 = nnn) by (cbn; zlia). assert (Hsp1 : sp c1 = sp c + 1) by (cbn; zlia).
  split; [done|]. split; [done|].
  rewrite (chip8_cycle_fetch rnd' c1 0 0xEE Hwf1) by (rewrite Hpc1; (done || unfold MEMORY_SIZE; lia)).
  change (0 * 256 + 0xEE) with 0x00EE. rewrite execute_ret by (done || rewrite Hsp1; unfold STACK_SIZE; lia).
  split; [reflexivity|]. fold c1.
  assert (Hst : (stack c1).[sp c] = pc c + 2).
  { subst c1. cbn [stack set_pc set_sp set_stack].
    rewrite zlookup_insert_eq by (rewrite (wf_stack_len _ Hwf); unfold STACK_SIZE; lia). zlia. }
  rewrite Hsp1, Z.add_simpl_r, Hst. subst c1. destruct c. unfold set_pc, set_sp, set_stack. cbn in *. f_equal; zlia.
Qed.

(** The fields of the instruction with top nibble [f] and low twelve
    bits [r]. *)
Lemma fields_at f r :
  0 <= f < 16 -> 0 <= r < 4096 ->
  Z.land (f * 4096 + r) 0xF000 = f * 4096 ∧
  op_nnn (f * 4096 + r) = r ∧ op_x (f * 4096 + r) = r / 256 ∧ op_kk (f * 4096 + r) = r mod 256 ∧
  op_y (f * 4096 + r) = (r / 16) mod 16 ∧ op_n (f * 4096 + r) = r mod 16.
Proof.
  intros Hf Hr. rewrite land_F000_family, op_nnn_eq, op_x_eq, op_kk_eq, op_y_eq, op_n_eq by lia.
  repeat split; zlia.
Qed.

(** A cycle at an instruction given by its top nibble [f] and its low
    twelve bits [r], stored big-endian at [pc]. *)
Lemma chip8_cycle_at rnd c f r :
  wf c -> pc c + 1 < MEMORY_SIZE -> 0 <= f < 16 -> 0 <= r < 4096 ->
  (memory c).[pc c] = f * 16 + r / 256 -> (memory c).[pc c + 1] = r mod 256 ->
  chip8_cycle rnd c = execute rnd (f * 4096 + r) c ∧ Z.land (f * 4096 + r) 0xF000 = f * 4096 ∧
  op_nnn (f * 4096 + r) = r ∧ op_x (f * 4096 + r) = r / 256 ∧ op_kk (f * 4096 + r) = r mod 256 ∧
  op_y (f * 4096 + r) = (r / 16) mod 16 ∧ op_n (f * 4096 + r) = r mod 16.
Proof.
  intros Hwf Hpc Hf Hr Hhi Hlo. rewrite (chip8_cycle_fetch rnd c _ _ Hwf Hpc Hhi Hlo).
  replace ((f * 16 + r / 256) * 256 + r mod 256) with (f * 4096 + r) by zlia.
  split; [done|]. by apply fields_at.
Qed.

Lemma set_pc_set_pc c p q : set_pc (set_pc c p) q = set_pc c q.
Proof. done. Qed.

Lemma set_pc_id c : wf c -> set_pc c (pc c) = c.
Proof.
  intros Hwf. pose proof (wf_pc _ Hwf). destruct c. unfold set_pc. cbn in *. f_equal. by apply u16_id.
Qed.

(** A cycle at [Fx0A]. *)
Lemma cycle_wait_key rnd c x :
  wf c -> pc c + 1 < MEMORY_SIZE -> 0 <= x < NUM_REGISTERS ->
  (memory c).[pc c] = 0xF0 + x -> (memory c).[pc c + 1] = 0x0A ->
  ((∀ k, 0 <= k < NUM_KEYS -> (keypad c).[k] = 0) -> chip8_cycle rnd c = Ok c) ∧
  (∀ k, 0 <= k < NUM_KEYS -> (keypad c).[k] ≠ 0 -> (∀ j, 0 <= j < k -> (keypad c).[j] = 0) ->
     chip8_cycle rnd c = Ok (set_reg (set_pc c (pc c + 2)) x k)).
Proof.
  intros Hwf Hpc Hx Hhi Hlo. pose proof (wf_pc _ Hwf). unfold is_u16, NUM_REGISTERS, NUM_KEYS, MEMORY_SIZE in *.
  destruct (chip8_cycle_at rnd c 15 (x * 256 + 0x0A) Hwf Hpc) as (-> & Hf & _ & Hox & Hkk & _);
    [lia|lia|rewrite Hhi; zlia|rewrite Hlo; zlia|].
  exec_family Hf. rewrite Hox, Hkk. replace ((x * 256 + 10) / 256) with x by zlia.
  replace ((x * 256 + 10) mod 256) with 10 by zlia. cbn [execute_misc]. split.
  - intros Hnone. rewrite wait_key_none by (intros k Hk; apply Hnone; rewrite Z2Nat.id in Hk; unfold NUM_KEYS in *; lia).
    cbn [wait_key_end mbind result_bind]. rewrite set_pc_set_pc. change (pc (set_pc c (pc c + 2))) with (u16 (pc c + 2)).
    replace (u16 (pc c + 2) - 2) with (pc c) by zlia. by rewrite set_pc_id.
  - intros k Hk Hheld Hbefore. rewrite (wait_key_first _ _ _ 0 k) by (done || rewrite Z2Nat.id; unfold NUM_KEYS; lia). done.
Qed.

(** C27. [Fx0A] over a whole cycle (spec section 8): with no key held the
    cycle leaves the machine exactly as it was, so the same instruction is
    fetched again (net [pc] unchanged); with a key held, the lowest held
    key is stored in [Vx] and [pc] advances by two. *)
Theorem chip8_cycle_wait_key rnd c x :
  wf c -> pc c + 1 < MEMORY_SIZE -> 0 <= x < NUM_REGISTERS ->
  (memory c).[pc c] = 0xF0 + x -> (memory c).[pc c + 1] = 0x0A ->
  ((∀ k, 0 <= k < NUM_KEYS -> (keypad c).[k] = 0) -> chip8_cycle rnd c = Ok c) ∧
  (∀ k, 0 <= k < NUM_KEYS -> (keypad c).[k] ≠ 0 -> (∀ j, 0 <= j < k -> (keypad c).[j] = 0) ->
     ∃ c', chip8_cycle rnd c = Ok c' ∧ pc c' = pc c + 2 ∧ reg c' x = k ∧
       (∀ q, 0 <= q -> q ≠ x -> reg c' q = reg c q)).
Proof.
  intros Hwf Hpc Hx Hhi Hlo. destruct (cycle_wait_key rnd c x Hwf Hpc Hx Hhi Hlo) as [Hnone Hkey].
  split; [done|]. intros k Hk Hheld Hbefore. eexists. split; [by apply Hkey|].
  pose proof (wf_pc _ Hwf). unfold is_u16, MEMORY_SIZE, NUM_KEYS in *.
  split; [cbn; zlia|]. split; [|intros q ??]; simp_reg; [|done]. apply u8_id. unfold is_u8. lia.
Qed.

Lemma set_pc_advance c a : set_pc (set_pc c a) (pc (set_pc c a) + 2) = set_pc c (a + 2).
Proof. unfold set_pc. cbn. f_equal. zlia. Qed.

Lemma skip_if_advance c b :
  skip_if (set_pc c (pc c + 2)) b = set_pc c (pc c + if b then 4 else 2).
Proof.
  unfold skip_if. destruct b; [|done]. rewrite set_pc_advance. f_equal. lia.
Qed.

Lemma reg_set_pc c p x : reg (set_pc c p) x = reg c x.
Proof. done. Qed.
Lemma key_of_set_pc c p x : key_of (set_pc c p) x = key_of c x.
Proof. done. Qed.

(** ** The remaining instruction families *)

(** [execute] at the instruction with top nibble [f] and low bits [r],
    with its fields named. *)
Lemma execute_at rnd c f r :
  0 <= f < 16 -> 0 <= r < 4096 ->
  execute rnd (f * 4096 + r) c =
  (let x := r / 256 in let y := (r / 16) mod 16 in let kk := r mod 256 in
   let d := set_pc c (pc c + 2) in
   match f with
   | 0x0 =>
       if decide (f * 4096 + r = 0x00E0) then
         Ok (set_draw_flag (set_display d (replicate (Z.to_nat DISPLAY_HEIGHT) 0)) true)
       else if decide (f * 4096 + r = 0x00EE) then
         let d := set_sp d (sp d - 1) in p ← stack_read d (sp d); Ok (set_pc d p)
       else Ok d
   | 0x1 => Ok (set_pc d r)
   | 0x2 => d ← stack_write d (sp d) (pc d); let d := set_sp d (sp d + 1) in Ok (set_pc d r)
   | 0x3 => Ok (skip_if d (bool_decide (reg c x = kk)))
   | 0x4 => Ok (skip_if d (bool_decide (reg c x ≠ kk)))
   | 0x5 => Ok (skip_if d (bool_decide (reg c x = reg c y)))
   | 0x6 => Ok (set_reg d x kk)
   | 0x7 => Ok (set_reg d x (reg c x + kk))
   | 0x8 => Ok (execute_arithmetic d x y (r mod 16))
   | 0x9 => Ok (skip_if d (bool_decide (reg c x ≠ reg c y)))
   | 0xA => Ok (set_I d r)
   | 0xB => Ok (set_pc d (r + reg c 0))
   | 0xC => Ok (set_reg d x (Z.land (Z.rem rnd 256) kk))
   | 0xD => execute_draw d x y (r mod 16)
   | 0xE =>
       if bool_decide (kk = 0x9E) && bool_decide (key_of c x ≠ 0) then Ok (set_pc d (pc d + 2))
       else if bool_decide (kk = 0xA1) && bool_decide (key_of c x = 0) then Ok (set_pc d (pc d + 2))
       else Ok d
   | 0xF => execute_misc d x kk
   | _ => Ok d
   end).
Proof.
  intros Hf Hr. destruct (fields_at f r Hf Hr) as (Hfam & Hnnn & Hx & Hkk & Hy & Hn).
  unfold execute. rewrite Hfam, Hnnn, Hx, Hkk, Hy, Hn.
  assert (f = 0 ∨ f = 1 ∨ f = 2 ∨ f = 3 ∨ f = 4 ∨ f = 5 ∨ f = 6 ∨ f = 7 ∨ f = 8 ∨ f = 9 ∨ f = 10 ∨
          f = 11 ∨ f = 12 ∨ f = 13 ∨ f = 14 ∨ f = 15) as Hcases by lia.
  repeat destruct Hcases as [->|Hcases]; [..|subst]; reflexivity.
Qed.

Section Families.
Context (rnd : Z) (c : chip8_t) (Hwf : wf c) (Hpc : pc c + 1 < MEMORY_SIZE).

(** The cycle at the instruction with top nibble [f] and low bits [r]. *)
Lemma family_at f r :
  0 <= f < 16 -> 0 <= r < 4096 ->
  (memory c).[pc c] = f * 16 + r / 256 -> (memory c).[pc c + 1] = r mod 256 ->
  chip8_cycle rnd c = execute rnd (f * 4096 + r) c.
Proof. intros Hf Hr Hhi Hlo. exact (proj1 (chip8_cycle_at rnd c f r Hwf Hpc Hf Hr Hhi Hlo)). Qed.

(** Rewrite a cycle at a known instruction into its family's branch. *)
Ltac at_family f r :=
  rewrite (family_at f r) by
    (zlia || match goal with H : (memory _).[_] = _ |- (memory _).[_] = _ => rewrite H; zlia end);
  rewrite (execute_at _ _ f r) by zlia; cbv beta iota zeta.

(** C23. The conditional skips (spec section 4.2): [3xkk], [4xkk],
    [5xy_], [9xy_], [Ex9E] and [ExA1] advance [pc] by four when their
    condition holds and by two otherwise.  [5xyn] and [9xyn] test
    [Vx = Vy] whatever the low nibble [n] is. *)
Theorem chip8_cycle_skips x kk :
  0 <= x < 16 -> 0 <= kk < 256 -> (memory c).[pc c + 1] = kk ->
  ((memory c).[pc c] = 0x30 + x ->
     chip8_cycle rnd c = Ok (set_pc c (pc c + if bool_decide (reg c x = kk) then 4 else 2))) ∧
  ((memory c).[pc c] = 0x40 + x ->
     chip8_cycle rnd c = Ok (set_pc c (pc c + if bool_decide (reg c x ≠ kk) then 4 else 2))) ∧
  ((memory c).[pc c] = 0x50 + x ->
     chip8_cycle rnd c = Ok (set_pc c (pc c + if bool_decide (reg c x = reg c (kk / 16)) then 4 else 2))) ∧
  ((memory c).[pc c] = 0x90 + x ->
     chip8_cycle rnd c = Ok (set_pc c (pc c + if bool_decide (reg c x ≠ reg c (kk / 16)) then 4 else 2))) ∧
  ((memory c).[pc c] = 0xE0 + x -> kk = 0x9E ->
     chip8_cycle rnd c = Ok (set_pc c (pc c + if bool_decide (key_of c x ≠ 0) then 4 else 2))) ∧
  ((memory c).[pc c] = 0xE0 + x -> kk = 0xA1 ->
     chip8_cycle rnd c = Ok (set_pc c (pc c + if bool_decide (key_of c x = 0) then 4 else 2))).
Proof.
  intros Hx Hkk Hlo.
  replace ((kk / 16) mod 16) with (kk / 16) in * by zlia.
  assert (Hr : (x * 256 + kk) / 256 = x ∧ (x * 256 + kk) mod 256 = kk ∧ ((x * 256 + kk) / 16) mod 16 = kk / 16)
    by (repeat split; zlia).
  destruct Hr as (Hrx & Hrk & Hry).
  split; [|split; [|split; [|split; [|split]]]]; intros Hhi; try intros ->.
  - at_family 3 (x * 256 + kk). rewrite Hrx, Hrk, skip_if_advance. done.
  - at_family 4 (x * 256 + kk). rewrite Hrx, Hrk, skip_if_advance. done.
  - at_family 5 (x * 256 + kk). rewrite Hrx, Hry, skip_if_advance. done.
  - at_family 9 (x * 256 + kk). rewrite Hrx, Hry, skip_if_advance. done.
  - at_family 14 (x * 256 + 0x9E). rewrite Hrx, Hrk. rewrite set_pc_advance.
    repeat case_bool_decide; cbn; try (exfalso; lia); try tauto; do 2 f_equal; lia.
  - at_family 14 (x * 256 + 0xA1). rewrite Hrx, Hrk. rewrite set_pc_advance.
    repeat case_bool_decide; cbn; try (exfalso; lia); try tauto; do 2 f_equal; lia.
Qed.

Lemma pc_advance : pc (set_pc c (pc c + 2)) = pc c + 2.
Proof. pose proof (wf_pc _ Hwf). unfold is_u16, MEMORY_SIZE in *. cbn. zlia. Qed.

(** C24. Register loads (spec section 4.2): [6xkk] sets [Vx] to [kk];
    [7xkk] adds [kk] modulo 256 and leaves every other register, [VF]
    included, unchanged (no carry flag); [Annn] sets [I] to [nnn]; [Cxkk]
    sets [Vx] to the random byte masked with [kk].  Each advances [pc] by
    two. *)
Theorem chip8_cycle_loads x kk :
  0 <= x < NUM_REGISTERS -> 0 <= kk < 256 -> (memory c).[pc c + 1] = kk ->
  ((memory c).[pc c] = 0x60 + x -> ∃ c', chip8_cycle rnd c = Ok c' ∧ reg c' x = kk ∧
     (∀ q, 0 <= q -> q ≠ x -> reg c' q = reg c q) ∧ pc c' = pc c + 2) ∧
  ((memory c).[pc c] = 0x70 + x -> ∃ c', chip8_cycle rnd c = Ok c' ∧ reg c' x = (reg c x + kk) mod 256 ∧
     (∀ q, 0 <= q -> q ≠ x -> reg c' q = reg c q) ∧ pc c' = pc c + 2) ∧
  ((memory c).[pc c] = 0xA0 + x -> ∃ c', chip8_cycle rnd c = Ok c' ∧ I c' = x * 256 + kk ∧
     V c' = V c ∧ pc c' = pc c + 2) ∧
  ((memory c).[pc c] = 0xC0 + x -> 0 <= rnd -> ∃ c', chip8_cycle rnd c = Ok c' ∧
     reg c' x = Z.land (rnd mod 256) kk ∧ (∀ q, 0 <= q -> q ≠ x -> reg c' q = reg c q) ∧ pc c' = pc c + 2).
Proof.
  intros Hx Hkk Hlo. pose proof pc_advance as Hadv. unfold NUM_REGISTERS in Hx.
  assert (Hr : (x * 256 + kk) / 256 = x ∧ (x * 256 + kk) mod 256 = kk) by (split; zlia).
  destruct Hr as (Hrx & Hrk).
  split; [|split; [|split]]; intros Hhi; [..|intros Hrnd].
  - at_family 6 (x * 256 + kk). rewrite Hrx, Hrk. eexists. split; [reflexivity|].
    split; [|split]; [|intros q ??|done]; simp_reg; [apply u8_id; unfold is_u8; lia|done].
  - at_family 7 (x * 256 + kk). rewrite Hrx, Hrk. eexists. split; [reflexivity|].
    split; [|split]; [|intros q ??|done]; simp_reg; [reflexivity|done].
  - at_family 10 (x * 256 + kk). eexists. split; [reflexivity|]. cbn. split; [|done]. zlia.
  - at_family 12 (x * 256 + kk). rewrite Hrx, Hrk. eexists. split; [reflexivity|].
    rewrite Z.rem_mod_nonneg by lia.
    split; [|split]; [|intros q ??|done]; simp_reg; [|done].
    apply u8_id. apply land_u8_u8; unfold is_u8; zlia.
Qed.

(** C25. Jumps (spec section 4.2): [1nnn] sets [pc] to [nnn] and [Bnnn]
    to [nnn + V0], changing nothing else.  [nnn + V0] can reach [0x10FE],
    past the end of memory, and the next fetch is then undefined. *)
Theorem chip8_cycle_jumps nnn :
  0 <= nnn < 4096 -> (memory c).[pc c + 1] = nnn mod 256 ->
  ((memory c).[pc c] = 0x10 + nnn / 256 ->
     ∃ c', chip8_cycle rnd c = Ok c' ∧ pc c' = nnn ∧ set_pc c' (pc c) = c) ∧
  ((memory c).[pc c] = 0xB0 + nnn / 256 ->
     ∃ c', chip8_cycle rnd c = Ok c' ∧ pc c' = nnn + reg c 0 ∧ set_pc c' (pc c) = c ∧
       (MEMORY_SIZE <= nnn + reg c 0 + 1 -> ∃ a, fetch c' = Fault (MemoryOutOfBounds a))).
Proof.
  intros Hn Hlo. pose proof (reg_u8 c Hwf 0 ltac:(unfold NUM_REGISTERS; lia)). unfold is_u8 in *.
  split; intros Hhi.
  - at_family 1 nnn. eexists. split; [reflexivity|]. split; [cbn; zlia|]. rewrite !set_pc_set_pc. by apply set_pc_id.
  - at_family 11 nnn. eexists. split; [reflexivity|]. split; [cbn; zlia|]. split; [rewrite !set_pc_set_pc; by apply set_pc_id|].
    intros Hout. apply fetch_out; [eauto with chip8|]. cbn. zlia.
Qed.

Lemma replicate_0_lookup n i : 0 <= i < Z.of_nat n -> (replicate n 0).[i] = 0.
Proof. intros. apply lookup_total_replicate_2. lia. Qed.

(** [00E0] (spec section 8): after the cycle every pixel of the
    screen is unlit and the mutation flag is set; only [display],
    [draw_flag] and [pc] (advanced by two) change. *)
Theorem chip8_cycle_clear :
  (memory c).[pc c] = 0x00 -> (memory c).[pc c + 1] = 0xE0 ->
  ∃ c', chip8_cycle rnd c = Ok c' ∧
    (∀ px py, 0 <= py < DISPLAY_HEIGHT -> pixel c' px py = false) ∧ draw_flag c' = true ∧
    pc c' = pc c + 2 ∧ set_draw_flag (set_display (set_pc c' (pc c)) (display c)) (draw_flag c) = c.
Proof.
  intros Hhi Hlo. pose proof pc_advance as Hadv. at_family 0 0xE0.
  eexists. split; [reflexivity|]. split; [|split; [done|split; [done|]]].
  - intros px py Hpy. unfold pixel, row_of. cbn. rewrite replicate_0_lookup by (unfold DISPLAY_HEIGHT in *; lia).
    apply Z.testbit_0_l.
  - destruct c. unfold set_draw_flag, set_display, set_pc. cbn. f_equal. apply u16_id, (wf_pc _ Hwf).
Qed.

(** C26. Unrecognised instructions of a recognised family are no-ops
    (spec section 4.2): [0nnn] other than [00E0] and [00EE], [8xyn] with
    [n] outside the table, [Ex__] other than [Ex9E] and [ExA1], and
    [Fx__] outside the handled bytes only advance [pc] by two. *)
Theorem chip8_cycle_unknown hi lo :
  (memory c).[pc c] = hi -> (memory c).[pc c + 1] = lo ->
  ((hi < 0x10 ∧ hi * 256 + lo ≠ 0x00E0 ∧ hi * 256 + lo ≠ 0x00EE) ∨
   (hi / 16 = 0x8 ∧ lo mod 16 ∉ alu_ops) ∨ (hi / 16 = 0xE ∧ lo ≠ 0x9E ∧ lo ≠ 0xA1) ∨
   (hi / 16 = 0xF ∧ lo ∉ misc_ops)) ->
  chip8_cycle rnd c = Ok (set_pc c (pc c + 2)).
Proof.
  intros Hhi Hlo Hcase.
  pose proof (mem_u8 c (pc c) Hwf ltac:(pose proof (wf_pc _ Hwf); unfold is_u16, MEMORY_SIZE in *; lia)).
  pose proof (mem_u8 c (pc c + 1) Hwf ltac:(pose proof (wf_pc _ Hwf); unfold is_u16, MEMORY_SIZE in *; lia)).
  rewrite Hhi, Hlo in *. unfold is_u8 in *.
  assert (Hlo' : ((hi mod 16) * 256 + lo) mod 256 = lo ∧ ((hi mod 16) * 256 + lo) mod 16 = lo mod 16 ∧
                 ((hi mod 16) * 256 + lo) / 256 = hi mod 16) by (repeat split; zlia).
  destruct Hlo' as (Hk & Hn & Hx).
  destruct Hcase as [(Hh & Hne0 & Hne1)|[(Hh & Hop)|[(Hh & Hne0 & Hne1)|(Hh & Hop)]]].
  - at_family 0 ((hi mod 16) * 256 + lo). rewrite !decide_False by zlia. done.
  - at_family 8 ((hi mod 16) * 256 + lo). rewrite Hn, execute_arithmetic_other by done. done.
  - at_family 14 ((hi mod 16) * 256 + lo). rewrite Hk.
    rewrite !(bool_decide_eq_false_2 (lo = _)) by done. done.
  - at_family 15 ((hi mod 16) * 256 + lo). rewrite Hk, execute_misc_other by done. done.
Qed.
End Families.

(** ** Witnesses: programs loaded at [0x200] into a fresh machine *)

Lemma fetch_spec_witness : fetch (boot [xa2; xf0]) = Ok 0xA2F0.
Proof.
  rewrite (proj1 (fetch_spec (boot [xa2; xf0]) ltac:(decide_closed)) ltac:(decide_closed)).
  reflexivity.
Defined.

Lemma decode_fields_witness :
  op_x 0xD015 = 0 ∧ op_y 0xD015 = 1 ∧ op_n 0xD015 = 5 ∧ op_kk 0xD015 = 0x15 ∧ op_nnn 0xD015 = 0x015.
Proof.
  destruct (decode_fields 0xD015 ltac:(decide_closed)) as (-> & -> & -> & -> & -> & _).
  repeat split; reflexivity.
Defined.

Lemma chip8_cycle_timers_keys_witness :
  match chip8_cycle 0 (set_delay_timer (boot [x6a; x05]) 7) with
  | Ok c' => delay_timer c' = 7
  | Fault _ => False
  end.
Proof.
  destruct (chip8_cycle 0 (set_delay_timer (boot [x6a; x05]) 7)) as [c'|f] eqn:E;
    [|vm_compute in E; discriminate].
  destruct (chip8_cycle_timers_keys 0 (set_delay_timer (boot [x6a; x05]) 7) 0x6A05 c' ltac:(decide_closed) ltac:(reflexivity) E)
    as (_ & Ht). rewrite (proj1 (Ht ltac:(decide_closed))). reflexivity.
Defined.

Lemma chip8_cycle_stack_faults_witness :
  chip8_cycle 0 (boot [x00; xee]) = Fault (StackOutOfBounds 255) ∧
  chip8_cycle 0 (set_sp (boot [x22; x00]) 16) = Fault (StackOutOfBounds 16).
Proof.
  split.
  - apply (proj2 (chip8_cycle_stack_faults 0 (boot [x00; xee]) 0x00EE ltac:(decide_closed)
      ltac:(reflexivity))); reflexivity.
  - apply (proj1 (chip8_cycle_stack_faults 0 (set_sp (boot [x22; x00]) 16) 0x2200
      ltac:(decide_closed) ltac:(reflexivity))); decide_closed.
Defined.

(** [0x200: 2204] calls the routine at [0x204: 00EE], which returns to
    [0x202]. *)
Lemma chip8_cycle_call_return_witness :
  ∃ c1 c2, chip8_cycle 0 (boot [x22; x04; x00; x00; x00; xee]) = Ok c1 ∧ pc c1 = 0x204 ∧
    chip8_cycle 0 c1 = Ok c2 ∧ pc c2 = 0x202.
Proof.
  destruct (chip8_cycle_call_return 0 0 (boot [x22; x04; x00; x00; x00; xee]) 0x204
    ltac:(decide_closed) ltac:(decide_closed) ltac:(decide_closed) ltac:(decide_closed) ltac:(decide_closed)
    ltac:(reflexivity) ltac:(reflexivity) ltac:(reflexivity) ltac:(reflexivity))
    as (c1 & c2 & H1 & Hp1 & _ & H2 & ->).
  exists c1, (set_pc (set_stack (boot [x22; x04; x00; x00; x00; xee]) (stack c1)) (0x200 + 2)).
  repeat split; try done.
Defined.

Lemma chip8_cycle_wait_key_witness :
  chip8_cycle 0 (boot [xf3; x0a]) = Ok (boot [xf3; x0a]) ∧
  ∃ c', chip8_cycle 0 (set_keypad (boot [xf3; x0a]) ((keypad (boot [xf3; x0a])).[5 := 1])) = Ok c' ∧
    pc c' = 0x202 ∧ reg c' 3 = 5.
Proof.
  split.
  - apply (proj1 (chip8_cycle_wait_key 0 (boot [xf3; x0a]) 3 ltac:(decide_closed)
      ltac:(decide_closed) ltac:(decide_closed) ltac:(reflexivity) ltac:(reflexivity))).
    intros k Hk. change (keypad (boot [xf3; x0a])) with (replicate 16 0). apply replicate_0_lookup.
    unfold NUM_KEYS in Hk. lia.
  - destruct (proj2 (chip8_cycle_wait_key 0
      (set_keypad (boot [xf3; x0a]) ((keypad (boot [xf3; x0a])).[5 := 1])) 3 ltac:(decide_closed)
      ltac:(decide_closed) ltac:(decide_closed) ltac:(reflexivity) ltac:(reflexivity)) 5
      ltac:(decide_closed) ltac:(decide_closed)) as (c' & Hc & Hp & Hr & _).
    { intros j Hj. destruct (decide (j = 0 ∨ j = 1 ∨ j = 2 ∨ j = 3 ∨ j = 4)) as [Hj'|]; [|lia].
      repeat destruct Hj' as [->|Hj']; subst; reflexivity. }
    exists c'. rewrite Hp, Hr. auto.
Defined.

(** [5121]: the low nibble is 1, not 0, and the code still skips when
    [V1 = V2]. *)
Lemma chip8_cycle_skips_witness :
  chip8_cycle 0 (boot [x51; x21]) = Ok (set_pc (boot [x51; x21]) (0x200 + 4)) ∧
  chip8_cycle 0 (boot [x35; x01]) = Ok (set_pc (boot [x35; x01]) (0x200 + 2)).
Proof.
  split.
  - rewrite (proj1 (proj2 (proj2 (chip8_cycle_skips 0 (boot [x51; x21]) ltac:(decide_closed)
      ltac:(decide_closed) 1 0x21 ltac:(lia) ltac:(lia) ltac:(reflexivity)))) ltac:(reflexivity)).
    reflexivity.
  - rewrite (proj1 (chip8_cycle_skips 0 (boot [x35; x01]) ltac:(decide_closed)
      ltac:(decide_closed) 5 0x01 ltac:(lia) ltac:(lia) ltac:(reflexivity)) ltac:(reflexivity)).
    reflexivity.
Defined.

(** Spec section 8: [6A05] sets [VA] to 5 and [A2F0] sets [I] to [0x2F0],
    each advancing [pc] by two. *)
Lemma chip8_cycle_loads_witness :
  (∃ c', chip8_cycle 0 (boot [x6a; x05]) = Ok c' ∧ reg c' 0xA = 5 ∧ pc c' = 0x202) ∧
  (∃ c', chip8_cycle 0 (boot [xa2; xf0]) = Ok c' ∧ I c' = 0x2F0 ∧ pc c' = 0x202).
Proof.
  split.
  - destruct (proj1 (chip8_cycle_loads 0 (boot [x6a; x05]) ltac:(decide_closed) ltac:(decide_closed)
      0xA 0x05 ltac:(decide_closed) ltac:(lia) ltac:(reflexivity)) ltac:(reflexivity))
      as (c' & Hc & Hr & _ & Hp). exists c'. rewrite Hp. auto.
  - destruct (proj1 (proj2 (proj2 (chip8_cycle_loads 0 (boot [xa2; xf0]) ltac:(decide_closed)
      ltac:(decide_closed) 0x2 0xF0 ltac:(decide_closed) ltac:(lia) ltac:(reflexivity))))
      ltac:(reflexivity)) as (c' & Hc & HI & _ & Hp). exists c'. rewrite Hp, HI. auto.
Defined.

(** [BFFF] with [V0 = 0xFF] jumps to [0x10FE], outside memory. *)
Lemma chip8_cycle_jumps_witness :
  ∃ c', chip8_cycle 0 (set_reg (boot [xbf; xff]) 0 0xFF) = Ok c' ∧ pc c' = 0x10FE ∧
    ∃ a, fetch c' = Fault (MemoryOutOfBounds a).
Proof.
  destruct (proj2 (chip8_cycle_jumps 0 (set_reg (boot [xbf; xff]) 0 0xFF) ltac:(decide_closed)
    ltac:(decide_closed) 0xFFF ltac:(lia) ltac:(reflexivity)) ltac:(reflexivity))
    as (c' & Hc & Hp & _ & Hf).
  exists c'. split; [done|]. split; [rewrite Hp; reflexivity|]. apply Hf. decide_closed.
Defined.

Lemma chip8_cycle_clear_witness :
  ∃ c', chip8_cycle 0 (set_row (boot [x00; xe0]) 3 0xFF) = Ok c' ∧ pixel c' 0 3 = false ∧
    pixel (set_row (boot [x00; xe0]) 3 0xFF) 0 3 = true.
Proof.
  destruct (chip8_cycle_clear 0 (set_row (boot [x00; xe0]) 3 0xFF) ltac:(decide_closed)
    ltac:(decide_closed) ltac:(reflexivity) ltac:(reflexivity)) as (c' & Hc & Hpx & _).
  exists c'. split; [done|]. split; [apply Hpx; unfold DISPLAY_HEIGHT; lia|reflexivity].
Defined.

Lemma chip8_cycle_unknown_witness :
  chip8_cycle 0 (boot [x01; x23]) = Ok (set_pc (boot [x01; x23]) (0x200 + 2)) ∧
  chip8_cycle 0 (boot [x81; x28]) = Ok (set_pc (boot [x81; x28]) (0x200 + 2)) ∧
  chip8_cycle 0 (boot [xf1; x00]) = Ok (set_pc (boot [xf1; x00]) (0x200 + 2)).
Proof.
  split; [|split].
  - rewrite (chip8_cycle_unknown 0 (boot [x01; x23]) ltac:(decide_closed) ltac:(decide_closed)
      0x01 0x23 ltac:(reflexivity) ltac:(reflexivity)) by (left; lia). reflexivity.
  - rewrite (chip8_cycle_unknown 0 (boot [x81; x28]) ltac:(decide_closed) ltac:(decide_closed)
      0x81 0x28 ltac:(reflexivity) ltac:(reflexivity)) by (right; left; split; [reflexivity|decide_closed]).
    reflexivity.
  - rewrite (chip8_cycle_unknown 0 (boot [xf1; x00]) ltac:(decide_closed) ltac:(decide_closed)
      0xF1 0x00 ltac:(reflexivity) ltac:(reflexivity)) by (right; right; right; split; [reflexivity|decide_closed]).
    reflexivity.
Defined.
