(* ===== verification/Isa.v ===== *)
(** * The instruction set as a tagged variant

    Spec section 9 describes the dispatch as "a decode step producing a
    tagged instruction variant, then a match over variants", and spec
    section 4.2 gives the table of patterns.  [instr] is that variant,
    [decode] reads an opcode by the table (an opcode no pattern matches is
    [I_NOP], the specified no-op), [encode] writes a variant back, and
    [exec_instr] runs a variant with the operations of the model.  The
    theorems relate them to the code: [encode]/[decode] are inverse, and
    [execute] (the [switch] of [chip8_cycle]) runs every opcode as
    [exec_instr] runs its decoding, except the [5xyn]/[9xyn] opcodes with
    [n <> 0], which the table leaves unmatched and the code executes. *)

From S2P Require Import Prelude Machine Loader Alu Display Misc Cycle.
From Stdlib Require Import Strings.Byte.

Inductive instr :=
| I_CLS | I_RET
| I_JP (nnn : Z) | I_CALL (nnn : Z)
| I_SE (x kk : Z) | I_SNE (x kk : Z) | I_SEr (x y : Z) | I_SNEr (x y : Z)
| I_LD (x kk : Z) | I_ADD (x kk : Z) | I_ALU (x y op : Z)
| I_LDI (nnn : Z) | I_JPV0 (nnn : Z) | I_RND (x kk : Z) | I_DRW (x y n : Z)
| I_SKP (x : Z) | I_SKNP (x : Z) | I_MISC (x op : Z)
| I_NOP.

#[export] Instance instr_eq_dec : EqDecision instr.
Proof. solve_decision. Defined.

(** The table of spec section 4.2, by top nibble. *)
Definition decode (op : Z) : instr :=
  let x := (op / 256) mod 16 in
  let y := (op / 16) mod 16 in
  let n := op mod 16 in
  let kk := op mod 256 in
  let nnn := op mod 4096 in
  match op / 4096 with
  | 0x0 => if decide (op = 0x00E0) then I_CLS else if decide (op = 0x00EE) then I_RET else I_NOP
  | 0x1 => I_JP nnn
  | 0x2 => I_CALL nnn
  | 0x3 => I_SE x kk
  | 0x4 => I_SNE x kk
  | 0x5 => if decide (n = 0) then I_SEr x y else I_NOP
  | 0x6 => I_LD x kk
  | 0x7 => I_ADD x kk
  | 0x8 => if decide (n ∈ alu_ops) then I_ALU x y n else I_NOP
  | 0x9 => if decide (n = 0) then I_SNEr x y else I_NOP
  | 0xA => I_LDI nnn
  | 0xB => I_JPV0 nnn
  | 0xC => I_RND x kk
  | 0xD => I_DRW x y n
  | 0xE => if decide (kk = 0x9E) then I_SKP x else if decide (kk = 0xA1) then I_SKNP x else I_NOP
  | 0xF => if decide (kk ∈ misc_ops) then I_MISC x kk else I_NOP
  | _ => I_NOP
  end.

(** The opcode of a variant: top nibble times [0x1000] plus the low twelve
    bits. *)
Definition encode (i : instr) : Z :=
  match i with
  | I_CLS => 0 * 4096 + 0x0E0 | I_RET => 0 * 4096 + 0x0EE
  | I_JP nnn => 1 * 4096 + nnn | I_CALL nnn => 2 * 4096 + nnn
  | I_SE x kk => 3 * 4096 + (x * 256 + kk) | I_SNE x kk => 4 * 4096 + (x * 256 + kk)
  | I_SEr x y => 5 * 4096 + (x * 256 + y * 16) | I_SNEr x y => 9 * 4096 + (x * 256 + y * 16)
  | I_LD x kk => 6 * 4096 + (x * 256 + kk) | I_ADD x kk => 7 * 4096 + (x * 256 + kk)
  | I_ALU x y op => 8 * 4096 + (x * 256 + y * 16 + op)
  | I_LDI nnn => 10 * 4096 + nnn | I_JPV0 nnn => 11 * 4096 + nnn
  | I_RND x kk => 12 * 4096 + (x * 256 + kk) | I_DRW x y n => 13 * 4096 + (x * 256 + y * 16 + n)
  | I_SKP x => 14 * 4096 + (x * 256 + 0x9E) | I_SKNP x => 14 * 4096 + (x * 256 + 0xA1)
  | I_MISC x op => 15 * 4096 + (x * 256 + op)
  | I_NOP => 0 * 4096 + 0
  end.

Definition nib (v : Z) : bool := bool_decide (0 <= v < 16).
Definition byte8 (v : Z) : bool := bool_decide (0 <= v < 256).
Definition addr12 (v : Z) : bool := bool_decide (0 <= v < 4096).

(** The fields of a variant fit their bits, and the sub-operations are the
    ones the table lists. *)
Definition valid_instr (i : instr) : bool :=
  match i with
  | I_CLS | I_RET | I_NOP => true
  | I_JP nnn | I_CALL nnn | I_LDI nnn | I_JPV0 nnn => addr12 nnn
  | I_SE x kk | I_SNE x kk | I_LD x kk | I_ADD x kk | I_RND x kk => nib x && byte8 kk
  | I_SEr x y | I_SNEr x y => nib x && nib y
  | I_ALU x y op => nib x && nib y && bool_decide (op ∈ alu_ops)
  | I_DRW x y n => nib x && nib y && nib n
  | I_SKP x | I_SKNP x => nib x
  | I_MISC x op => nib x && bool_decide (op ∈ misc_ops)
  end.

(** What each variant does, after the fetch: the operations of the model,
    with [pc] advanced by two first. *)
Definition exec_instr (rnd : Z) (i : instr) (c : chip8_t) : result chip8_t :=
  let d := set_pc c (pc c + 2) in
  match i with
  | I_CLS => Ok (set_draw_flag (set_display d (replicate (Z.to_nat DISPLAY_HEIGHT) 0)) true)
  | I_RET => let d := set_sp d (sp d - 1) in p ← stack_read d (sp d); Ok (set_pc d p)
  | I_JP nnn => Ok (set_pc d nnn)
  | I_CALL nnn => d ← stack_write d (sp d) (pc d); Ok (set_pc (set_sp d (sp d + 1)) nnn)
  | I_SE x kk => Ok (skip_if d (bool_decide (reg c x = kk)))
  | I_SNE x kk => Ok (skip_if d (bool_decide (reg c x ≠ kk)))
  | I_SEr x y => Ok (skip_if d (bool_decide (reg c x = reg c y)))
  | I_SNEr x y => Ok (skip_if d (bool_decide (reg c x ≠ reg c y)))
  | I_LD x kk => Ok (set_reg d x kk)
  | I_ADD x kk => Ok (set_reg d x (reg c x + kk))
  | I_ALU x y op => Ok (execute_arithmetic d x y op)
  | I_LDI nnn => Ok (set_I d nnn)
  | I_JPV0 nnn => Ok (set_pc d (nnn + reg c 0))
  | I_RND x kk => Ok (set_reg d x (Z.land (Z.rem rnd 256) kk))
  | I_DRW x y n => execute_draw d x y n
  | I_SKP x => Ok (skip_if d (bool_decide (key_of c x ≠ 0)))
  | I_SKNP x => Ok (skip_if d (bool_decide (key_of c x = 0)))
  | I_MISC x op => execute_misc d x op
  | I_NOP => Ok d
  end.

(** ** Decoding by nibble *)

Lemma decode_at f r :
  0 <= f < 16 -> 0 <= r < 4096 ->
  decode (f * 4096 + r) =
  (let x := r / 256 in let y := (r / 16) mod 16 in let n := r mod 16 in let kk := r mod 256 in
   match f with
   | 0x0 => if decide (f * 4096 + r = 0x00E0) then I_CLS
            else if decide (f * 4096 + r = 0x00EE) then I_RET else I_NOP
   | 0x1 => I_JP r
   | 0x2 => I_CALL r
   | 0x3 => I_SE x kk
   | 0x4 => I_SNE x kk
   | 0x5 => if decide (n = 0) then I_SEr x y else I_NOP
   | 0x6 => I_LD x kk
   | 0x7 => I_ADD x kk
   | 0x8 => if decide (n ∈ alu_ops) then I_ALU x y n else I_NOP
   | 0x9 => if decide (n = 0) then I_SNEr x y else I_NOP
   | 0xA => I_LDI r
   | 0xB => I_JPV0 r
   | 0xC => I_RND x kk
   | 0xD => I_DRW x y n
   | 0xE => if decide (kk = 0x9E) then I_SKP x else if decide (kk = 0xA1) then I_SKNP x else I_NOP
   | 0xF => if decide (kk ∈ misc_ops) then I_MISC x kk else I_NOP
   | _ => I_NOP
   end).
Proof.
  intros Hf Hr. unfold decode.
  replace ((f * 4096 + r) / 4096) with f by zlia.
  replace (((f * 4096 + r) / 256) mod 16) with (r / 256) by zlia.
  replace (((f * 4096 + r) / 16) mod 16) with ((r / 16) mod 16) by zlia.
  replace ((f * 4096 + r) mod 16) with (r mod 16) by zlia.
  replace ((f * 4096 + r) mod 256) with (r mod 256) by zlia.
  replace ((f * 4096 + r) mod 4096) with r by zlia.
  reflexivity.
Qed.

Lemma valid_fields x y :
  0 <= x < 16 -> 0 <= y < 16 ->
  ∀ k, 0 <= k < 16 ->
  (x * 256 + y * 16 + k) / 256 = x ∧ ((x * 256 + y * 16 + k) / 16) mod 16 = y ∧
  (x * 256 + y * 16 + k) mod 16 = k ∧ (x * 256 + y * 16 + k) mod 256 = y * 16 + k.
Proof. intros. repeat split; zlia. Qed.

Lemma opcode_split op : 0 <= op < 65536 -> op = op / 4096 * 4096 + op mod 4096 ∧ 0 <= op / 4096 < 16 ∧ 0 <= op mod 4096 < 4096.
Proof. intros. repeat split; zlia. Qed.

Ltac nibble_cases f :=
  let Hc := fresh in
  assert (f = 0 ∨ f = 1 ∨ f = 2 ∨ f = 3 ∨ f = 4 ∨ f = 5 ∨ f = 6 ∨ f = 7 ∨ f = 8 ∨ f = 9 ∨ f = 10 ∨
          f = 11 ∨ f = 12 ∨ f = 13 ∨ f = 14 ∨ f = 15) as Hc by lia;
  repeat destruct Hc as [->|Hc]; [..|subst].

(** [execute] is [exec_instr] after [decode], except on [5xyn]/[9xyn]
    with [n <> 0]. *)
Lemma execute_decode rnd op c :
  0 <= op < 65536 -> ¬ ((op / 4096 = 5 ∨ op / 4096 = 9) ∧ op mod 16 ≠ 0) ->
  execute rnd op c = exec_instr rnd (decode op) c.
Proof.
  intros Hop Hn. destruct (opcode_split op Hop) as (Heq & Hf & Hr).
  revert Hn. rewrite Heq. generalize (op / 4096) (op mod 4096) Hf Hr. clear.
  intros f r Hf Hr Hn. rewrite execute_at, decode_at by done. cbv zeta.
  nibble_cases f; cbv iota; try reflexivity.
  - by repeat case_decide.
  - case_decide; [done|]. exfalso. apply Hn. split; [left|]; zlia.
  - case_decide; [done|]. by rewrite execute_arithmetic_other.
  - case_decide; [done|]. exfalso. apply Hn. split; [right|]; zlia.
  - repeat case_decide; cbn [exec_instr]; unfold skip_if;
      repeat case_bool_decide; cbn [andb]; done || congruence.
  - case_decide; [done|]. by rewrite execute_misc_other.
Qed.

Lemma valid_instr_spec i :
  valid_instr i = true ->
  match i with
  | I_JP nnn | I_CALL nnn | I_LDI nnn | I_JPV0 nnn => 0 <= nnn < 4096
  | I_SE x kk | I_SNE x kk | I_LD x kk | I_ADD x kk | I_RND x kk => 0 <= x < 16 ∧ 0 <= kk < 256
  | I_SEr x y | I_SNEr x y => 0 <= x < 16 ∧ 0 <= y < 16
  | I_ALU x y op => 0 <= x < 16 ∧ 0 <= y < 16 ∧ op ∈ alu_ops
  | I_DRW x y n => 0 <= x < 16 ∧ 0 <= y < 16 ∧ 0 <= n < 16
  | I_SKP x | I_SKNP x => 0 <= x < 16
  | I_MISC x op => 0 <= x < 16 ∧ op ∈ misc_ops
  | _ => True
  end.
Proof.
  destruct i; cbn [valid_instr]; unfold nib, byte8, addr12;
    rewrite ?andb_true_iff, ?bool_decide_eq_true; tauto.
Qed.

Lemma alu_ops_range op : op ∈ alu_ops -> 0 <= op < 16.
Proof. unfold alu_ops. intros H. repeat (rewrite elem_of_cons in H; destruct H as [->|H]); [lia..|by apply elem_of_nil in H]. Qed.

Lemma misc_ops_range op : op ∈ misc_ops -> 0 <= op < 256 ∧ op ≠ 0x9E ∧ op ≠ 0xA1.
Proof. unfold misc_ops. intros H. repeat (rewrite elem_of_cons in H; destruct H as [->|H]); [lia..|by apply elem_of_nil in H]. Qed.

Ltac destruct_ands := repeat match goal with H : _ ∧ _ |- _ => destruct H end.

(** [decode] inverts [encode] on every well-formed variant. *)
Lemma decode_encode i : valid_instr i = true -> decode (encode i) = i.
Proof.
  intros Hv. apply valid_instr_spec in Hv.
  destruct i; cbn [encode] in *; destruct_ands;
    repeat match goal with H : _ ∈ alu_ops |- _ => pose proof (alu_ops_range _ H); revert H end;
    repeat match goal with H : _ ∈ misc_ops |- _ => pose proof (misc_ops_range _ H); revert H end;
    rewrite decode_at by zlia; cbv zeta iota; try intros Hop.
  all: try replace ((x * 256 + y * 16 + op) mod 16) with op by zlia;
       try replace ((x * 256 + op) mod 256) with op by zlia.
  all: repeat case_decide; try (exfalso; zlia); try done; f_equal; zlia.
Qed.

(** [encode] inverts [decode] on every 16-bit opcode the table
    matches. *)
Lemma encode_decode op : 0 <= op < 65536 -> decode op ≠ I_NOP -> encode (decode op) = op.
Proof.
  intros Hop. destruct (opcode_split op Hop) as (Heq & Hf & Hr). rewrite Heq.
  generalize (op / 4096) (op mod 4096) Hf Hr. clear. intros f r Hf Hr.
  rewrite decode_at by done. cbv zeta. nibble_cases f; cbv iota;
    repeat case_decide; intros Hne; try congruence; cbn [encode]; zlia.
Qed.

(** C12. The exception of [execute_decode] (spec section 4.2 lists [5xy0]
    and [9xy0] only): an opcode [5xyn] or [9xyn] with [n <> 0] decodes to
    the no-op, while the code executes it as [5xy0] or [9xy0]. *)
Theorem execute_5xyn_9xyn rnd c x y n :
  0 <= x < 16 -> 0 <= y < 16 -> 0 < n < 16 ->
  decode (0x5000 + x * 256 + y * 16 + n) = I_NOP ∧
  execute rnd (0x5000 + x * 256 + y * 16 + n) c = exec_instr rnd (I_SEr x y) c ∧
  decode (0x9000 + x * 256 + y * 16 + n) = I_NOP ∧
  execute rnd (0x9000 + x * 256 + y * 16 + n) c = exec_instr rnd (I_SNEr x y) c.
Proof.
  intros Hx Hy Hn. destruct (valid_fields x y Hx Hy n ltac:(lia)) as (Fx & Fy & Fn & _).
  replace (0x5000 + x * 256 + y * 16 + n) with (5 * 4096 + (x * 256 + y * 16 + n)) by lia.
  replace (0x9000 + x * 256 + y * 16 + n) with (9 * 4096 + (x * 256 + y * 16 + n)) by lia.
  rewrite !execute_at, !decode_at by zlia. cbv zeta iota. rewrite Fx, Fy, Fn, !decide_False by lia.
  repeat split.
Qed.

Lemma fetch_u16 c op : fetch c = Ok op -> 0 <= op < 65536.
Proof.
  unfold fetch. destruct (mem_read c (pc c)); cbn [mbind result_bind]; [|discriminate].
  destruct (mem_read c (pc c + 1)); cbn [mbind result_bind]; [|discriminate]. intros [= <-]. zlia.
Qed.

(** C11. The instruction-set view of a cycle (spec section 9): a cycle
    that fetches [op] does what [exec_instr] does for [decode op], for
    every opcode except [5xyn] and [9xyn] with [n <> 0]. *)
Theorem chip8_cycle_decode rnd c op :
  fetch c = Ok op -> ¬ ((op / 4096 = 5 ∨ op / 4096 = 9) ∧ op mod 16 ≠ 0) ->
  chip8_cycle rnd c = exec_instr rnd (decode op) c.
Proof.
  intros Hf Hbad. unfold chip8_cycle. rewrite Hf. cbn [mbind result_bind].
  apply execute_decode; [exact (fetch_u16 c op Hf)|exact Hbad].
Qed.

(** ** Witnesses *)

Lemma chip8_cycle_decode_witness :
  chip8_cycle 7 (boot [x81; x24]) = exec_instr 7 (I_ALU 1 2 4) (boot [x81; x24]).
Proof.
  replace (I_ALU 1 2 4) with (decode 0x8124) by reflexivity.
  apply chip8_cycle_decode; [vm_compute; reflexivity|decide_closed].
Defined.

(** With [V0 = V1 = 0], [0x5011] skips the next instruction, while the
    table's reading of it, the no-op, does not. *)
Lemma execute_5xyn_9xyn_witness :
  decode 0x5011 = I_NOP ∧ execute 0 0x5011 chip8_init = exec_instr 0 (I_SEr 0 1) chip8_init ∧
  execute 0 0x5011 chip8_init ≠ exec_instr 0 (decode 0x5011) chip8_init.
Proof.
  destruct (execute_5xyn_9xyn 0 chip8_init 0 1 1 ltac:(lia) ltac:(lia) ltac:(lia)) as (H1 & H2 & _).
  split; [exact H1|split; [exact H2|]]. vm_compute. discriminate.
Defined.
