(* ===== verification/Driver.v ===== *)
(** * The driver: [main] and the operations a host interleaves

    [main] (main.c:5-32) checks [argc], initialises the machine, loads the
    ROM named by [argv[1]], then runs ten iterations of [chip8_cycle],
    [chip8_update_timers] and the draw-flag acknowledgement, printing one
    line per observed draw flag.  The file system is the function [fs]
    from file names to what [fopen]/[fread] observe, and [rand i] is the
    value [rand()] returns during iteration [i].  The run yields the exit
    code with the lines written to [stdout] and [stderr], or the fault of
    the first undefined behaviour.

    [drv_step] is the host's view of spec section 2: at any moment it may
    execute one instruction, tick the timers, set a key or acknowledge the
    draw flag; [main]'s loop is one particular schedule of these steps. *)

From S2P Require Import Prelude Machine Loader Timers Alu Display Misc Cycle.
From Stdlib Require Import Strings.String Strings.Byte.
From stdpp Require Import relations.

Local Open Scope Z_scope.

Record output := mk_output {
  exit_code : Z;
  stdout : list string;
  stderr : list string
}.

(** One iteration of the loop, main.c:22-28; the state is the machine and
    the lines printed so far. *)
Definition main_body (rand : Z -> Z) (i : Z) (s : chip8_t * list string) :
    result (flow (chip8_t * list string)) :=
  let '(c, out) := s in
  c ← chip8_cycle (rand i) c;
  let c := chip8_update_timers c in
  if draw_flag c then Ok (Continue (set_draw_flag c false, out ++ ["Draw flag set"%string]))
  else Ok (Continue (c, out)).

Definition main (args : list string) (fs : string -> option (list byte)) (rand : Z -> Z) :
    result output :=
  match args with
  | [] => Fault NullArgument
  | [prog] => Ok (mk_output 1 [String.append "Usage: " (String.append prog " <rom_file>")] [])
  | _ :: file :: _ =>
      let c := chip8_init in
      let '(r, c) := chip8_load_rom c (fs file) in
      if decide (r ≠ 0) then Ok (mk_output 1 [] [String.append "Failed to load ROM: " file])
      else
        s ← c_for 10 0 (main_body rand) (c, ["ROM loaded successfully"%string]);
        Ok (mk_output 0 s.2 [])
  end.

(** The host's operations on the machine. *)
Inductive drv_step : chip8_t -> chip8_t -> Prop :=
| drv_cycle rnd c c' : chip8_cycle rnd c = Ok c' -> drv_step c c'
| drv_tick c : drv_step c (chip8_update_timers c)
| drv_key c key state c' : chip8_set_key c key state = Ok c' -> drv_step c c'
| drv_ack c : drv_step c (set_draw_flag c false).

(** The host steps that press no key. *)
Inductive quiet_step : chip8_t -> chip8_t -> Prop :=
| quiet_cycle rnd c c' : chip8_cycle rnd c = Ok c' -> quiet_step c c'
| quiet_tick c : quiet_step c (chip8_update_timers c)
| quiet_ack c : quiet_step c (set_draw_flag c false).

(** The iterations of [main]'s loop as the host sees them (main.c:21-29):
    iteration [i] executes a cycle with [rand i], ticks the timers, and
    observes the draw flag, clearing it when it is set; [flags] lists the
    observed flags in order. *)
Inductive host_iters (rand : Z -> Z) : Z -> chip8_t -> list bool -> chip8_t -> Prop :=
| host_done i c : host_iters rand i c [] c
| host_iter i c c1 flags c' :
    chip8_cycle (rand i) c = Ok c1 ->
    host_iters rand (i + 1)
      (if draw_flag (chip8_update_timers c1) then set_draw_flag (chip8_update_timers c1) false
       else chip8_update_timers c1) flags c' ->
    host_iters rand i c (draw_flag (chip8_update_timers c1) :: flags) c'.

(** The number of flags set among [flags]. *)
Definition flagged (flags : list bool) : nat := length (List.filter (λ b, b) flags).

(** The machine invariant the driver keeps. *)
Definition machine_ok (c : chip8_t) : Prop := wf c ∧ sp c <= STACK_SIZE.

(** ** The driver's operations keep the invariant *)

Lemma sp_update_timers c : sp (chip8_update_timers c) = sp c.
Proof. unfold chip8_update_timers. by repeat case_decide. Qed.

Lemma sp_set_key c key state c' : wf c -> chip8_set_key c key state = Ok c' -> sp c' = sp c.
Proof. intros Hwf H. rewrite set_key_eq in H by done. injection H as <-. by case_decide. Qed.

Lemma machine_ok_step c c' : machine_ok c -> drv_step c c' -> machine_ok c'.
Proof.
  intros [Hwf Hsp] H. destruct H as [rnd c c' Hc|c|c key state c' Hk|c].
  - by eapply cycle_invariant.
  - split; [eauto with chip8|by rewrite sp_update_timers].
  - split; [by eapply wf_set_key|by erewrite sp_set_key].
  - split; [eauto with chip8|done].
Qed.

Lemma machine_ok_rtc c c' : machine_ok c -> rtc drv_step c c' -> machine_ok c'.
Proof. intros Hc H. induction H as [|c1 c2 c3 H12 _ IH]; eauto using machine_ok_step. Qed.

Lemma machine_ok_boot bs : Z.of_nat (length bs) <= MEMORY_SIZE - PROGRAM_START -> machine_ok (boot bs).
Proof.
  intros Hn. unfold boot. destruct (chip8_load_rom chip8_init (Some bs)) as [r c] eqn:E. cbn.
  split; [eapply wf_chip8_load_rom; [apply chip8_init_wf|exact E]|].
  rewrite chip8_load_rom_Some in E. case_decide; simplify_eq; cbn; unfold STACK_SIZE; lia.
Qed.

(** ** [main]'s loop as a schedule of driver steps *)

Lemma main_body_eq rand i c out :
  main_body rand i (c, out) =
  (c ← chip8_cycle (rand i) c;
   let c := chip8_update_timers c in
   if draw_flag c then Ok (Continue (set_draw_flag c false, out ++ ["Draw flag set"%string]))
   else Ok (Continue (c, out))).
Proof. reflexivity. Qed.

Lemma host_iters_rtc rand i c flags c' : host_iters rand i c flags c' -> rtc drv_step c c'.
Proof.
  induction 1 as [|i c c1 flags c' Hc _ IH]; [done|].
  eapply rtc_l; [eapply drv_cycle; exact Hc|]. eapply rtc_l; [apply drv_tick|].
  destruct (draw_flag (chip8_update_timers c1)); [|exact IH]. eapply rtc_l; [apply drv_ack|exact IH].
Qed.

Lemma flagged_cons b flags : flagged (b :: flags) = ((if b then 1 else 0) + flagged flags)%nat.
Proof. by destruct b. Qed.

(** [n] iterations of [main]'s loop from iteration [i]: either they all
    run, printing one line per flag observed set, or a cycle faults after
    fewer than [n] iterations. *)
Lemma main_loop_trace rand n i c out :
  match c_for n i (main_body rand) (c, out) with
  | Ok (c', out') => ∃ flags, length flags = n ∧ host_iters rand i c flags c' ∧
      out' = out ++ repeat "Draw flag set"%string (flagged flags)
  | Fault f => ∃ flags c1, (length flags < n)%nat ∧ host_iters rand i c flags c1 ∧
      chip8_cycle (rand (i + Z.of_nat (length flags))) c1 = Fault f
  end.
Proof.
  revert i c out. induction n as [|n IH]; intros i c out.
  - cbn. exists []. rewrite app_nil_r. split_and!; [done|constructor|done].
  - rewrite c_for_S, main_body_eq.
    destruct (chip8_cycle (rand i) c) as [c1|f] eqn:Hc; cbn [mbind result_bind].
    2:{ exists [], c. split_and!; [cbn; lia|constructor|by rewrite Z.add_0_r]. }
    set (d := chip8_update_timers c1).
    destruct (draw_flag d) eqn:Hd; cbn [mbind result_bind].
    + specialize (IH (i + 1) (set_draw_flag d false) (out ++ ["Draw flag set"%string])).
      revert IH. destruct (c_for n (i + 1) (main_body rand) _) as [[c' out']|f].
      * intros (flags & IH1 & IH2 & IH3). exists (true :: flags). split_and!; [cbn; lia| |].
        -- rewrite <- Hd. econstructor; [exact Hc|]. fold d. by rewrite Hd.
        -- rewrite IH3, flagged_cons, <- app_assoc. done.
      * intros (flags & c2 & IH1 & IH2 & IH4). exists (true :: flags), c2. split_and!; [cbn; lia| |].
        -- rewrite <- Hd. econstructor; [exact Hc|]. fold d. by rewrite Hd.
        -- rewrite <- IH4. cbn [length]. f_equal. f_equal. lia.
    + specialize (IH (i + 1) d out).
      revert IH. destruct (c_for n (i + 1) (main_body rand) _) as [[c' out']|f].
      * intros (flags & IH1 & IH2 & IH3). exists (false :: flags). split_and!; [cbn; lia| |].
        -- rewrite <- Hd. econstructor; [exact Hc|]. fold d. by rewrite Hd.
        -- done.
      * intros (flags & c2 & IH1 & IH2 & IH4). exists (false :: flags), c2. split_and!; [cbn; lia| |].
        -- rewrite <- Hd. econstructor; [exact Hc|]. fold d. by rewrite Hd.
        -- rewrite <- IH4. cbn [length]. f_equal. f_equal. lia.
Qed.

Lemma main_load_ok prog file rest fs rand bs :
  fs file = Some bs -> Z.of_nat (length bs) <= MEMORY_SIZE - PROGRAM_START ->
  main (prog :: file :: rest) fs rand =
  (s ← c_for 10 0 (main_body rand) (boot bs, ["ROM loaded successfully"%string]);
   Ok (mk_output 0 s.2 [])).
Proof.
  intros Hf Hn. cbn [main]. rewrite Hf. unfold boot.
  rewrite chip8_load_rom_Some, decide_False by lia. cbn. rewrite decide_False by lia. reflexivity.
Qed.

(** C2. Reachability (spec sections 2 and 3): every machine the host can
    reach from a loaded program, by any interleaving of instruction steps,
    timer ticks, key events and draw-flag acknowledgements, satisfies the
    type invariant [wf] and keeps the stack pointer within the stack.
    Proved by induction on the reflexive-transitive closure. *)
Theorem drv_reachable_ok bs c :
  Z.of_nat (length bs) <= MEMORY_SIZE - PROGRAM_START -> rtc drv_step (boot bs) c ->
  wf c ∧ sp c <= STACK_SIZE.
Proof. intros Hn H. exact (machine_ok_rtc _ _ (machine_ok_boot bs Hn) H). Qed.

(** C8. A run of [main] on a ROM that loads (main.c:19-31): the loop
    runs the host iterations of [host_iters] from the loaded machine.
    Either one of the ten cycles has undefined behaviour and [main] has it
    too, or [main] exits with 0, writes nothing to [stderr], and prints the
    load message followed by exactly one [Draw flag set] line per
    iteration that observed the draw flag set; the final machine satisfies
    the invariant. *)
Theorem main_run prog file rest fs rand bs :
  fs file = Some bs -> Z.of_nat (length bs) <= MEMORY_SIZE - PROGRAM_START ->
  match main (prog :: file :: rest) fs rand with
  | Ok o =>
      exit_code o = 0 ∧ stderr o = [] ∧
      ∃ flags c', length flags = 10%nat ∧ host_iters rand 0 (boot bs) flags c' ∧
        stdout o = "ROM loaded successfully"%string :: repeat "Draw flag set"%string (flagged flags) ∧
        wf c' ∧ sp c' <= STACK_SIZE
  | Fault f =>
      ∃ flags c', (length flags < 10)%nat ∧ host_iters rand 0 (boot bs) flags c' ∧
        chip8_cycle (rand (Z.of_nat (length flags))) c' = Fault f
  end.
Proof.
  intros Hf Hn. rewrite (main_load_ok prog file rest fs rand bs Hf Hn).
  pose proof (main_loop_trace rand 10 0 (boot bs) ["ROM loaded successfully"%string]) as Htr.
  destruct (c_for 10 0 (main_body rand) _) as [[c' out]|f]; cbn [mbind result_bind].
  - destruct Htr as (flags & Hl & Hh & ->). split_and!; [done|done|]. exists flags, c'.
    pose proof (machine_ok_rtc _ _ (machine_ok_boot bs Hn) (host_iters_rtc _ _ _ _ _ Hh)) as [? ?].
    split_and!; done.
  - exact Htr.
Qed.

(** C37. The error paths of [main] (main.c:6-17): without a ROM argument
    it prints the usage line and exits with 1; when the ROM does not open
    or is larger than 3584 bytes it reports the file on [stderr] and exits
    with 1, printing nothing on [stdout]; with no [argv[0]] at all the
    usage line reads a null pointer. *)
Theorem main_errors prog file rest fs rand :
  main [] fs rand = Fault NullArgument ∧
  main [prog] fs rand = Ok (mk_output 1 [String.append "Usage: " (String.append prog " <rom_file>")] []) ∧
  ((fs file = None ∨ ∃ bs, fs file = Some bs ∧ MEMORY_SIZE - PROGRAM_START < Z.of_nat (length bs)) ->
   main (prog :: file :: rest) fs rand = Ok (mk_output 1 [] [String.append "Failed to load ROM: " file])).
Proof.
  split; [done|]. split; [done|]. intros [Hf|(bs & Hf & Hn)]; cbn [main]; rewrite Hf; [done|].
  rewrite chip8_load_rom_Some, decide_True by lia. cbn. rewrite decide_True by lia. done.
Qed.

(** What a host step that presses no key leaves unchanged at an [Fx0A]
    with no key held: the instruction is not passed, and only the timers
    and the draw flag can change. *)
Lemma quiet_step_wait c x c1 c2 :
  pc c + 1 < MEMORY_SIZE -> 0 <= x < NUM_REGISTERS ->
  (memory c).[pc c] = 0xF0 + x -> (memory c).[pc c + 1] = 0x0A ->
  (∀ j, 0 <= j < NUM_KEYS -> (keypad c).[j] = 0) ->
  wf c1 -> pc c1 = pc c -> V c1 = V c -> memory c1 = memory c -> keypad c1 = keypad c ->
  quiet_step c1 c2 ->
  wf c2 ∧ pc c2 = pc c ∧ V c2 = V c ∧ memory c2 = memory c ∧ keypad c2 = keypad c.
Proof.
  intros Hpc Hx Hhi Hlo Hnone Hwf Hp HV Hm Hk Hs. destruct Hs as [rnd c1 c2 Hc|c1|c1].
  - rewrite (proj1 (cycle_wait_key rnd c1 x Hwf ltac:(by rewrite Hp) Hx ltac:(by rewrite Hm, Hp)
      ltac:(by rewrite Hm, Hp)) ltac:(by rewrite Hk)) in Hc. by simplify_eq.
  - split; [eauto with chip8|]. by rewrite update_timers_eq.
  - split; [eauto with chip8|]. done.
Qed.

(** C28. The [Fx0A] busy-poll under any host schedule (spec sections 4.2
    and 5): from an [Fx0A] with no key held, every machine the host
    reaches by cycles, timer ticks and draw-flag acknowledgements, in any
    order and number, is still at the same instruction with the same
    registers, memory and keys (the program makes no progress by itself);
    and from every such machine, pressing any key [k] lets the next cycle
    store [k] in [Vx] and move past the instruction. *)
Theorem wait_key_liveness c x :
  wf c -> pc c + 1 < MEMORY_SIZE -> 0 <= x < NUM_REGISTERS ->
  (memory c).[pc c] = 0xF0 + x -> (memory c).[pc c + 1] = 0x0A ->
  (∀ j, 0 <= j < NUM_KEYS -> (keypad c).[j] = 0) ->
  ∀ c', rtc quiet_step c c' ->
    pc c' = pc c ∧ V c' = V c ∧ memory c' = memory c ∧ keypad c' = keypad c ∧
    ∀ k rnd, 0 <= k < NUM_KEYS -> ∃ c1 c2, chip8_set_key c' k 1 = Ok c1 ∧
      chip8_cycle rnd c1 = Ok c2 ∧ pc c2 = pc c + 2 ∧ reg c2 x = k.
Proof.
  intros Hwf Hpc Hx Hhi Hlo Hnone c' Hr.
  assert (Hinv : wf c' ∧ pc c' = pc c ∧ V c' = V c ∧ memory c' = memory c ∧ keypad c' = keypad c).
  { revert c' Hr.
    apply (rtc_ind_r (λ c2, wf c2 ∧ pc c2 = pc c ∧ V c2 = V c ∧ memory c2 = memory c ∧ keypad c2 = keypad c));
      [done|]. intros c1 c2 _ H12 (? & ? & ? & ? & ?). by eapply quiet_step_wait. }
  destruct Hinv as (Hwf' & Hp & HV & Hm & Hk). split_and!; [done..|].
  intros k rnd Hkr. pose proof (wf_keypad_len _ Hwf') as Hkl. pose proof (wf_pc _ Hwf).
  rewrite set_key_eq by done. rewrite Z.mod_small by (unfold NUM_KEYS in *; lia).
  rewrite decide_True by lia. set (c1 := set_keypad c' ((keypad c').[k := 1 mod 256])).
  assert (Hwf1 : wf c1) by (subst c1; wf_rebuild Hwf').
  destruct (cycle_wait_key rnd c1 x Hwf1 ltac:(subst c1; cbn; by rewrite Hp) Hx
    ltac:(subst c1; cbn; by rewrite Hm, Hp) ltac:(subst c1; cbn; by rewrite Hm, Hp)) as [_ Hkey].
  eexists _, _. split; [reflexivity|]. split; [apply (Hkey k)|].
  - done.
  - subst c1. cbn. rewrite zlookup_insert_eq by (rewrite Hkl; cbn; unfold NUM_KEYS in *; lia). done.
  - intros j Hj. subst c1. cbn. rewrite zlookup_insert_ne by lia. rewrite Hk. apply Hnone.
    unfold NUM_KEYS in *. lia.
  - unfold is_u16, NUM_KEYS, NUM_REGISTERS, MEMORY_SIZE in *. split.
    + cbn. rewrite Hp. zlia.
    + simp_reg. apply u8_id. unfold is_u8. lia.
Qed.

(** ** Witnesses *)

Lemma drv_reachable_ok_witness :
  wf (chip8_update_timers (set_draw_flag (boot [x12; x00]) false)) ∧
  sp (chip8_update_timers (set_draw_flag (boot [x12; x00]) false)) <= STACK_SIZE.
Proof.
  apply (drv_reachable_ok [x12; x00]); [decide_closed|].
  eapply rtc_l; [apply drv_ack|]. apply rtc_once, drv_tick.
Defined.

(** The spec's [D005] scenario as a ROM: draw the glyph of 0 at the
    origin, then [1202] loops on itself; one draw-flag line is printed. *)
Lemma main_run_witness :
  main ["chip8"; "rom"]%string (λ _, Some [xd0; x05; x12; x02]) (λ _, 0) =
    Ok (mk_output 0 ["ROM loaded successfully"; "Draw flag set"]%string []) ∧
  ∃ flags c', length flags = 10%nat ∧ host_iters (λ _, 0) 0 (boot [xd0; x05; x12; x02]) flags c' ∧
    flagged flags = 1%nat.
Proof.
  pose proof (main_run "chip8" "rom" [] (λ _, Some [xd0; x05; x12; x02]) (λ _, 0) [xd0; x05; x12; x02]
    eq_refl ltac:(decide_closed)) as H.
  assert (Hm : main ["chip8"; "rom"]%string (λ _, Some [xd0; x05; x12; x02]) (λ _, 0) =
    Ok (mk_output 0 ["ROM loaded successfully"; "Draw flag set"]%string [])) by (vm_compute; reflexivity).
  rewrite Hm in H. cbn beta iota in H. cbn [stdout] in H. destruct H as (_ & _ & flags & c' & Hl & Hh & Hout & _).
  split; [done|]. exists flags, c'. split_and!; [done|done|].
  apply (f_equal length) in Hout. cbn [length] in Hout. rewrite repeat_length in Hout. lia.
Defined.

Lemma main_errors_witness :
  main ["chip8"]%string (λ _, None) (λ _, 0) = Ok (mk_output 1 ["Usage: chip8 <rom_file>"%string] []) ∧
  main ["chip8"; "missing.ch8"]%string (λ _, None) (λ _, 0) =
    Ok (mk_output 1 [] ["Failed to load ROM: missing.ch8"%string]).
Proof.
  split.
  - exact (proj1 (proj2 (main_errors "chip8" "x" [] (λ _, None) (λ _, 0)))).
  - apply (proj2 (proj2 (main_errors "chip8" "missing.ch8" [] (λ _, None) (λ _, 0)))). by left.
Defined.

(** [F30A] at [0x200]: after a draw-flag acknowledgement and a timer
    tick the machine still waits at [0x200]; pressing key 7 then lets the
    cycle store 7 in [V3] and move to [0x202]. *)
Lemma wait_key_liveness_witness :
  pc (chip8_update_timers (set_draw_flag (boot [xf3; x0a]) false)) = 0x200 ∧
  ∃ c1 c2, chip8_set_key (chip8_update_timers (set_draw_flag (boot [xf3; x0a]) false)) 7 1 = Ok c1 ∧
    chip8_cycle 0 c1 = Ok c2 ∧ pc c2 = 0x202 ∧ reg c2 3 = 7.
Proof.
  assert (Hnone : ∀ j, 0 <= j < NUM_KEYS -> (keypad (boot [xf3; x0a])).[j] = 0).
  { intros j Hj. change (keypad (boot [xf3; x0a])) with (replicate 16 0). apply replicate_0_lookup.
    unfold NUM_KEYS in Hj. lia. }
  destruct (wait_key_liveness (boot [xf3; x0a]) 3 ltac:(decide_closed) ltac:(decide_closed)
    ltac:(decide_closed) ltac:(reflexivity) ltac:(reflexivity) Hnone
    (chip8_update_timers (set_draw_flag (boot [xf3; x0a]) false))) as (Hp & _ & _ & _ & Hk).
  - eapply rtc_l; [apply quiet_ack|]. apply rtc_once, quiet_tick.
  - split; [exact Hp|]. destruct (Hk 7 0 ltac:(unfold NUM_KEYS; lia)) as (c1 & c2 & H1 & H2 & H3 & H4).
    exists c1, c2. split_and!; [done|done| |done]. rewrite H3. reflexivity.
Defined.
