(* ===== verification/Run.v ===== *)
(** * Runs of the machine: many cycles in a row

    The host calls [chip8_cycle] repeatedly (spec section 2).  [run] is
    [n] cycles in a row, with [rand k] the value [rand()] returns during
    the [k]-th of them; it stops at the first undefined behaviour.
    [isa_run] is the same loop over the spec's instruction variants
    ([fetch], [decode], [exec_instr] of [Isa]).  The theorems show that the
    two runs agree until an opcode [5xyn]/[9xyn] with [n <> 0] is fetched,
    and that a counting loop written in CHIP-8 terminates, with its exact
    number of cycles, from every initial value of its counter. *)

From S2P Require Import Prelude Machine Loader Timers Alu Display Misc Cycle Isa.
From Stdlib Require Import Strings.Byte.

(** [n] cycles; [rand k] is the random value of the [k]-th. *)
Fixpoint run (rand : nat -> Z) (n : nat) (c : chip8_t) : result chip8_t :=
  match n with
  | O => Ok c
  | S n => c ← chip8_cycle (rand O) c; run (λ k, rand (S k)) n c
  end.

(** One instruction of the spec's machine: fetch, decode, execute. *)
Definition isa_step (rnd : Z) (c : chip8_t) : result chip8_t :=
  op ← fetch c; exec_instr rnd (decode op) c.

Fixpoint isa_run (rand : nat -> Z) (n : nat) (c : chip8_t) : result chip8_t :=
  match n with
  | O => Ok c
  | S n => c ← isa_step (rand O) c; isa_run (λ k, rand (S k)) n c
  end.

(** The counting loop of [count_loop_terminates] with [kk = 10], loaded
    by [chip8_load_rom] into a fresh machine. *)
Definition count_demo : chip8_t := boot [x70; x01; x30; x0a; x12; x00; x12; x06].

(** The opcodes on which the code and the instruction table disagree. *)
Definition bad_opcode (op : Z) : bool :=
  bool_decide ((op / 4096 = 5 ∨ op / 4096 = 9) ∧ op mod 16 ≠ 0).

(** ** Composing runs *)

Lemma run_plus rand m n c :
  run rand (m + n) c = (c' ← run rand m c; run (λ k, rand (m + k)%nat) n c').
Proof.
  revert rand c. induction m as [|m IH]; intros rand c; cbn.
  - done.
  - destruct (chip8_cycle (rand O) c) as [c1|f]; cbn; [|done]. apply IH.
Qed.

Lemma run_ext rand rand' n c : (∀ k, rand k = rand' k) -> run rand n c = run rand' n c.
Proof.
  revert rand rand' c. induction n as [|n IH]; intros rand rand' c Hr; cbn; [done|].
  rewrite Hr. destruct (chip8_cycle (rand' O) c); cbn; [|done]. apply IH. intros k. apply Hr.
Qed.

(** A cycle at a decodable opcode is the variant's execution. *)
Lemma cycle_step rnd c hi lo :
  wf c -> pc c + 1 < MEMORY_SIZE -> (memory c).[pc c] = hi -> (memory c).[pc c + 1] = lo ->
  bad_opcode (hi * 256 + lo) = false ->
  chip8_cycle rnd c = exec_instr rnd (decode (hi * 256 + lo)) c.
Proof.
  intros Hwf Hpc Hhi Hlo Hbad. unfold chip8_cycle. rewrite fetch_in by done. rewrite Hhi, Hlo.
  cbn [mbind result_bind]. apply execute_decode.
  - apply (fetch_u16 c). rewrite fetch_in by done. by rewrite Hhi, Hlo.
  - unfold bad_opcode in Hbad. by apply bool_decide_eq_false in Hbad.
Qed.

Lemma cycle_isa_step rnd c op :
  fetch c = Ok op -> bad_opcode op = false -> chip8_cycle rnd c = isa_step rnd c.
Proof.
  intros Hf Hbad. unfold chip8_cycle, isa_step. rewrite Hf. cbn [mbind result_bind].
  apply execute_decode; [exact (fetch_u16 c op Hf)|].
  unfold bad_opcode in Hbad. by apply bool_decide_eq_false in Hbad.
Qed.

Lemma cycle_isa_fault rnd c f : fetch c = Fault f -> chip8_cycle rnd c = Fault f ∧ isa_step rnd c = Fault f.
Proof. intros Hf. unfold chip8_cycle, isa_step. by rewrite Hf. Qed.

(** C13. Refinement of the instruction-set machine (spec section 9): a
    run of [n] cycles of the code gives the same result, state or
    undefined behaviour, as [n] steps of fetch, [decode] and [exec_instr],
    unless one of the first [n] cycles fetches an opcode [5xyn]/[9xyn]
    with [n <> 0], the only opcodes the two read differently. *)
Theorem run_refines_isa rand n c :
  run rand n c = isa_run rand n c ∨
  ∃ m c' op, (m < n)%nat ∧ run rand m c = Ok c' ∧ fetch c' = Ok op ∧ bad_opcode op = true.
Proof.
  revert rand c. induction n as [|n IH]; intros rand c; [by left|].
  destruct (fetch c) as [op|f] eqn:Hf.
  - destruct (bad_opcode op) eqn:Hb; [right; exists O, c, op; split_and!; done || lia|].
    cbn. rewrite (cycle_isa_step _ _ op Hf Hb).
    destruct (isa_step (rand O) c) as [c1|f] eqn:Hs; cbn; [|by left].
    destruct (IH (λ k, rand (S k)) c1) as [->|(m & c' & op' & Hm & Hrun & Hf' & Hb')]; [by left|].
    right. exists (S m), c', op'. split_and!; [lia| |done|done].
    cbn. rewrite (cycle_isa_step _ _ op Hf Hb), Hs. done.
  - left. cbn. destruct (cycle_isa_fault (rand O) c f Hf) as [-> ->]. done.
Qed.

(** ** A counting loop terminates *)

(** [0x200: 7001  ADD V0, 1;  3 0kk  SE V0, kk;  1200  JP 0x200;
    0x206: 1206  JP 0x206]: count [V0] up to [kk], then stop on a jump to
    itself. *)
Definition count_loop (kk : Z) : list Z := [0x70; 0x01; 0x30; kk; 0x12; 0x00; 0x12; 0x06].

(** The loop is in memory at [0x200]. *)
Definition loop_loaded (c : chip8_t) (kk : Z) : Prop :=
  take 8 (drop (Z.to_nat PROGRAM_START) (memory c)) = count_loop kk.

Lemma window_lookup (m l : list Z) a i :
  0 <= a -> take (length l) (drop (Z.to_nat a) m) = l -> (i < length l)%nat ->
  m.[a + Z.of_nat i] = l !!! i.
Proof.
  intros Ha Hw Hi. rewrite <- Hw, lookup_total_take_lt, lookup_total_drop by done. f_equal. lia.
Qed.

Lemma pc_set_pc c p : 0 <= p < 65536 -> pc (set_pc c p) = p.
Proof. intros. cbn. zlia. Qed.

Lemma set_pc_set_reg c p x v : set_pc (set_reg c x v) p = set_reg (set_pc c p) x v.
Proof. done. Qed.

Lemma run_fixpoint rand n c : (∀ rnd, chip8_cycle rnd c = Ok c) -> run rand n c = Ok c.
Proof.
  intros Hc. revert rand. induction n as [|n IH]; intros rand; cbn; [done|]. rewrite Hc. apply IH.
Qed.

Section Loop.
Context (kk : Z) (Hkk : 0 <= kk < 256).

Lemma loop_byte c i : loop_loaded c kk -> (i < 8)%nat -> (memory c).[0x200 + Z.of_nat i] = count_loop kk !!! i.
Proof. intros Hl Hi. apply window_lookup; [lia|exact Hl|exact Hi]. Qed.

Lemma decode_3xkk : decode (0x30 * 256 + kk) = I_SE 0 kk.
Proof.
  replace (0x30 * 256 + kk) with (3 * 4096 + kk) by lia. rewrite decode_at by lia. cbv zeta iota.
  f_equal; zlia.
Qed.

Lemma decode_7001 : decode (0x70 * 256 + 0x01) = I_ADD 0 1.
Proof. reflexivity. Qed.
Lemma decode_1200 : decode (0x12 * 256 + 0x00) = I_JP 0x200.
Proof. reflexivity. Qed.
Lemma decode_1206 : decode (0x12 * 256 + 0x06) = I_JP 0x206.
Proof. reflexivity. Qed.

Lemma bad_3xkk : bad_opcode (0x30 * 256 + kk) = false.
Proof. unfold bad_opcode. apply bool_decide_eq_false. zlia. Qed.

(** A side condition of [cycle_step] inside the loop: the state is
    well-formed, [pc] is in memory, the bytes at [pc] are those of the
    program, the opcode is not a [5xyn]/[9xyn]. *)
Ltac loop_side :=
  first
    [ solve [eauto with chip8]
    | solve [reflexivity]
    | exact bad_3xkk
    | cbn [memory pc set_pc set_reg set_V];
      repeat match goal with H : pc _ = _ |- _ => rewrite H end;
      lazymatch goal with
      | |- _ < MEMORY_SIZE => unfold MEMORY_SIZE; zlia
      | |- _ = count_loop kk !!! ?i =>
          match goal with Hl : loop_loaded ?c _ |- _ => rewrite <- (loop_byte c i Hl) by lia end;
          reflexivity
      end ].

(** One cycle of the loop, at the opcode made of bytes [i] and [i + 1] of
    the program. *)
Ltac loop_cycle i :=
  rewrite (cycle_step _ _ (count_loop kk !!! i) (count_loop kk !!! S i)) by loop_side;
  simpl (count_loop kk !!! _);
  rewrite ?decode_3xkk, ?decode_7001, ?decode_1200, ?decode_1206;
  cbn [exec_instr mbind result_bind].

Lemma loop_iteration rand c :
  wf c -> pc c = 0x200 -> loop_loaded c kk -> (reg c 0 + 1) mod 256 ≠ kk ->
  run rand 3 c = Ok (set_reg c 0 (reg c 0 + 1)).
Proof.
  intros Hwf Hpc Hl Hne. cbn [run].
  loop_cycle 0%nat. loop_cycle 2%nat. simp_reg.
  rewrite bool_decide_eq_false_2 by zlia. cbn [skip_if].
  loop_cycle 4%nat.
  rewrite !set_pc_set_pc, set_pc_set_reg, set_pc_set_pc, <- Hpc, set_pc_id by done. done.
Qed.

Lemma loop_exit rand c :
  wf c -> pc c = 0x200 -> loop_loaded c kk -> (reg c 0 + 1) mod 256 = kk ->
  run rand 2 c = Ok (set_reg (set_pc c 0x206) 0 kk).
Proof.
  intros Hwf Hpc Hl Heq. cbn [run].
  loop_cycle 0%nat. loop_cycle 2%nat. simp_reg.
  rewrite bool_decide_eq_true_2 by zlia. cbn [skip_if].
  rewrite !set_pc_set_pc, set_pc_set_reg, set_pc_set_pc. cbn [pc set_reg set_V set_pc].
  rewrite Hpc. unfold set_reg, set_pc, set_V. cbn.
  replace (u8 (reg c 0 + 1)) with (u8 kk) by zlia. reflexivity.
Qed.
(** The final jump to itself. *)
Lemma loop_halt rnd c : wf c -> pc c = 0x206 -> loop_loaded c kk -> chip8_cycle rnd c = Ok c.
Proof.
  intros Hwf Hpc Hl. loop_cycle 6%nat. rewrite set_pc_set_pc, <- Hpc, set_pc_id by done. done.
Qed.

(** [k] more rounds of the loop, the measure [(kk - V0 - 1) mod 256]
    being [k]. *)
Lemma loop_runs k : ∀ rand c,
  wf c -> pc c = 0x200 -> loop_loaded c kk -> Z.of_nat k = (kk - reg c 0 - 1) mod 256 ->
  run rand (3 * k + 2) c = Ok (set_reg (set_pc c 0x206) 0 kk).
Proof.
  induction k as [|k IH]; intros rand c Hwf Hpc Hl Hk.
  - apply loop_exit; [done..|zlia].
  - pose proof (reg_u8 c Hwf 0 ltac:(unfold NUM_REGISTERS; lia)).
    replace (3 * S k + 2)%nat with (3 + (3 * k + 2))%nat by lia. rewrite run_plus.
    rewrite loop_iteration by (done || zlia). cbn [mbind result_bind].
    rewrite IH; [|eauto with chip8|done|done|].
    + by rewrite set_pc_set_reg, set_reg_set_reg.
    + simp_reg. zlia.
Qed.
End Loop.

(** C14. Termination of a counting loop (spec sections 4.2 and 8): the
    program [ADD V0, 1; SE V0, kk; JP 0x200; JP 0x206] loaded at [0x200]
    reaches its final jump-to-self after exactly [3 m + 2] cycles, where
    [m = (kk - V0 - 1) mod 256] is the number of remaining rounds, from
    every initial [V0] (the count wraps at 256); it then has [V0 = kk] and
    stays there for ever.  The proof is an induction on the measure [m],
    which each round decreases by one. *)
Theorem count_loop_terminates rand c kk :
  wf c -> pc c = PROGRAM_START -> loop_loaded c kk -> 0 <= kk < 256 ->
  let n := (3 * Z.to_nat ((kk - reg c 0 - 1) mod 256) + 2)%nat in
  run rand n c = Ok (set_reg (set_pc c 0x206) 0 kk) ∧ (∀ m, run rand (n + m) c = run rand n c).
Proof.
  intros Hwf Hpc Hl Hkk n.
  assert (Hrun : run rand n c = Ok (set_reg (set_pc c 0x206) 0 kk)).
  { apply loop_runs; [done..|]. rewrite Z2Nat.id; [done|]. apply Z.mod_pos_bound. lia. }
  split; [done|]. intros m. rewrite run_plus, Hrun. cbn [mbind result_bind].
  apply run_fixpoint. intros rnd. apply (loop_halt kk Hkk); [eauto with chip8|reflexivity|done].
Qed.

(** ** Witnesses *)

Lemma count_loop_terminates_witness :
  ∃ c', run (λ _, 0) 29 count_demo = Ok c' ∧ pc c' = 0x206 ∧ reg c' 0 = 10 ∧
    run (λ _, 0) 100 count_demo = Ok c'.
Proof.
  destruct (count_loop_terminates (λ _, 0) count_demo 10 ltac:(decide_closed) ltac:(reflexivity)
    ltac:(vm_compute; reflexivity) ltac:(lia)) as [Hrun Hstay].
  cbv zeta in Hrun, Hstay.
  match type of Hrun with run _ ?n _ = _ =>
    assert (Hn : n = 29%nat) by (vm_compute; reflexivity); rewrite Hn in Hrun, Hstay end.
  eexists. split; [exact Hrun|].
  split; [vm_compute; reflexivity|split; [vm_compute; reflexivity|]].
  change 100%nat with (29 + 71)%nat. rewrite Hstay. exact Hrun.
Defined.

